(** * Batching of summarization examples (batcher.py) and the two
      tensor index helpers (test.py)

    A shallow embedding of [src/batcher.py] and [src/test.py].  Python
    integers are [Z], Python lists are [list], byte strings are [string].
    Exceptions are made explicit in the [result] type.  A [while] loop of
    the source is the combinator [while] run on a bound of its number of
    iterations; [NoFuel] is the outcome of a loop that is still running
    when the bound is reached. *)

From stdpp Require Import base list strings sorting.
From Stdlib Require Import ZArith Lia Ascii.

Local Open Scope Z_scope.

(** ** Python values, exceptions and built-ins *)

(** The exceptions that the code of the two files can raise. *)
Inductive exn : Set :=
| AssertionError        (* a failed [assert] *)
| AttributeError        (* an attribute that was never set *)
| ValueError            (* max() of [], zero step of xrange, numpy shape mismatch *)
| IndexError            (* an array index out of bounds *)
| IOError               (* open() of a missing file *)
| InvalidArgumentError. (* a TensorFlow op refusing its arguments *)

Inductive result (A : Type) : Type :=
| Ok (a : A)
| Raise (e : exn)
| NoFuel.

Arguments Ok {A} a.
Arguments Raise {A} e.
Arguments NoFuel {A}.

#[global] Instance result_bind : MBind result := λ A B k m,
  match m with
  | Ok a => k a
  | Raise e => Raise e
  | NoFuel => NoFuel
  end.

#[global] Instance result_ret : MRet result := λ A a, Ok a.

(** How the body of a loop ends: at its end, or at a [break]. *)
Inductive ctl (St : Type) : Type :=
| Continue (s : St)
| Break (s : St).

Arguments Continue {St} s.
Arguments Break {St} s.

(** [while cond: body] on the loop's variables [s]. *)
Fixpoint while {St} (fuel : nat) (cond : St → bool) (body : St → result (ctl St)) (s : St)
  : result St :=
  if cond s then
    match fuel with
    | O => NoFuel
    | S fuel' =>
        c ← body s;
        match c with
        | Continue s' => while fuel' cond body s'
        | Break s' => Ok s'
        end
    end
  else Ok s.

(** [for x in l: body] *)
Fixpoint for_each {A St} (l : list A) (body : A → St → result St) (s : St) : result St :=
  match l with
  | [] => Ok s
  | x :: l' => s' ← body x s; for_each l' body s'
  end.

(** [for i, x in enumerate(l): body], counting from [i]. *)
Fixpoint for_enumerate {A St} (i : nat) (l : list A) (body : nat → A → St → result St) (s : St)
  : result St :=
  match l with
  | [] => Ok s
  | x :: l' => s' ← body i x s; for_enumerate (S i) l' body s'
  end.

(** [len(l)] *)
Definition len {A} (l : list A) : Z := Z.of_nat (length l).

(** [l[:n]]: a negative bound counts from the end of the list. *)
Definition slice_to {A} (l : list A) (n : Z) : list A :=
  if n <? 0 then take (Z.to_nat (len l + n)) l else take (Z.to_nat n) l.

(** [l[a:b]] for bounds that are not negative. *)
Definition slice {A} (l : list A) (a b : Z) : list A :=
  take (Z.to_nat b - Z.to_nat a)%nat (drop (Z.to_nat a) l).

(** [max(l)] on integers; the built-in raises ValueError on []. *)
Definition py_max (l : list Z) : result Z :=
  match l with
  | [] => Raise ValueError
  | x :: l' => Ok (foldl Z.max x l')
  end.

(** [xrange(0, stop, step)] *)
Definition xrange (stop step : Z) : result (list Z) :=
  if step =? 0 then Raise ValueError
  else if step <? 0 then Ok []
  else Ok ((λ k, k * step) <$> seqZ 0 ((stop + step - 1) `div` step)).

(** [sorted(l, key=key)].  The built-in sort is stable, and a stable sort
    has one possible result; it is computed here by insertion from the
    right. *)
Fixpoint insert_by {A} (key : A → Z) (x : A) (l : list A) : list A :=
  match l with
  | [] => [x]
  | y :: l' => if key x <=? key y then x :: y :: l' else y :: insert_by key x l'
  end.

Definition sorted {A} (l : list A) (key : A → Z) : list A :=
  foldr (insert_by key) [] l.

(** [f.readline()] on the unread part of a file: the line up to and
    including its newline, or what is left of the file when it has no
    newline; the empty string at the end of the file. *)
Fixpoint readline (unread : string) : string * string :=
  match unread with
  | EmptyString => (EmptyString, EmptyString)
  | String c rest =>
      if Ascii.eqb c "010"%char then (String c EmptyString, rest)
      else let '(line, rest') := readline rest in (String c line, rest')
  end.

(** Truth value of a string, as in [while linex and liney]. *)
Definition truthy (s : string) : bool :=
  match s with
  | EmptyString => false
  | String _ _ => true
  end.

(** The lines that successive [readline] calls return before the end of
    the file; every line has at least one character, so as many calls as
    the file has characters reach its end. *)
Fixpoint readlines_upto (n : nat) (unread : string) : list string :=
  match n with
  | O => []
  | S n' =>
      if truthy unread
      then let '(line, rest) := readline unread in line :: readlines_upto n' rest
      else []
  end.

Definition readlines (unread : string) : list string :=
  readlines_upto (String.length unread) unread.

(** [open(path)] in a file system that maps a path to its content. *)
Definition open (fs : string → option string) (path : string) : result string :=
  match fs path with
  | Some content => Ok content
  | None => Raise IOError
  end.

(** ** 32-bit integers

    The arrays of ids of numpy and the index tensors of TensorFlow hold
    32-bit signed integers.  A value is kept as a [Z] in the range of
    int32; [wrap32] is the two's complement value that an int32 keeps of
    an integer, which is what a conversion to int32 and an int32
    addition or multiplication that overflows leave. *)

Definition wrap32 (z : Z) : Z := (z + 2 ^ 31) `mod` 2 ^ 32 - 2 ^ 31.

Definition is_int32 (z : Z) : Prop := - 2 ^ 31 <= z < 2 ^ 31.

(** The sum and the product of two int32 values, as an int32. *)
Definition add32 (x y : Z) : Z := wrap32 (x + y).
Definition mul32 (x y : Z) : Z := wrap32 (x * y).

(** ** numpy arrays

    A one-dimensional array is a list, a two-dimensional array a list of
    rows.  The arrays of ids and of lengths have [dtype=np.int32]: an
    assignment converts the Python integers to int32 (numpy 1.x, the
    numpy of this Python 2 code, keeps their low 32 bits).  The array
    [padding_mask] has [dtype=np.float32]; the code stores 0 and 1 in
    it. *)

(** [np.array(v).astype(np.int32)] on a list of Python integers *)
Definition astype_int32 (v : list Z) : list Z := wrap32 <$> v.

(** [np.zeros((n))] *)
Definition np_zeros1 (n : Z) : result (list Z) :=
  if n <? 0 then Raise ValueError else Ok (replicate (Z.to_nat n) 0).

(** [np.zeros((r, c))] *)
Definition np_zeros2 (r c : Z) : result (list (list Z)) :=
  if (r <? 0) || (c <? 0) then Raise ValueError
  else Ok (replicate (Z.to_nat r) (replicate (Z.to_nat c) 0)).

(** [a[i] = x] for [i >= 0] and an [x] that is stored as it is *)
Definition np_put (a : list Z) (i : nat) (x : Z) : result (list Z) :=
  match a !! i with
  | None => Raise IndexError
  | Some _ => Ok (<[i := x]> a)
  end.

(** [a[i] = x] for [i >= 0], on an int32 array *)
Definition np_set1 (a : list Z) (i : nat) (x : Z) : result (list Z) :=
  np_put a i (wrap32 x).

(** [a[i, :] = v] for [i >= 0], on an int32 array: [v] must have the
    length of the row, or length 1, in which case its element fills the
    row. *)
Definition np_set_row (a : list (list Z)) (i : nat) (v : list Z) : result (list (list Z)) :=
  match a !! i with
  | None => Raise IndexError
  | Some row =>
      if decide (length v = length row) then Ok (<[i := astype_int32 v]> a)
      else match v with
           | [x] => Ok (<[i := replicate (length row) (wrap32 x)]> a)
           | _ => Raise ValueError
           end
  end.

(** [a[i][j] = x] for [i, j >= 0], on a float32 array and for an [x]
    that float32 holds exactly *)
Definition np_set2 (a : list (list Z)) (i j : nat) (x : Z) : result (list (list Z)) :=
  match a !! i with
  | None => Raise IndexError
  | Some row => row' ← np_put row j x; Ok (<[i := row']> a)
  end.

(** [np.random.shuffle], on the state of numpy's generator. *)
Class NumpyRandom (RandomState : Type) : Type := {
  np_random_shuffle : ∀ A : Type, RandomState → list A → list A * RandomState;
}.

Arguments np_random_shuffle {RandomState _ A} _ _.

(** ** Hyperparameters and the collaborators that are not in batcher.py *)

Record HParams : Set := mkHParams {
  mode : string;
  batch_size : Z;
  max_enc_steps : Z;
  max_dec_steps : Z;
  pointer_gen : bool;
}.

(** The vocabulary object and the helpers of the modules [data] and
    [nlc_data], which batcher.py imports: [vocab.word2id], the special
    tokens, [data.article2ids], [data.abstract2ids] and
    [nlc_data.remove_nonascii].  [word] is the type of the elements of an
    article or of an abstract. *)
Class Vocabulary (word : Type) : Type := {
  word2id : word → Z;
  _SOS : word;
  _EOS : word;
  _PAD : word;
  article2ids : list word → list Z * list word;
  abstract2ids : list word → list word → list Z;
  remove_nonascii : string → list word;
}.

(** ** class Example *)

Section Example.
Context {word : Type} `{Vocabulary word}.

Record Example : Type := mkExample {
  ex_hps : HParams;
  enc_len : Z;
  enc_input : list Z;
  dec_input : list Z;
  target : list Z;
  dec_len : Z;
  (* the next two attributes are set only when [hps.pointer_gen] *)
  enc_input_extend_vocab : option (list Z);
  article_oovs : option (list word);
  original_article : list word;
  original_abstract : list word;
  original_abstract_sents : list word;
}.

(** Reading an attribute that may not have been set. *)
Definition getattr {A} (a : option A) : result A :=
  match a with
  | Some x => Ok x
  | None => Raise AttributeError
  end.

Definition get_dec_inp_targ_seqs (sequence : list Z) (max_len start_id stop_id : Z)
  : result (list Z * list Z) :=
  let inp := start_id :: sequence in
  let target := sequence in
  let '(inp, target) :=
    if len inp >? max_len
    then (slice_to inp max_len, slice_to target max_len)   (* truncate, no end token *)
    else (inp, target ++ [stop_id]) in                     (* no truncation, end token *)
  if len inp =? len target then Ok (inp, target) else Raise AssertionError.

(** [Example.__init__] *)
Definition Example_init (article abstract_sentences : list word) (hps : HParams)
  : result Example :=
  let start_decoding := word2id _SOS in
  let stop_decoding := word2id _EOS in
  let article_words := article in
  let article_words :=
    if len article_words >? max_enc_steps hps
    then slice_to article_words (max_enc_steps hps)
    else article_words in
  let enc_len := len article_words in
  let enc_input := word2id <$> article_words in
  let abstract := abstract_sentences in
  let abstract_words := abstract_sentences in
  let abs_ids := word2id <$> abstract_words in
  '(dec_input, target) ←
    get_dec_inp_targ_seqs abs_ids (max_dec_steps hps) start_decoding stop_decoding;
  let dec_len := len dec_input in
  '(extend_vocab, oovs, target) ←
    (if pointer_gen hps then
       let '(enc_input_extend_vocab, article_oovs) := article2ids article_words in
       let abs_ids_extend_vocab := abstract2ids abstract_words article_oovs in
       '(_, target) ←
         get_dec_inp_targ_seqs abs_ids_extend_vocab (max_dec_steps hps)
           start_decoding stop_decoding;
       Ok (Some enc_input_extend_vocab, Some article_oovs, target)
     else Ok (None, None, target));
  Ok {| ex_hps := hps;
        enc_len := enc_len;
        enc_input := enc_input;
        dec_input := dec_input;
        target := target;
        dec_len := dec_len;
        enc_input_extend_vocab := extend_vocab;
        article_oovs := oovs;
        original_article := article;
        original_abstract := abstract;
        original_abstract_sents := abstract |}.

(** [while len(l) < max_len: l.append(pad_id)], run for the number of
    elements that are missing. *)
Fixpoint pad_loop (n : nat) (l : list Z) (max_len pad_id : Z) : list Z :=
  match n with
  | O => l
  | S n' => if len l <? max_len then pad_loop n' (l ++ [pad_id]) max_len pad_id else l
  end.

Definition pad (l : list Z) (max_len pad_id : Z) : list Z :=
  pad_loop (Z.to_nat (max_len - len l)) l max_len pad_id.

Definition pad_decoder_inp_targ (self : Example) (max_len pad_id : Z) : Example :=
  let dec_input := pad (dec_input self) max_len pad_id in
  let target := pad (target self) max_len pad_id in
  {| ex_hps := ex_hps self;
     enc_len := enc_len self;
     enc_input := enc_input self;
     dec_input := dec_input;
     target := target;
     dec_len := dec_len self;
     enc_input_extend_vocab := enc_input_extend_vocab self;
     article_oovs := article_oovs self;
     original_article := original_article self;
     original_abstract := original_abstract self;
     original_abstract_sents := original_abstract_sents self |}.

Definition pad_encoder_input (self : Example) (max_len pad_id : Z) : result Example :=
  let enc_input := pad (enc_input self) max_len pad_id in
  extend_vocab ←
    (if pointer_gen (ex_hps self) then
       l ← getattr (enc_input_extend_vocab self);
       Ok (Some (pad l max_len pad_id))
     else Ok (enc_input_extend_vocab self));
  Ok {| ex_hps := ex_hps self;
        enc_len := enc_len self;
        enc_input := enc_input;
        dec_input := dec_input self;
        target := target self;
        dec_len := dec_len self;
        enc_input_extend_vocab := extend_vocab;
        article_oovs := article_oovs self;
        original_article := original_article self;
        original_abstract := original_abstract self;
        original_abstract_sents := original_abstract_sents self |}.

End Example.

Arguments Example word : clear implicits.

(** ** class Batch *)

Section Batch.
Context {word : Type} `{Vocabulary word}.

Record Batch : Type := mkBatch {
  pad_id : Z;
  enc_batch : list (list Z);
  enc_lens : list Z;
  (* the next three attributes are set only when [hps.pointer_gen] *)
  max_art_oovs : option Z;
  art_oovs : option (list (list word));
  enc_batch_extend_vocab : option (list (list Z));
  dec_batch : list (list Z);
  target_batch : list (list Z);
  padding_mask : list (list Z);
  original_articles : list (list word);
  original_abstracts : list (list word);
  original_abstracts_sents : list (list word);
}.

(** [xrange(n)], as array indices. *)
Definition xrange1 (n : Z) : list nat := seq 0 (Z.to_nat n).

(** The pointer-generator part of [init_encoder_seq]: [max_art_oovs],
    [art_oovs] and [enc_batch_extend_vocab]. *)
Definition init_encoder_seq_extend (example_list : list (Example word)) (hps : HParams)
    (max_enc_seq_len : Z)
  : result (Z * list (list word) * list (list Z)) :=
  oov_lens ← mapM (λ ex, oovs ← getattr (article_oovs ex); Ok (len oovs)) example_list;
  max_art_oovs ← py_max oov_lens;
  art_oovs ← mapM (λ ex, getattr (article_oovs ex)) example_list;
  enc_batch_extend_vocab ← np_zeros2 (batch_size hps) max_enc_seq_len;
  enc_batch_extend_vocab ←
    for_enumerate 0 example_list
      (λ i ex enc_batch_extend_vocab,
         v ← getattr (enc_input_extend_vocab ex);
         np_set_row enc_batch_extend_vocab i v)
      enc_batch_extend_vocab;
  Ok (max_art_oovs, art_oovs, enc_batch_extend_vocab).

(** [Batch.init_encoder_seq]: the examples as the padding leaves them,
    [enc_batch], [enc_lens] and, in pointer-generator mode, the three
    attributes above. *)
Definition init_encoder_seq (pad_id : Z) (example_list : list (Example word)) (hps : HParams)
  : result (list (Example word) * list (list Z) * list Z
            * option (Z * list (list word) * list (list Z))) :=
  max_enc_seq_len ← py_max (enc_len <$> example_list);
  example_list ← mapM (λ ex, pad_encoder_input ex max_enc_seq_len pad_id) example_list;
  enc_batch ← np_zeros2 (batch_size hps) max_enc_seq_len;
  enc_lens ← np_zeros1 (batch_size hps);
  '(enc_batch, enc_lens) ←
    for_enumerate 0 example_list
      (λ i ex '(enc_batch, enc_lens),
         enc_batch ← np_set_row enc_batch i (enc_input ex);
         enc_lens ← np_set1 enc_lens i (enc_len ex);
         Ok (enc_batch, enc_lens))
      (enc_batch, enc_lens);
  extend ←
    (if pointer_gen hps
     then e ← init_encoder_seq_extend example_list hps max_enc_seq_len; Ok (Some e)
     else Ok None);
  Ok (example_list, enc_batch, enc_lens, extend).

(** [Batch.init_decoder_seq]: the examples as the padding leaves them,
    [dec_batch], [target_batch] and [padding_mask]. *)
Definition init_decoder_seq (pad_id : Z) (example_list : list (Example word)) (hps : HParams)
  : result (list (Example word) * list (list Z) * list (list Z) * list (list Z)) :=
  let example_list :=
    (λ ex, pad_decoder_inp_targ ex (max_dec_steps hps) pad_id) <$> example_list in
  dec_batch ← np_zeros2 (batch_size hps) (max_dec_steps hps);
  target_batch ← np_zeros2 (batch_size hps) (max_dec_steps hps);
  padding_mask ← np_zeros2 (batch_size hps) (max_dec_steps hps);
  '(dec_batch, target_batch, padding_mask) ←
    for_enumerate 0 example_list
      (λ i ex '(dec_batch, target_batch, padding_mask),
         dec_batch ← np_set_row dec_batch i (dec_input ex);
         target_batch ← np_set_row target_batch i (target ex);
         padding_mask ←
           for_each (xrange1 (dec_len ex))
             (λ j padding_mask, np_set2 padding_mask i j 1) padding_mask;
         Ok (dec_batch, target_batch, padding_mask))
      (dec_batch, target_batch, padding_mask);
  Ok (example_list, dec_batch, target_batch, padding_mask).

(** [Batch.__init__]: the examples of [example_list] are padded in place;
    the result is the list of the padded examples and the new Batch. *)
Definition Batch_init (example_list : list (Example word)) (hps : HParams)
  : result (list (Example word) * Batch) :=
  let pad_id := word2id _PAD in
  '(example_list, enc_batch, enc_lens, extend) ← init_encoder_seq pad_id example_list hps;
  '(example_list, dec_batch, target_batch, padding_mask) ←
    init_decoder_seq pad_id example_list hps;
  Ok (example_list,
      {| pad_id := pad_id;
         enc_batch := enc_batch;
         enc_lens := enc_lens;
         max_art_oovs := (λ e, e.1.1) <$> extend;
         art_oovs := (λ e, e.1.2) <$> extend;
         enc_batch_extend_vocab := (λ e, e.2) <$> extend;
         dec_batch := dec_batch;
         target_batch := target_batch;
         padding_mask := padding_mask;
         (* store_orig_strings *)
         original_articles := original_article <$> example_list;
         original_abstracts := original_abstract <$> example_list;
         original_abstracts_sents := original_abstract_sents <$> example_list |}).

End Batch.

Arguments Batch word : clear implicits.

(** ** class Batcher *)

Section Batcher.
Context {word : Type} `{Vocabulary word}.
Context {RandomState : Type} `{NumpyRandom RandomState}.

Record Batcher : Type := mkBatcher {
  _data_path : string;
  _hps : HParams;
  _single_pass : bool;
  batches : list (Batch word);
}.

(** The state outside the Batcher that [refill] changes: the two open
    files (what is left to read of each), the warnings that [tf.logging]
    has written and the state of numpy's random generator. *)
Record World : Type := mkWorld {
  fdx : string;
  fdy : string;
  warnings : list string;
  random_state : RandomState;
}.

Definition set_batches (self : Batcher) (bs : list (Batch word)) : Batcher :=
  {| _data_path := _data_path self;
     _hps := _hps self;
     _single_pass := _single_pass self;
     batches := bs |}.

(** The variables of the reading loop of [refill]. *)
Record Reading : Type := mkReading {
  linex : string;
  liney : string;
  inputs : list (Example word);
  rd_fdx : string;
  rd_fdy : string;
  rd_warnings : list string;
}.

(** [linex, liney = fdx.readline(), fdy.readline()] *)
Definition read_pair (inputs : list (Example word)) (fdx fdy : string)
    (warnings : list string) : Reading :=
  let '(linex, fdx) := readline fdx in
  let '(liney, fdy) := readline fdy in
  {| linex := linex; liney := liney; inputs := inputs;
     rd_fdx := fdx; rd_fdy := fdy; rd_warnings := warnings |}.

Definition lines_left (s : Reading) : bool := truthy (linex s) && truthy (liney s).

Definition empty_article_warning : string :=
  "Found an example with empty article text. Skipping it.".

(** The body of the reading loop when the mode is not 'decode'. *)
Definition read_body (hps : HParams) (s : Reading) : result (ctl Reading) :=
  let x := remove_nonascii (linex s) in
  let y := remove_nonascii (liney s) in
  if len x =? 0 then
    Ok (Continue (read_pair (inputs s) (rd_fdx s) (rd_fdy s)
                    (rd_warnings s ++ [empty_article_warning])))
  else
    example ← Example_init x y hps;
    let inputs := inputs s ++ [example] in
    if len inputs =? batch_size hps * 16
    then Ok (Break {| linex := linex s; liney := liney s; inputs := inputs;
                      rd_fdx := rd_fdx s; rd_fdy := rd_fdy s;
                      rd_warnings := rd_warnings s |})
    else Ok (Continue (read_pair inputs (rd_fdx s) (rd_fdy s) (rd_warnings s))).

(** The body of the loop of the 'decode' branch, on the list [batch]: the
    lines are not read again. *)
Definition decode_body (hps : HParams) (linex liney : string) (batch : list (Example word))
  : result (ctl (list (Example word))) :=
  let x := remove_nonascii linex in
  let y := remove_nonascii liney in
  example ← Example_init x y hps;
  let batch := batch ++ [example] in
  if len batch =? batch_size hps then Ok (Break batch) else Ok (Continue batch).

(** The reading loop of [refill] when the mode is not 'decode', from the
    first [readline] on.  A round that does not break reads a line of
    [fdx], and a line has a character, so the loop is given one round more
    than [fdx] has characters left. *)
Definition read_inputs (hps : HParams) (w : World) : result Reading :=
  while (S (String.length (fdx w))) lines_left (read_body hps)
    (read_pair [] (fdx w) (fdy w) (warnings w)).

(** [Batcher.refill].  The loop of the 'decode' branch can only end by
    its [break], in round [batch_size]. *)
Definition refill (self : Batcher) (w : World) : result (Batcher * World) :=
  let hps := _hps self in
  if negb (String.eqb (mode hps) "decode") then
    s ← read_inputs hps w;
    let inputs :=
      if negb (_single_pass self) then sorted (inputs s) enc_len else inputs s in
    starts ← xrange (len inputs) (batch_size hps);
    let cur_batches :=
      (λ batch_start, slice inputs batch_start (batch_start + batch_size hps)) <$> starts in
    bs ← for_each cur_batches
            (λ b bs, '(_, batch) ← Batch_init b hps; Ok (bs ++ [batch]))
            (batches self);
    let '(bs, rs) :=
      if negb (_single_pass self) then np_random_shuffle (random_state w) bs
      else (bs, random_state w) in
    Ok (set_batches self bs,
        {| fdx := rd_fdx s; fdy := rd_fdy s;
           warnings := rd_warnings s; random_state := rs |})
  else
    let '(linex, fdx) := readline (fdx w) in
    let '(liney, fdy) := readline (fdy w) in
    batch ← while (Z.to_nat (batch_size hps))
              (λ _, truthy linex && truthy liney) (decode_body hps linex liney) [];
    '(_, b) ← Batch_init batch hps;
    Ok (set_batches self (batches self ++ [b]),
        {| fdx := fdx; fdy := fdy;
           warnings := warnings w; random_state := random_state w |}).

(** The generator object that [pair_iter()] returns: not started yet,
    suspended at its [yield], or finished. *)
Inductive Generator : Type :=
| Created
| Suspended
| Finished.

(** One round of [while True] in [pair_iter]: [None] is the [break]. *)
Definition pair_iter_round (self : Batcher) (w : World)
  : result (option (Batch word) * Batcher * World) :=
  '(self, w) ← (if len (batches self) =? 0 then refill self w else Ok (self, w));
  match batches self with
  | [] => Ok (None, self, w)
  | batch :: rest => Ok (Some batch, set_batches self rest, w)
  end.

(** [next(g)] on the generator of [pair_iter]: the batch that it yields,
    or [None] when it returns (StopIteration).  [fs] is the file system;
    the files are opened when the generator is first resumed. *)
Definition pair_iter_next (fs : string → option string) (g : Generator)
    (self : Batcher) (w : World)
  : result (option (Batch word) * Generator * Batcher * World) :=
  match g with
  | Finished => Ok (None, Finished, self, w)
  | Created =>
      fdx ← open fs (_data_path self +:+ ".x.txt");
      fdy ← open fs (_data_path self +:+ ".y.txt");
      let w := {| fdx := fdx; fdy := fdy;
                  warnings := warnings w; random_state := random_state w |} in
      '(b, self, w) ← pair_iter_round (set_batches self []) w;
      Ok (b, if b is Some _ then Suspended else Finished, self, w)
  | Suspended =>
      '(b, self, w) ← pair_iter_round self w;
      Ok (b, if b is Some _ then Suspended else Finished, self, w)
  end.

(** How an iteration over the generator ends. *)
Inductive Outcome : Set :=
| Returned                 (* the generator is exhausted *)
| Raised (e : exn)         (* an exception leaves the generator *)
| Unfinished.              (* more rounds are needed *)

(** [for batch in batcher.pair_iter(): ...], for at most [fuel] calls of
    [next]: the batches yielded, how the iteration ends, and the state
    that the last completed call leaves. *)
Fixpoint iterate (fuel : nat) (fs : string → option string) (g : Generator)
    (self : Batcher) (w : World)
  : list (Batch word) * Outcome * (Batcher * World) :=
  match fuel with
  | O => ([], Unfinished, (self, w))
  | S fuel' =>
      match pair_iter_next fs g self w with
      | Ok (Some batch, g', self', w') =>
          let '(yielded, out, final) := iterate fuel' fs g' self' w' in
          (batch :: yielded, out, final)
      | Ok (None, _, self', w') => ([], Returned, (self', w'))
      | Raise e => ([], Raised e, (self, w))
      | NoFuel => ([], Unfinished, (self, w))
      end
  end.

Definition pair_iter (fuel : nat) (fs : string → option string) (self : Batcher)
    (w : World) : list (Batch word) * Outcome * (Batcher * World) :=
  iterate fuel fs Created self w.

End Batcher.

Arguments Batcher word : clear implicits.
Arguments World RandomState : clear implicits.
Arguments Reading word : clear implicits.

(** ** TensorFlow ops used by test.py

    A vector is a list.  A matrix carries its shape and its rows.  The
    index tensors have [dtype=tf.int32], which [tf.shape], [tf.size],
    [tf.range] and the indices of [tf.dynamic_stitch] fix: their sums
    and products are int32 values and wrap around. *)

Record Tensor2 (A : Type) : Type := mkTensor2 {
  shape0 : Z;
  shape1 : Z;
  rows : list (list A);
}.

Arguments mkTensor2 {A} _ _ _.
Arguments shape0 {A} _.
Arguments shape1 {A} _.
Arguments rows {A} _.

(** A matrix whose rows agree with its shape. *)
Definition Tensor2_wf {A} (t : Tensor2 A) : Prop :=
  0 <= shape1 t ∧ len (rows t) = shape0 t ∧ Forall (λ r, len r = shape1 t) (rows t).

(** The entry [t[i][j]]. *)
Definition entry {A} (t : Tensor2 A) (i j : Z) : option A :=
  if (i <? 0) || (j <? 0) then None
  else row ← rows t !! Z.to_nat i; row !! Z.to_nat j.

(** [tf.reshape(t, [-1])]: the entries in row-major order. *)
Definition tf_flatten {A} (t : Tensor2 A) : list A := concat (rows t).

(** [tf.reshape(flat, [r, c])] *)
Definition tf_reshape2 {A} (flat : list A) (r c : Z) : result (Tensor2 A) :=
  if (r <? 0) || (c <? 0) || negb (len flat =? r * c) then Raise InvalidArgumentError
  else Ok (mkTensor2 r c
             ((λ i, take (Z.to_nat c) (drop (i * Z.to_nat c) flat)) <$> seq 0 (Z.to_nat r))).

(** [tf.shape(t)]: the two dimensions, as int32 values *)
Definition tf_shape {A} (t : Tensor2 A) : Z * Z := (wrap32 (shape0 t), wrap32 (shape1 t)).

(** [tf.size(flat)]: the number of elements, as an int32 value *)
Definition tf_size {A} (flat : list A) : Z := wrap32 (len flat).

(** [u + v] on int32 vectors, with broadcasting of a vector of one
    element. *)
Definition tf_add (u v : list Z) : result (list Z) :=
  if decide (length u = length v) then Ok (zip_with add32 u v)
  else match u, v with
       | [x], _ => Ok (add32 x <$> v)
       | _, [y] => Ok ((λ x, add32 x y) <$> u)
       | _, _ => Raise InvalidArgumentError
       end.

(** [v * c] on an int32 vector, for a scalar [c] *)
Definition tf_mul_scalar (v : list Z) (c : Z) : list Z := (λ x, mul32 x c) <$> v.

(** [tf.range(n)] *)
Definition tf_range (n : Z) : list Z := seqZ 0 n.

(** [tf.gather(flat, idx)]: an index out of range is refused. *)
Definition tf_gather {A} (flat : list A) (idx : list Z) : result (list A) :=
  mapM (λ i, if i <? 0 then Raise InvalidArgumentError
             else match flat !! Z.to_nat i with
                  | Some x => Ok x
                  | None => Raise InvalidArgumentError
                  end) idx.

(** The writes [merged[i] = x] of a list of pairs [(i, x)], made from left
    to right. *)
Definition apply_writes {A} (merged : list A) (writes : list (Z * A)) : list A :=
  foldl (λ merged w, <[Z.to_nat w.1 := w.2]> merged) merged writes.

(** One more than the largest index written, 0 without any write. *)
Definition stitch_size {A} (writes : list (Z * A)) : Z :=
  foldr (λ w n, Z.max (w.1 + 1) n) 0 writes.

(** [tf.dynamic_stitch(indices, data)]: [merged[indices[m][i]] = data[m][i]],
    the writes being made in the order of [(m, i)], so that of two writes
    to one index the later one stays.  The result has one cell more than
    the largest index; [uninit] is what a cell holds that no index names. *)
Definition tf_dynamic_stitch {A} (uninit : A) (indices : list (list Z)) (data : list (list A))
  : result (list A) :=
  if decide (length <$> indices = length <$> data) then
    let writes := concat (zip_with zip indices data) in
    if forallb (λ w, 0 <=? w.1) writes
    then Ok (apply_writes (replicate (Z.to_nat (stitch_size writes)) uninit) writes)
    else Raise InvalidArgumentError
  else Raise InvalidArgumentError.

(** ** test.py *)

Section ScatterGather.
Context {float32 : Type} (zero uninit : float32).

(** [tf.zeros([r, c], dtype=tf.float32)] *)
Definition tf_zeros (r c : Z) : result (Tensor2 float32) :=
  if (r <? 0) || (c <? 0) then Raise InvalidArgumentError
  else Ok (mkTensor2 r c (replicate (Z.to_nat r) (replicate (Z.to_nat c) zero))).

Definition _scatter_nd (enc_batch : Tensor2 Z) (batch_size : Z) (batch_nums : Tensor2 Z)
    (extended_vsize : Z) (copy_dist : Tensor2 float32) : result (Tensor2 float32) :=
  z ← tf_zeros batch_size extended_vsize;
  let copy_prob := tf_flatten z in
  linear_indices ←
    tf_add (tf_mul_scalar (tf_flatten batch_nums) extended_vsize) (tf_flatten enc_batch);
  let flat_w_copy := tf_flatten copy_dist in
  let unchanged_indices := tf_range (tf_size copy_prob) in
  flat_vocab_prob ←
    tf_dynamic_stitch uninit [unchanged_indices; linear_indices] [copy_prob; flat_w_copy];
  vocab_copy ← tf_reshape2 flat_vocab_prob batch_size extended_vsize;
  Ok vocab_copy.

Definition gather_2d {A} (params : Tensor2 A) (indices1 indices2 : list Z) : result (list A) :=
  let '(shape0, shape1) := tf_shape params in
  let flat := tf_flatten params in
  flat_idx ← tf_add (tf_mul_scalar indices1 shape1) indices2;
  tf_gather flat flat_idx.

End ScatterGather.

(** ** What the constructors establish *)

Section Invariants.
Context {word : Type} `{Vocabulary word}.

(** [data.article2ids] gives one id for each word of the article. *)
Definition article2ids_aligned : Prop :=
  ∀ ws : list word, len (article2ids ws).1 = len ws.

(** The article as [Example.__init__] cuts it. *)
Definition truncated_article (hps : HParams) (article : list word) : list word :=
  if len article >? max_enc_steps hps then slice_to article (max_enc_steps hps) else article.

(** An example as [Example.__init__] leaves it, before any padding. *)
Definition Example_fresh (hps : HParams) (ex : Example word) : Prop :=
  ex_hps ex = hps
  ∧ len (enc_input ex) = enc_len ex
  ∧ len (dec_input ex) = dec_len ex
  ∧ dec_len ex <= max_dec_steps hps
  ∧ len (target ex) <= max_dec_steps hps
  ∧ if pointer_gen hps
    then ∃ ids oovs, enc_input_extend_vocab ex = Some ids ∧ len ids = enc_len ex
                     ∧ article_oovs ex = Some oovs
    else enc_input_extend_vocab ex = None ∧ article_oovs ex = None.

(** The example that [pad_encoder_input] makes of a fresh example. *)
Definition padded_enc (max_enc_seq_len pad_id : Z) (ex : Example word) : Example word :=
  {| ex_hps := ex_hps ex;
     enc_len := enc_len ex;
     enc_input := pad (enc_input ex) max_enc_seq_len pad_id;
     dec_input := dec_input ex;
     target := target ex;
     dec_len := dec_len ex;
     enc_input_extend_vocab :=
       (λ l, pad l max_enc_seq_len pad_id) <$> enc_input_extend_vocab ex;
     article_oovs := article_oovs ex;
     original_article := original_article ex;
     original_abstract := original_abstract ex;
     original_abstract_sents := original_abstract_sents ex |}.

(** The example that the two padding methods make of a fresh example. *)
Definition padded (max_enc_seq_len max_dec_steps pad_id : Z) (ex : Example word)
  : Example word :=
  pad_decoder_inp_targ (padded_enc max_enc_seq_len pad_id ex) max_dec_steps pad_id.

(** The largest element of a list that is not empty. *)
Definition maximum (l : list Z) : Z :=
  match l with
  | [] => 0
  | n :: ns => foldl Z.max n ns
  end.

(** The longest encoder length before padding in a list of examples. *)
Definition max_enc_len (example_list : list (Example word)) : Z :=
  maximum (enc_len <$> example_list).

(** The rows of an array of [batch_size] rows and [width] columns whose
    first rows are [filled] and whose other rows are still zero. *)
Definition stacked (batch_size width : Z) (filled : list (list Z)) : list (list Z) :=
  filled ++ replicate (Z.to_nat batch_size - length filled) (replicate (Z.to_nat width) 0).

(** The row of [padding_mask] of an example: one for each of its
    [dec_len] ids, zero for the padding. *)
Definition mask_row (max_dec_steps : Z) (ex : Example word) : list Z :=
  replicate (Z.to_nat (dec_len ex)) 1
  ++ replicate (Z.to_nat max_dec_steps - Z.to_nat (dec_len ex)) 0.

(** The attributes that only pointer-generator mode sets. *)
Definition oovs_of (ex : Example word) : list word := default [] (article_oovs ex).

Definition extend_vocab_of (ex : Example word) : list Z :=
  default [] (enc_input_extend_vocab ex).

(** The Batch that [Batch.__init__] builds from fresh examples; the
    arrays of ids and of lengths hold the int32 values of what is
    assigned to them. *)
Definition stacked_batch (hps : HParams) (example_list : list (Example word)) : Batch word :=
  let pad_id := word2id _PAD in
  let max_enc_seq_len := max_enc_len example_list in
  let padded_list :=
    padded max_enc_seq_len (max_dec_steps hps) pad_id <$> example_list in
  {| pad_id := pad_id;
     enc_batch :=
       stacked (batch_size hps) max_enc_seq_len
         ((λ ex, astype_int32 (enc_input ex)) <$> padded_list);
     enc_lens :=
       ((λ ex, wrap32 (enc_len ex)) <$> example_list)
       ++ replicate (Z.to_nat (batch_size hps) - length example_list) 0;
     max_art_oovs :=
       if pointer_gen hps
       then Some (maximum ((λ ex, len (oovs_of ex)) <$> example_list)) else None;
     art_oovs := if pointer_gen hps then Some (oovs_of <$> example_list) else None;
     enc_batch_extend_vocab :=
       if pointer_gen hps
       then Some (stacked (batch_size hps) max_enc_seq_len
                    ((λ ex, astype_int32 (extend_vocab_of ex)) <$> padded_list))
       else None;
     dec_batch :=
       stacked (batch_size hps) (max_dec_steps hps)
         ((λ ex, astype_int32 (dec_input ex)) <$> padded_list);
     target_batch :=
       stacked (batch_size hps) (max_dec_steps hps)
         ((λ ex, astype_int32 (target ex)) <$> padded_list);
     padding_mask :=
       stacked (batch_size hps) (max_dec_steps hps)
         (mask_row (max_dec_steps hps) <$> padded_list);
     original_articles := original_article <$> example_list;
     original_abstracts := original_abstract <$> example_list;
     original_abstracts_sents := original_abstract_sents <$> example_list |}.

(** The consecutive groups of [batch_size] elements of a list; the last
    group holds what is left. *)
Definition groups_of {A} (batch_size : Z) (l : list A) : list (list A) :=
  (λ i, take (Z.to_nat batch_size) (drop (i * Z.to_nat batch_size) l))
  <$> seq 0 (Z.to_nat ((len l + batch_size - 1) `div` batch_size)).

(** The pairs of lines that the two files give, up to the end of the
    shorter one. *)
Definition line_pairs (fdx fdy : string) : list (string * string) :=
  zip (readlines fdx) (readlines fdy).

(** A pair of lines with an article that is not empty. *)
Definition has_article (p : string * string) : Prop :=
  len (remove_nonascii p.1) ≠ 0.

#[global] Instance has_article_dec (p : string * string) : Decision (has_article p).
Proof. unfold has_article. apply _. Defined.

(** The example that the constructor makes of a pair of lines. *)
Definition example_of (hps : HParams) (p : string * string) (ex : Example word) : Prop :=
  Example_init (remove_nonascii p.1) (remove_nonascii p.2) hps = Ok ex.

(** The pairs of lines that the reading loop has still to see: the pair
    it holds and the pairs left in the files. *)
Definition pending (s : Reading word) : list (string * string) :=
  if lines_left s
  then (linex s, liney s) :: line_pairs (rd_fdx s) (rd_fdy s)
  else [].

(** The reading loop has seen the first [n] of the pairs of lines [ps]
    and has come to the state [s]: the examples read are those of the
    pairs with an article, in the order of the file; a warning was logged
    for every other pair; the files are left before the pairs not yet
    seen; and the loop has stopped on its limit of [batch_size * 16]
    examples or at the end of the pairs. *)
Definition has_read (hps : HParams) (ps : list (string * string))
    (warnings0 : list string) (n : nat) (s : Reading word) : Prop :=
  (n <= length ps)%nat
  ∧ Forall2 (example_of hps) (filter has_article (take n ps)) (inputs s)
  ∧ rd_warnings s
    = warnings0
      ++ replicate (length (filter (λ p, ¬ has_article p) (take n ps)))
           empty_article_warning
  ∧ line_pairs (rd_fdx s) (rd_fdy s) = drop n ps
  ∧ (len (inputs s) = batch_size hps * 16 ∨ n = length ps).

(** The articles of the pairs of lines that have one, in the order of the
    pairs. *)
Definition articles_of (ps : list (string * string)) : list (list word) :=
  (λ p, remove_nonascii p.1) <$> filter has_article ps.

(** The articles of the examples of a list of batches, in the order of the
    batches. *)
Definition batched_articles (bs : list (Batch word)) : list (list word) :=
  concat (original_articles <$> bs).

(** A matrix of [r] rows of [c] columns each. *)
Definition rectangular (r c : Z) (a : list (list Z)) : Prop :=
  len a = r ∧ Forall (λ row, len row = c) a.

(** A Batch whose arrays have [batch_size] rows, the decoder arrays with
    [max_dec_steps] columns and the encoder array with the columns of its
    longest example, and which holds at least one example and at most
    [batch_size]. *)
Definition full_batch (hps : HParams) (b : Batch word) : Prop :=
  (∃ width, rectangular (batch_size hps) width (enc_batch b))
  ∧ len (enc_lens b) = batch_size hps
  ∧ rectangular (batch_size hps) (max_dec_steps hps) (dec_batch b)
  ∧ rectangular (batch_size hps) (max_dec_steps hps) (target_batch b)
  ∧ rectangular (batch_size hps) (max_dec_steps hps) (padding_mask b)
  ∧ 1 <= len (original_articles b) <= batch_size hps.

End Invariants.

(** ** A character-level vocabulary and a generator, to run the code

    The words are one-character strings and the three special tokens.
    [remove_nonascii] deletes the bytes above 127 and splits what is left
    into characters; no character is out of vocabulary, so
    [article2ids] adds no article OOV. *)

Module Char.

Definition char_id (w : string) : Z :=
  if String.eqb w "<pad>" then 0
  else if String.eqb w "<sos>" then 1
  else if String.eqb w "<eos>" then 2
  else match w with
       | String c EmptyString => 4 + Z.of_nat (nat_of_ascii c)
       | _ => 3
       end.

Fixpoint ascii_chars (s : string) : list string :=
  match s with
  | EmptyString => []
  | String c rest =>
      if (nat_of_ascii c <? 128)%nat
      then String c EmptyString :: ascii_chars rest
      else ascii_chars rest
  end.

#[global] Instance vocabulary : Vocabulary string := {|
  word2id := char_id;
  _SOS := "<sos>";
  _EOS := "<eos>";
  _PAD := "<pad>";
  article2ids := λ ws, (char_id <$> ws, []);
  abstract2ids := λ ws _, char_id <$> ws;
  remove_nonascii := ascii_chars;
|}.

(** A generator whose shuffle reverses the list and counts the calls. *)
#[global] Instance reversing : NumpyRandom nat := {|
  np_random_shuffle := λ A g l, (reverse l, S g);
|}.

(** A file system with the two files of the data path "d". *)
Definition two_files (x y : string) (path : string) : option string :=
  if String.eqb path "d.x.txt" then Some x
  else if String.eqb path "d.y.txt" then Some y
  else None.

Definition hps (mode : string) (batch_size : Z) : HParams :=
  {| mode := mode; batch_size := batch_size;
     max_enc_steps := 4; max_dec_steps := 3; pointer_gen := true |}.

Definition batcher (mode : string) (batch_size : Z) (single_pass : bool) : Batcher string :=
  {| _data_path := "d"; _hps := hps mode batch_size;
     _single_pass := single_pass; batches := [] |}.

Definition world : World nat :=
  {| fdx := ""; fdy := ""; warnings := []; random_state := O |}.

(** Two article/abstract pairs. *)
Definition two_pairs : list (list string * list string) :=
  [(["a"; "b"], ["x"]); (["c"], ["y"; "z"])].

(** The line feed, and the content of a file from its lines. *)
Definition nl : string := String "010"%char EmptyString.

Definition file (lines : list string) : string :=
  foldr (λ line rest, line +:+ nl +:+ rest) EmptyString lines.

(** An article longer than [max_enc_steps = 4] and a short one. *)
Definition long_and_short : list (list string * list string) :=
  [(["a"; "b"; "c"; "d"; "e"], ["x"]); (["f"], ["y"; "z"])].

(** Three articles, of 3, 2 and 1 characters, and their abstracts. *)
Definition articles : string := file ["abc"; "de"; "f"].
Definition abstracts : string := file ["x"; "yz"; "w"].

(** A Batcher in the middle of its iteration over the two files. *)
Definition reading (x y : string) : World nat :=
  {| fdx := x; fdy := y; warnings := []; random_state := O |}.

(** A file whose only line is one byte above 127, without a line feed:
    [remove_nonascii] makes the empty article of it. *)
Definition latin1_line : string := String (ascii_of_nat 233) EmptyString.

End Char.

(** ** A vocabulary with unknown words

    The letters "a", "b" and "c" and the special tokens are in the
    vocabulary, whose size is 7; every other word has the id of the
    unknown token.  [article2ids] numbers the unknown words of an
    article from the size of the vocabulary on, in the order in which
    they first occur, and returns them with the ids; [abstract2ids]
    gives these numbers to the words of the abstract that are among
    them, and the id of the unknown token to the other unknown words. *)

Module Oov.

Definition size : Z := 7.
Definition unk_id : Z := 3.

Definition oov_word2id (w : string) : Z :=
  if String.eqb w "<pad>" then 0
  else if String.eqb w "<sos>" then 1
  else if String.eqb w "<eos>" then 2
  else if String.eqb w "a" then 4
  else if String.eqb w "b" then 5
  else if String.eqb w "c" then 6
  else unk_id.

Definition member (w : string) (l : list string) : bool :=
  existsb (String.eqb w) l.

Fixpoint index (w : string) (l : list string) : Z :=
  match l with
  | [] => 0
  | x :: rest => if String.eqb x w then 0 else 1 + index w rest
  end.

Fixpoint ids_from (oovs : list string) (ws : list string) : list Z * list string :=
  match ws with
  | [] => ([], oovs)
  | w :: rest =>
      if oov_word2id w =? unk_id then
        let oovs' := if member w oovs then oovs else oovs ++ [w] in
        let '(ids, all) := ids_from oovs' rest in
        (size + index w oovs' :: ids, all)
      else
        let '(ids, all) := ids_from oovs rest in
        (oov_word2id w :: ids, all)
  end.

Definition oov_abstract2ids (ws : list string) (article_oovs : list string) : list Z :=
  (λ w, if oov_word2id w =? unk_id
        then if member w article_oovs then size + index w article_oovs else unk_id
        else oov_word2id w) <$> ws.

Definition vocabulary : Vocabulary string := {|
  word2id := oov_word2id;
  _SOS := "<sos>";
  _EOS := "<eos>";
  _PAD := "<pad>";
  article2ids := ids_from [];
  abstract2ids := oov_abstract2ids;
  remove_nonascii := Char.ascii_chars;
|}.

(** Two articles with unknown words; the first one is cut behind "y". *)
Definition pairs : list (list string * list string) :=
  [(["a"; "x"; "b"; "y"; "x"], ["x"; "q"]); (["z"], ["a"])].

End Oov.

(** * Proofs *)

(** ** Python built-ins *)

Lemma len_nonneg {A} (l : list A) : 0 <= len l.
Proof. unfold len. lia. Qed.

Lemma len_nil {A} : len (@nil A) = 0.
Proof. reflexivity. Qed.

Lemma len_cons {A} (x : A) l : len (x :: l) = 1 + len l.
Proof. unfold len. simpl. lia. Qed.

Lemma len_app {A} (l k : list A) : len (l ++ k) = len l + len k.
Proof. unfold len. rewrite length_app. lia. Qed.

Lemma len_fmap {A B} (f : A → B) l : len (f <$> l) = len l.
Proof. unfold len. by rewrite length_fmap. Qed.

Lemma len_replicate {A} n (x : A) : len (replicate n x) = Z.of_nat n.
Proof. unfold len. by rewrite length_replicate. Qed.

Create Rewrite HintDb len.

#[global] Hint Rewrite @len_nil @len_cons @len_app @len_fmap @len_replicate : len.

Lemma len_slice_to {A} (l : list A) n :
  0 <= n → len (slice_to l n) = Z.min n (len l).
Proof.
  intros Hn. unfold slice_to.
  destruct (Z.ltb_spec n 0) as [?|_]; [lia|].
  unfold len. rewrite length_take. lia.
Qed.

Lemma slice_to_cons {A} (x : A) l n :
  1 <= n → slice_to (x :: l) n = x :: slice_to l (n - 1).
Proof.
  intros Hn. unfold slice_to.
  destruct (Z.ltb_spec n 0) as [?|_]; [lia|].
  destruct (Z.ltb_spec (n - 1) 0) as [?|_]; [lia|].
  replace (Z.to_nat n) with (S (Z.to_nat (n - 1))) by lia.
  reflexivity.
Qed.

Lemma last_slice_to {A} (l : list A) n :
  1 <= n <= len l → last (slice_to l n) = l !! Z.to_nat (n - 1).
Proof.
  intros [Hn Hl]. unfold slice_to.
  destruct (Z.ltb_spec n 0) as [?|_]; [lia|].
  unfold len in Hl.
  rewrite last_lookup, length_take.
  replace (Nat.pred (Z.to_nat n `min` length l)) with (Z.to_nat (n - 1)) by lia.
  apply lookup_take_lt. lia.
Qed.

(** ** Example.get_dec_inp_targ_seqs *)

(** With a bound that is not negative the assertion holds: the call
    returns two lists of one length, which is at most [max_len] and at
    most one more than the length of the sequence. *)
Lemma get_dec_inp_targ_seqs_Ok (sequence : list Z) (max_len start_id stop_id : Z) :
  0 <= max_len →
  ∃ inp target,
    get_dec_inp_targ_seqs sequence max_len start_id stop_id = Ok (inp, target)
    ∧ len target = len inp
    ∧ len inp = Z.min max_len (1 + len sequence).
Proof.
  intros Hmax. unfold get_dec_inp_targ_seqs.
  pose proof (len_nonneg sequence) as Hseq.
  rewrite len_cons.
  destruct (Z.gtb_spec (1 + len sequence) max_len) as [Htr|Hno].
  - rewrite !len_slice_to, len_cons by lia.
    replace (Z.min max_len (1 + len sequence) =? Z.min max_len (len sequence))
      with true by (symmetry; apply Z.eqb_eq; lia).
    eexists _, _. split; [reflexivity|].
    rewrite !len_slice_to, len_cons by lia. lia.
  - autorewrite with len.
    replace (1 + len sequence =? len sequence + (1 + 0)) with true
      by (symmetry; apply Z.eqb_eq; lia).
    eexists _, _. split; [reflexivity|].
    autorewrite with len. lia.
Qed.

(** C1, as the code has it: with [max_len >= 1] the call returns, the
    decoder input starts with [start_id] and is no longer than [max_len],
    and the target is as long as the input.  Without truncation
    ([1 + len sequence <= max_len]) the input is the whole sequence behind
    [start_id] and the target is the sequence followed by [stop_id].  With
    truncation no [stop_id] is appended: the target is the first [max_len]
    ids of the sequence, so it ends with [stop_id] exactly when the id at
    position [max_len - 1] of the sequence is [stop_id]. *)
Theorem get_dec_inp_targ_seqs_spec (sequence : list Z) (max_len start_id stop_id : Z) :
  1 <= max_len →
  ∃ inp target,
    get_dec_inp_targ_seqs sequence max_len start_id stop_id = Ok (inp, target)
    ∧ head inp = Some start_id
    ∧ len inp <= max_len
    ∧ len target = len inp
    ∧ (1 + len sequence <= max_len →
         inp = start_id :: sequence
         ∧ target = sequence ++ [stop_id]
         ∧ last target = Some stop_id)
    ∧ (max_len < 1 + len sequence →
         inp = slice_to (start_id :: sequence) max_len
         ∧ target = slice_to sequence max_len
         ∧ (last target = Some stop_id
            ↔ sequence !! Z.to_nat (max_len - 1) = Some stop_id)).
Proof.
  intros Hmax.
  destruct (get_dec_inp_targ_seqs_Ok sequence max_len start_id stop_id)
    as (inp & target & Hcall & Htarget & Hinp); [lia|].
  exists inp, target. split; [exact Hcall|].
  pose proof (len_nonneg sequence) as Hseq.
  unfold get_dec_inp_targ_seqs in Hcall. rewrite len_cons in Hcall.
  destruct (Z.gtb_spec (1 + len sequence) max_len) as [Htr|Hno];
    destruct (_ =? _) in Hcall; simplify_eq.
  - repeat split; try done; try lia.
    + rewrite slice_to_cons by lia. done.
    + rewrite last_slice_to by lia. done.
    + rewrite last_slice_to by lia. done.
  - repeat split; try done; try lia. apply last_snoc.
Qed.

(** At [max_len = 3] the sequence [5; 6] is kept whole and closed by the
    stop id [9]. *)
Lemma get_dec_inp_targ_seqs_spec_witness :
  1 <= 3 ∧
  ∃ inp target,
    get_dec_inp_targ_seqs [5; 6] 3 1 9 = Ok (inp, target)
    ∧ head inp = Some 1
    ∧ len inp <= 3
    ∧ len target = len inp
    ∧ (1 + len [5; 6] <= 3 →
         inp = [1; 5; 6] ∧ target = [5; 6] ++ [9] ∧ last target = Some 9)
    ∧ (3 < 1 + len [5; 6] →
         inp = slice_to [1; 5; 6] 3
         ∧ target = slice_to [5; 6] 3
         ∧ (last target = Some 9 ↔ [5; 6] !! Z.to_nat (3 - 1) = Some 9)).
Proof. split; [lia | apply (get_dec_inp_targ_seqs_spec [5; 6] 3 1 9); lia]. Defined.

(** C1 as it is worded fails: the sequence [7; 8] is truncated at
    [max_len = 1], and the target [7] still ends with the stop id 7. *)
Lemma get_dec_inp_targ_seqs_stop_iff_counterexample :
  ¬ (∀ (sequence : list Z) (max_len start_id stop_id : Z),
       1 <= max_len →
       ∃ inp target,
         get_dec_inp_targ_seqs sequence max_len start_id stop_id = Ok (inp, target)
         ∧ head inp = Some start_id
         ∧ len inp <= max_len
         ∧ len target = len inp
         ∧ (last target = Some stop_id ↔ 1 + len sequence <= max_len)).
Proof.
  intros Hclaim.
  destruct (Hclaim [7; 8] 1 0 7) as (inp & target & Hcall & _ & _ & _ & Hiff); [lia|].
  vm_compute in Hcall. simplify_eq.
  destruct Hiff as [Hstop _]. specialize (Hstop eq_refl). vm_compute in Hstop.
  by apply Hstop.
Qed.

(** ** Padding *)

Lemma pad_loop_eq (n : nat) (l : list Z) (max_len pad_id : Z) :
  n = Z.to_nat (max_len - len l) →
  pad_loop n l max_len pad_id = l ++ replicate n pad_id.
Proof.
  revert l. induction n as [|n IH]; intros l Hn; simpl.
  - by rewrite app_nil_r.
  - destruct (Z.ltb_spec (len l) max_len) as [_|?]; [|lia].
    rewrite IH by (autorewrite with len; lia).
    by rewrite <- app_assoc.
Qed.

Lemma pad_eq (l : list Z) (max_len pad_id : Z) :
  pad l max_len pad_id = l ++ replicate (Z.to_nat (max_len - len l)) pad_id.
Proof. by apply pad_loop_eq. Qed.

Lemma len_pad (l : list Z) (max_len pad_id : Z) :
  len (pad l max_len pad_id) = Z.max (len l) max_len.
Proof. rewrite pad_eq. autorewrite with len. pose proof (len_nonneg l). lia. Qed.

(** The loop has stopped because its condition is false. *)
Lemma pad_exit (l : list Z) (max_len pad_id : Z) :
  (len (pad l max_len pad_id) <? max_len) = false.
Proof. rewrite len_pad. apply Z.ltb_ge. lia. Qed.

Lemma pad_full (l : list Z) (max_len pad_id : Z) :
  max_len <= len l → pad l max_len pad_id = l.
Proof.
  intros Hl. rewrite pad_eq.
  replace (Z.to_nat (max_len - len l)) with O by lia. apply app_nil_r.
Qed.

(** ** Example.__init__ *)

Section ExampleFacts.
Context {word : Type} `{Vocabulary word}.

Lemma len_truncated_article (hps : HParams) (article : list word) :
  0 <= max_enc_steps hps →
  len (truncated_article hps article) = Z.min (len article) (max_enc_steps hps).
Proof.
  intros Hmax. unfold truncated_article.
  destruct (Z.gtb_spec (len article) (max_enc_steps hps)).
  - rewrite len_slice_to by done. lia.
  - lia.
Qed.

(** The constructor returns whenever [max_dec_steps] is not negative, and
    the example it returns is fresh. *)
Lemma Example_init_Ok (article abstract : list word) (hps : HParams) :
  0 <= max_dec_steps hps →
  (pointer_gen hps = true → article2ids_aligned) →
  ∃ ex, Example_init article abstract hps = Ok ex
        ∧ Example_fresh hps ex
        ∧ enc_len ex = len (truncated_article hps article)
        ∧ enc_input ex = word2id <$> truncated_article hps article
        ∧ original_article ex = article
        ∧ original_abstract ex = abstract.
Proof.
  intros Hdec Hids. unfold Example_init.
  fold (truncated_article hps article).
  destruct (get_dec_inp_targ_seqs_Ok (word2id <$> abstract) (max_dec_steps hps)
              (word2id _SOS) (word2id _EOS) Hdec)
    as (inp & tgt & -> & Htgt & Hinp).
  simpl. unfold Example_fresh.
  destruct (pointer_gen hps) eqn:Hpg.
  - destruct (article2ids (truncated_article hps article)) as [ids oovs] eqn:Hart.
    destruct (get_dec_inp_targ_seqs_Ok (abstract2ids abstract oovs) (max_dec_steps hps)
                (word2id _SOS) (word2id _EOS) Hdec)
      as (inp' & tgt' & -> & Htgt' & Hinp').
    simpl. eexists. split; [reflexivity|]. simpl.
    rewrite len_fmap.
    repeat split; try done; try lia.
    exists ids, oovs. repeat split.
    specialize (Hids eq_refl (truncated_article hps article)).
    by rewrite Hart in Hids.
  - simpl. eexists. split; [reflexivity|]. simpl.
    rewrite len_fmap.
    repeat split; try done; lia.
Qed.

End ExampleFacts.

(** ** Loops *)

Lemma bind_Ok {A B} (a : A) (f : A → result B) : (Ok a ≫= f) = f a.
Proof. reflexivity. Qed.

Lemma bind_ret {A} (m : result A) : (m ≫= λ a, Ok a) = m.
Proof. by destruct m. Qed.

(** Go past a call that has returned. *)
Ltac returned := rewrite bind_Ok; cbv beta iota.

Lemma mapM_Ok {A B} (f : A → result B) (g : A → B) (l : list A) :
  Forall (λ x, f x = Ok (g x)) l → mapM f l = Ok (g <$> l).
Proof.
  induction 1 as [|x l Hx _ IH]; [done|].
  simpl. rewrite Hx. simpl. by rewrite IH.
Qed.

Lemma for_each_app {A St} (l k : list A) (body : A → St → result St) (s : St) :
  for_each (l ++ k) body s = (s' ← for_each l body s; for_each k body s').
Proof.
  revert s. induction l as [|x l IH]; intros s; simpl; [done|].
  destruct (body x s); simpl; auto.
Qed.

(** A loop over [enumerate(l)] whose body keeps an invariant [P] of the
    index and the loop's variables runs to its end. *)
Lemma for_enumerate_inv {A St} (P : nat → St → Prop) (body : nat → A → St → result St)
    (l : list A) (i : nat) (s : St) :
  P i s →
  (∀ k x s, l !! k = Some x → P (i + k)%nat s →
            ∃ s', body (i + k)%nat x s = Ok s' ∧ P (S (i + k)) s') →
  ∃ s', for_enumerate i l body s = Ok s' ∧ P (i + length l)%nat s'.
Proof.
  revert i s. induction l as [|x l IH]; intros i s Hs Hbody; simpl.
  - exists s. by rewrite Nat.add_0_r.
  - destruct (Hbody O x s) as (s1 & Hx & Hs1); [done|by rewrite Nat.add_0_r|].
    rewrite Nat.add_0_r in Hx, Hs1. rewrite Hx. simpl.
    destruct (IH (S i) s1 Hs1) as (s' & Hrun & Hs').
    + intros k y s2 Hy Hs2.
      replace (S i + k)%nat with (i + S k)%nat by lia.
      apply Hbody; [done|]. by replace (i + S k)%nat with (S i + k)%nat by lia.
    + exists s'. split; [done|].
      by replace (i + S (length l))%nat with (S i + length l)%nat by lia.
Qed.

(** Run a loop over [enumerate] by its invariant [P]. *)
Ltac loop_inv P :=
  match goal with
  | |- for_enumerate ?i ?l ?body ?s = _ =>
      let s' := fresh "s'" in
      let Hrun := fresh "Hrun" in
      let Hs' := fresh "Hs'" in
      destruct (for_enumerate_inv P body l i s) as (s' & Hrun & Hs');
      [ | | rewrite Hrun, Hs' ]
  end.

(** ** 32-bit integers *)

Lemma wrap32_is_int32 (z : Z) : is_int32 (wrap32 z).
Proof.
  unfold is_int32, wrap32.
  pose proof (Z.mod_pos_bound (z + 2 ^ 31) (2 ^ 32) ltac:(lia)). lia.
Qed.

(** An integer in the range of int32 is kept as it is. *)
Lemma wrap32_id (z : Z) : is_int32 z → wrap32 z = z.
Proof.
  unfold is_int32, wrap32. intros Hz. rewrite Z.mod_small by lia. lia.
Qed.

(** [wrap32] keeps the value modulo 2^32. *)
Lemma wrap32_mod (z : Z) : wrap32 z `mod` 2 ^ 32 = z `mod` 2 ^ 32.
Proof.
  unfold wrap32.
  rewrite <- (Z.mod_add ((z + 2 ^ 31) `mod` 2 ^ 32 - 2 ^ 31) 1 (2 ^ 32)) by lia.
  replace ((z + 2 ^ 31) `mod` 2 ^ 32 - 2 ^ 31 + 1 * 2 ^ 32)
    with ((z + 2 ^ 31) `mod` 2 ^ 32 + 2 ^ 31) by lia.
  rewrite Zplus_mod_idemp_l.
  replace (z + 2 ^ 31 + 2 ^ 31) with (z + 1 * 2 ^ 32) by lia.
  by rewrite Z.mod_add by lia.
Qed.

Lemma wrap32_eq_mod (a b : Z) : a `mod` 2 ^ 32 = b `mod` 2 ^ 32 → wrap32 a = wrap32 b.
Proof.
  intros Hab. unfold wrap32.
  rewrite <- (Zplus_mod_idemp_l a), <- (Zplus_mod_idemp_l b). by rewrite Hab.
Qed.

Lemma wrap32_add_l (a b : Z) : wrap32 (wrap32 a + b) = wrap32 (a + b).
Proof.
  apply wrap32_eq_mod.
  by rewrite <- Zplus_mod_idemp_l, wrap32_mod, Zplus_mod_idemp_l.
Qed.

Lemma wrap32_mul_r (a b : Z) : wrap32 (a * wrap32 b) = wrap32 (a * b).
Proof.
  apply wrap32_eq_mod.
  by rewrite <- Zmult_mod_idemp_r, wrap32_mod, Zmult_mod_idemp_r.
Qed.

Lemma length_astype_int32 (v : list Z) : length (astype_int32 v) = length v.
Proof. apply length_fmap. Qed.

Lemma len_astype_int32 (v : list Z) : len (astype_int32 v) = len v.
Proof. unfold len. by rewrite length_astype_int32. Qed.

Lemma astype_int32_id (v : list Z) : Forall is_int32 v → astype_int32 v = v.
Proof.
  intros Hv. unfold astype_int32. induction Hv as [|x v Hx _ IH]; [done|].
  cbn. by rewrite wrap32_id, IH.
Qed.

(** ** numpy arrays being filled row after row *)

Lemma np_zeros2_stacked (r c : Z) :
  0 <= r → 0 <= c → np_zeros2 r c = Ok (stacked r c []).
Proof.
  intros Hr Hc. unfold np_zeros2, stacked.
  destruct (Z.ltb_spec r 0); [lia|]. destruct (Z.ltb_spec c 0); [lia|].
  simpl. by rewrite Nat.sub_0_r.
Qed.

Lemma np_zeros1_stacked (n : Z) :
  0 <= n → np_zeros1 n = Ok ([] ++ replicate (Z.to_nat n - 0) 0).
Proof.
  intros Hn. unfold np_zeros1.
  destruct (Z.ltb_spec n 0); [lia|]. simpl. by rewrite Nat.sub_0_r.
Qed.

Lemma insert_next_row {A} (filled : list A) (n : nat) (z v : A) :
  (length filled < n)%nat →
  <[length filled := v]> (filled ++ replicate (n - length filled) z)
  = (filled ++ [v]) ++ replicate (n - length (filled ++ [v])) z.
Proof.
  intros Hlt. rewrite length_app. simpl.
  replace (n - length filled)%nat with (S (n - (length filled + 1))) by lia.
  rewrite insert_app_r_alt, Nat.sub_diag by lia. simpl.
  by rewrite <- app_assoc.
Qed.

Lemma lookup_next_row {A} (filled : list A) (n : nat) (z : A) :
  (length filled < n)%nat →
  (filled ++ replicate (n - length filled) z) !! length filled = Some z.
Proof.
  intros Hlt. rewrite lookup_app_r, Nat.sub_diag by lia.
  apply lookup_replicate_2. lia.
Qed.

Lemma np_set_row_stacked (batch_size width : Z) (filled : list (list Z)) (i : nat)
    (v : list Z) :
  length filled = i →
  (i < Z.to_nat batch_size)%nat →
  length v = Z.to_nat width →
  np_set_row (stacked batch_size width filled) i v
  = Ok (stacked batch_size width (filled ++ [astype_int32 v])).
Proof.
  intros <- Hlt Hv. unfold np_set_row, stacked.
  rewrite lookup_next_row by done.
  rewrite length_replicate, decide_True by done.
  by rewrite insert_next_row.
Qed.

Lemma np_set1_stacked (n : nat) (filled : list Z) (i : nat) (x : Z) :
  length filled = i →
  (i < n)%nat →
  np_set1 (filled ++ replicate (n - length filled) 0) i x
  = Ok ((filled ++ [wrap32 x]) ++ replicate (n - length (filled ++ [wrap32 x])) 0).
Proof.
  intros <- Hlt. unfold np_set1, np_put.
  rewrite lookup_next_row by done. by rewrite insert_next_row.
Qed.

Lemma np_put_next_one (width d : nat) :
  (d < width)%nat →
  np_put (replicate d 1 ++ replicate (width - d) 0) d 1
  = Ok (replicate (S d) 1 ++ replicate (width - S d) 0).
Proof.
  intros Hd. unfold np_put.
  replace (width - d)%nat with (S (width - S d)) by lia.
  rewrite lookup_app_r by (rewrite length_replicate; lia).
  rewrite insert_app_r_alt by (rewrite length_replicate; lia).
  rewrite length_replicate, Nat.sub_diag, (replicate_S_end d), <- app_assoc.
  reflexivity.
Qed.

(** The inner loop of [init_decoder_seq] turns the first [d] cells of
    row [i] of the mask into ones. *)
Lemma padding_mask_row (a : list (list Z)) (i : nat) (width d : nat) :
  a !! i = Some (replicate width 0) →
  (d <= width)%nat →
  for_each (seq 0 d) (λ j padding_mask, np_set2 padding_mask i j 1) a
  = Ok (<[i := replicate d 1 ++ replicate (width - d) 0]> a).
Proof.
  intros Hrow. induction d as [|d IH]; intros Hd.
  - simpl. rewrite Nat.sub_0_r. by rewrite list_insert_id.
  - rewrite seq_S, for_each_app, IH by lia. simpl.
    pose proof (lookup_lt_Some _ _ _ Hrow) as Hi.
    unfold np_set2. rewrite list_lookup_insert_eq by done.
    rewrite np_put_next_one by lia. simpl.
    by rewrite list_insert_insert_eq.
Qed.

(** ** max() *)

Lemma foldl_max_le (l : list Z) (a : Z) : a <= foldl Z.max a l.
Proof.
  revert a. induction l as [|x l IH]; intros a; simpl; [lia|].
  specialize (IH (Z.max a x)). lia.
Qed.

Lemma foldl_max_ge (l : list Z) (a x : Z) : x ∈ l → x <= foldl Z.max a l.
Proof.
  revert a. induction l as [|y l IH]; intros a Hx; simpl.
  - by apply elem_of_nil in Hx.
  - apply elem_of_cons in Hx as [->|Hx]; [|by apply IH].
    pose proof (foldl_max_le l (Z.max a y)). lia.
Qed.

Lemma foldl_max_elem (l : list Z) (a : Z) : foldl Z.max a l ∈ a :: l.
Proof.
  revert a. induction l as [|y l IH]; intros a; simpl.
  - apply list_elem_of_here.
  - specialize (IH (Z.max a y)).
    apply elem_of_cons in IH as [Heq|Hin].
    + rewrite Heq. destruct (Z.max_spec a y) as [[_ ->]|[_ ->]].
      * apply list_elem_of_further, list_elem_of_here.
      * apply list_elem_of_here.
    + by do 2 apply list_elem_of_further.
Qed.

Lemma py_max_maximum (l : list Z) : l ≠ [] → py_max l = Ok (maximum l).
Proof. by destruct l. Qed.

Lemma maximum_ge (l : list Z) (x : Z) : x ∈ l → x <= maximum l.
Proof.
  destruct l as [|a l]; intros Hx; simpl.
  - by apply elem_of_nil in Hx.
  - apply elem_of_cons in Hx as [->|Hx].
    + apply foldl_max_le.
    + by apply foldl_max_ge.
Qed.

Lemma maximum_elem (l : list Z) : l ≠ [] → maximum l ∈ l.
Proof. destruct l as [|a l]; [done|]. intros _. apply foldl_max_elem. Qed.

Lemma maximum_replicate (k : nat) (x : Z) :
  (0 < k)%nat → maximum (replicate k x) = x.
Proof.
  intros Hk. pose proof (maximum_elem (replicate k x)) as Hin.
  assert (Hne : replicate k x ≠ []) by (destruct k; [lia|done]).
  by apply Hin, elem_of_replicate in Hne as [-> _].
Qed.

(** ** Batch.__init__ on fresh examples *)

Section BatchFacts.
Context {word : Type} `{Vocabulary word}.
Implicit Types (ex : Example word) (hps : HParams).

Lemma max_enc_len_ge (example_list : list (Example word)) ex :
  ex ∈ example_list → enc_len ex <= max_enc_len example_list.
Proof. intros Hex. apply maximum_ge. by apply list_elem_of_fmap_2. Qed.

Lemma max_enc_len_nonneg hps (example_list : list (Example word)) :
  Forall (Example_fresh hps) example_list → 0 <= max_enc_len example_list.
Proof.
  intros Hfresh. destruct example_list as [|ex l]; [done|].
  apply Forall_cons in Hfresh as [(_ & Hlen & _) _].
  pose proof (max_enc_len_ge (ex :: l) ex (list_elem_of_here _ _)).
  pose proof (len_nonneg (enc_input ex)). lia.
Qed.

Lemma pad_encoder_input_fresh hps ex (max_len pad_id : Z) :
  Example_fresh hps ex →
  pad_encoder_input ex max_len pad_id = Ok (padded_enc max_len pad_id ex).
Proof.
  intros (Hhps & _ & _ & _ & _ & Hpg). unfold pad_encoder_input, padded_enc.
  rewrite Hhps. destruct (pointer_gen hps).
  - destruct Hpg as (ids & oovs & -> & _ & _). reflexivity.
  - destruct Hpg as [-> _]. reflexivity.
Qed.

(** What the padding of the encoder input leaves of a fresh example. *)
Lemma padded_enc_fresh hps ex (max_len pad_id : Z) :
  Example_fresh hps ex →
  enc_len ex <= max_len →
  len (enc_input (padded_enc max_len pad_id ex)) = max_len
  ∧ (pointer_gen hps = true →
       len (extend_vocab_of (padded_enc max_len pad_id ex)) = max_len
       ∧ enc_input_extend_vocab (padded_enc max_len pad_id ex)
         = Some (extend_vocab_of (padded_enc max_len pad_id ex))
       ∧ article_oovs (padded_enc max_len pad_id ex) = Some (oovs_of ex)).
Proof.
  intros (_ & Henc & _ & _ & _ & Hpg) Hmax. simpl. split.
  - rewrite len_pad. lia.
  - intros Htrue. rewrite Htrue in Hpg.
    destruct Hpg as (ids & oovs & Hids & Hlen & Hoovs).
    unfold extend_vocab_of, oovs_of. simpl. rewrite Hids, Hoovs. simpl.
    rewrite len_pad. repeat split. lia.
Qed.

Lemma take_lookup_snoc {A} (l : list A) (k : nat) (x : A) :
  l !! k = Some x → take (S k) l = take k l ++ [x] ∧ length (take k l) = k.
Proof.
  intros Hx. split; [by apply take_S_r|].
  rewrite length_take. apply lookup_lt_Some in Hx. lia.
Qed.

End BatchFacts.

Section BatchInit.
Context {word : Type} `{Vocabulary word}.
Variables (hps : HParams) (example_list : list (Example word)).
Hypothesis nonempty : example_list ≠ [].
Hypothesis fits : len example_list <= batch_size hps.
Hypothesis dec_steps : 0 <= max_dec_steps hps.
Hypothesis fresh : Forall (Example_fresh hps) example_list.

Local Abbreviation M := (max_enc_len example_list).
Local Abbreviation p := (word2id _PAD).
Local Abbreviation enc_padded := (padded_enc M p <$> example_list).

(** The int32 values that the arrays take of an example. *)
Local Abbreviation enc_row := (λ ex : Example word, astype_int32 (enc_input ex)).
Local Abbreviation ext_row := (λ ex : Example word, astype_int32 (extend_vocab_of ex)).
Local Abbreviation dec_row := (λ ex : Example word, astype_int32 (dec_input ex)).
Local Abbreviation tgt_row := (λ ex : Example word, astype_int32 (target ex)).
Local Abbreviation len_cell := (λ ex : Example word, wrap32 (enc_len ex)).

Lemma enc_padded_lookup (k : nat) (x : Example word) :
  enc_padded !! k = Some x →
  ∃ ex, x = padded_enc M p ex ∧ Example_fresh hps ex ∧ enc_len ex <= M
        ∧ (k < Z.to_nat (batch_size hps))%nat.
Proof.
  intros Hx. apply list_lookup_fmap_Some in Hx as (ex & -> & Hex).
  exists ex. split; [done|]. split.
  - eapply Forall_lookup_1; eauto.
  - split.
    + apply max_enc_len_ge. by eapply list_elem_of_lookup_2.
    + apply lookup_lt_Some in Hex. unfold len in fits. lia.
Qed.

Lemma enc_rows_filled :
  for_enumerate 0 enc_padded
    (λ i ex '(enc_batch, enc_lens),
       enc_batch ← np_set_row enc_batch i (enc_input ex);
       enc_lens ← np_set1 enc_lens i (enc_len ex);
       Ok (enc_batch, enc_lens))
    (stacked (batch_size hps) M [], [] ++ replicate (Z.to_nat (batch_size hps) - 0) 0)
  = Ok (stacked (batch_size hps) M (enc_row <$> enc_padded),
        (len_cell <$> example_list)
        ++ replicate (Z.to_nat (batch_size hps) - length example_list) 0).
Proof.
  pose proof (max_enc_len_nonneg hps example_list fresh) as HM.
  loop_inv
    (λ k (s : list (list Z) * list Z),
       s = (stacked (batch_size hps) M (enc_row <$> take k enc_padded),
            (len_cell <$> take k enc_padded)
            ++ replicate (Z.to_nat (batch_size hps)
                          - length (len_cell <$> take k enc_padded)) 0));
    [reflexivity| |].
  - intros k x s Hx ->. simpl in *.
    destruct (enc_padded_lookup k x Hx) as (ex & -> & Hex & Hle & Hk).
    destruct (take_lookup_snoc _ _ _ Hx) as [-> Htake].
    destruct (padded_enc_fresh hps ex M p Hex Hle) as [Hlen _].
    rewrite np_set_row_stacked; [|by rewrite length_fmap|done|unfold len in Hlen; lia].
    simpl. rewrite np_set1_stacked; [|by rewrite length_fmap|done].
    simpl. eexists. split; [reflexivity|]. by rewrite !fmap_app.
  - simpl. rewrite take_ge by lia.
    assert (Hlens : len_cell <$> enc_padded = len_cell <$> example_list)
      by (by rewrite <- list_fmap_compose).
    by rewrite Hlens, length_fmap.
Qed.

Lemma extend_rows_filled :
  pointer_gen hps = true →
  for_enumerate 0 enc_padded
    (λ i ex enc_batch_extend_vocab,
       v ← getattr (enc_input_extend_vocab ex);
       np_set_row enc_batch_extend_vocab i v)
    (stacked (batch_size hps) M [])
  = Ok (stacked (batch_size hps) M (ext_row <$> enc_padded)).
Proof.
  intros Hpg.
  loop_inv
    (λ k (s : list (list Z)),
       s = stacked (batch_size hps) M (ext_row <$> take k enc_padded));
    [reflexivity| |].
  - intros k x s Hx ->. simpl in *.
    destruct (enc_padded_lookup k x Hx) as (ex & -> & Hex & Hle & Hk).
    destruct (take_lookup_snoc _ _ _ Hx) as [-> Htake].
    destruct (padded_enc_fresh hps ex M p Hex Hle) as [_ Hext].
    destruct (Hext Hpg) as (Hlen & -> & _). simpl.
    rewrite np_set_row_stacked; [|by rewrite length_fmap|done|unfold len in Hlen; lia].
    eexists. split; [reflexivity|]. by rewrite fmap_app.
  - simpl. by rewrite take_ge by lia.
Qed.

Lemma init_encoder_seq_extend_fresh :
  pointer_gen hps = true →
  init_encoder_seq_extend enc_padded hps M
  = Ok (maximum ((λ ex, len (oovs_of ex)) <$> example_list),
        oovs_of <$> example_list,
        stacked (batch_size hps) M (ext_row <$> enc_padded)).
Proof.
  intros Hpg. unfold init_encoder_seq_extend.
  pose proof (max_enc_len_nonneg hps example_list fresh) as HM.
  assert (Hoovs : Forall (λ ex, article_oovs ex = Some (oovs_of ex)) enc_padded).
  { apply Forall_fmap, Forall_forall. intros ex Hex. simpl.
    eapply Forall_forall in fresh; [|exact Hex].
    destruct fresh as (_ & _ & _ & _ & _ & Hattr). rewrite Hpg in Hattr.
    destruct Hattr as (ids & oovs & _ & _ & Hattr).
    unfold oovs_of. simpl. by rewrite Hattr. }
  rewrite (mapM_Ok _ (λ ex, len (oovs_of ex))).
  2:{ eapply Forall_impl; [exact Hoovs|]. intros ex Hex. simpl. by rewrite Hex. }
  returned.
  assert (Hlens : (λ ex, len (oovs_of ex)) <$> enc_padded
                  = (λ ex, len (oovs_of ex)) <$> example_list)
    by (by rewrite <- list_fmap_compose).
  assert (Hlist : oovs_of <$> enc_padded = oovs_of <$> example_list)
    by (by rewrite <- list_fmap_compose).
  rewrite Hlens.
  rewrite py_max_maximum by (intros Hnil; by apply fmap_nil_inv in Hnil).
  returned. rewrite (mapM_Ok _ oovs_of).
  2:{ eapply Forall_impl; [exact Hoovs|]. intros ex Hex. simpl. by rewrite Hex. }
  returned. rewrite Hlist.
  rewrite np_zeros2_stacked by (unfold len in fits; lia).
  returned. rewrite extend_rows_filled by done. reflexivity.
Qed.

Lemma init_encoder_seq_fresh :
  init_encoder_seq p example_list hps
  = Ok (enc_padded,
        stacked (batch_size hps) M (enc_row <$> enc_padded),
        (len_cell <$> example_list)
        ++ replicate (Z.to_nat (batch_size hps) - length example_list) 0,
        if pointer_gen hps
        then Some (maximum ((λ ex, len (oovs_of ex)) <$> example_list),
                   oovs_of <$> example_list,
                   stacked (batch_size hps) M (ext_row <$> enc_padded))
        else None).
Proof.
  unfold init_encoder_seq.
  pose proof (max_enc_len_nonneg hps example_list fresh) as HM.
  rewrite py_max_maximum by (intros Hnil; by apply fmap_nil_inv in Hnil).
  returned. fold M.
  rewrite (mapM_Ok _ (padded_enc M p)).
  2:{ eapply Forall_impl; [exact fresh|]. intros ex Hex.
      by eapply pad_encoder_input_fresh. }
  returned.
  rewrite np_zeros2_stacked by (unfold len in fits; lia). returned.
  rewrite np_zeros1_stacked by (unfold len in fits; lia). returned.
  rewrite enc_rows_filled. returned.
  destruct (pointer_gen hps) eqn:Hpg; [|done].
  rewrite init_encoder_seq_extend_fresh by done. reflexivity.
Qed.

Local Abbreviation dec_padded :=
  (padded M (max_dec_steps hps) p <$> example_list).

Lemma dec_padded_lookup (k : nat) (x : Example word) :
  dec_padded !! k = Some x →
  len (dec_input x) = max_dec_steps hps
  ∧ len (target x) = max_dec_steps hps
  ∧ 0 <= dec_len x <= max_dec_steps hps
  ∧ (k < Z.to_nat (batch_size hps))%nat.
Proof.
  intros Hx. apply list_lookup_fmap_Some in Hx as (ex & -> & Hex).
  pose proof (Forall_lookup_1 _ _ _ _ fresh Hex) as (_ & _ & Hdec & Hle & Htgt & _).
  simpl. rewrite !len_pad.
  pose proof (len_nonneg (dec_input ex)).
  apply lookup_lt_Some in Hex. unfold len in fits. lia.
Qed.

Lemma mask_row_filled (filled : list (list Z)) (i d : nat) (width : Z) :
  length filled = i →
  (i < Z.to_nat (batch_size hps))%nat →
  (d <= Z.to_nat width)%nat →
  for_each (seq 0 d) (λ j padding_mask, np_set2 padding_mask i j 1)
    (stacked (batch_size hps) width filled)
  = Ok (stacked (batch_size hps) width
          (filled ++ [replicate d 1 ++ replicate (Z.to_nat width - d) 0])).
Proof.
  intros <- Hi Hd. unfold stacked.
  rewrite (padding_mask_row _ _ (Z.to_nat width)); [|by apply lookup_next_row|done].
  by rewrite insert_next_row.
Qed.

Lemma dec_rows_filled :
  for_enumerate 0 dec_padded
    (λ i ex '(dec_batch, target_batch, padding_mask),
       dec_batch ← np_set_row dec_batch i (dec_input ex);
       target_batch ← np_set_row target_batch i (target ex);
       padding_mask ←
         for_each (xrange1 (dec_len ex))
           (λ j padding_mask, np_set2 padding_mask i j 1) padding_mask;
       Ok (dec_batch, target_batch, padding_mask))
    (stacked (batch_size hps) (max_dec_steps hps) [],
     stacked (batch_size hps) (max_dec_steps hps) [],
     stacked (batch_size hps) (max_dec_steps hps) [])
  = Ok (stacked (batch_size hps) (max_dec_steps hps) (dec_row <$> dec_padded),
        stacked (batch_size hps) (max_dec_steps hps) (tgt_row <$> dec_padded),
        stacked (batch_size hps) (max_dec_steps hps)
          (mask_row (max_dec_steps hps) <$> dec_padded)).
Proof.
  loop_inv
    (λ k (s : list (list Z) * list (list Z) * list (list Z)),
       s = (stacked (batch_size hps) (max_dec_steps hps)
              (dec_row <$> take k dec_padded),
            stacked (batch_size hps) (max_dec_steps hps)
              (tgt_row <$> take k dec_padded),
            stacked (batch_size hps) (max_dec_steps hps)
              (mask_row (max_dec_steps hps) <$> take k dec_padded)));
    [reflexivity| |].
  - intros k x s Hx ->. cbv beta iota. rewrite Nat.add_0_l.
    destruct (dec_padded_lookup k x Hx) as (Hinp & Htgt & Hlen & Hk).
    destruct (take_lookup_snoc _ _ _ Hx) as [-> Htake].
    unfold len in Hinp, Htgt.
    rewrite (np_set_row_stacked _ _ (dec_row <$> _));
      [|by rewrite length_fmap|done|lia].
    returned.
    rewrite (np_set_row_stacked _ _ (tgt_row <$> _));
      [|by rewrite length_fmap|done|lia].
    returned. unfold xrange1.
    rewrite mask_row_filled; [|by rewrite length_fmap|done|lia]. returned.
    eexists. split; [reflexivity|]. by rewrite !fmap_app.
  - rewrite Nat.add_0_l, take_ge by lia. reflexivity.
Qed.

Lemma init_decoder_seq_fresh :
  init_decoder_seq p enc_padded hps
  = Ok (dec_padded,
        stacked (batch_size hps) (max_dec_steps hps) (dec_row <$> dec_padded),
        stacked (batch_size hps) (max_dec_steps hps) (tgt_row <$> dec_padded),
        stacked (batch_size hps) (max_dec_steps hps)
          (mask_row (max_dec_steps hps) <$> dec_padded)).
Proof.
  unfold init_decoder_seq. cbv zeta.
  assert (Hpad : (λ ex : Example word, pad_decoder_inp_targ ex (max_dec_steps hps) p)
                 <$> enc_padded = dec_padded)
    by (by rewrite <- list_fmap_compose).
  rewrite Hpad.
  rewrite !np_zeros2_stacked by (unfold len in fits; lia).
  do 3 returned. rewrite dec_rows_filled. reflexivity.
Qed.

(** The constructor of Batch returns on a list of fresh examples that is
    not empty and has at most [batch_size] elements; it pads the examples
    and stacks them. *)
Lemma Batch_init_fresh :
  Batch_init example_list hps = Ok (dec_padded, stacked_batch hps example_list).
Proof.
  unfold Batch_init. cbv zeta.
  rewrite init_encoder_seq_fresh. returned.
  rewrite init_decoder_seq_fresh. returned.
  unfold stacked_batch. cbv zeta.
  assert (Henc : enc_row <$> dec_padded = enc_row <$> enc_padded)
    by (by rewrite <- !list_fmap_compose).
  assert (Hext : ext_row <$> dec_padded = ext_row <$> enc_padded)
    by (by rewrite <- !list_fmap_compose).
  assert (Hart : original_article <$> dec_padded = original_article <$> example_list)
    by (by rewrite <- !list_fmap_compose).
  assert (Habs : original_abstract <$> dec_padded = original_abstract <$> example_list)
    by (by rewrite <- !list_fmap_compose).
  assert (Hsents : original_abstract_sents <$> dec_padded
                   = original_abstract_sents <$> example_list)
    by (by rewrite <- !list_fmap_compose).
  rewrite Henc, Hext, Hart, Habs, Hsents.
  by destruct (pointer_gen hps).
Qed.

End BatchInit.

Lemma mapM_Ok_Forall2 {A B} (f : A → result B) (R : A → B → Prop) (l : list A) :
  (∀ x, ∃ y, f x = Ok y ∧ R x y) →
  ∃ k, mapM f l = Ok k ∧ Forall2 R l k.
Proof.
  intros Hf. induction l as [|x l (k & Hk & HR)].
  - exists []. by split.
  - destruct (Hf x) as (y & Hy & Hxy).
    exists (y :: k). simpl. rewrite Hy. returned. rewrite Hk. returned.
    split; [done|by constructor].
Qed.

Lemma stacked_rectangular (batch_size width : Z) (filled : list (list Z)) :
  0 <= width →
  len filled <= batch_size →
  Forall (λ row, len row = width) filled →
  rectangular batch_size width (stacked batch_size width filled).
Proof.
  intros Hw Hfits Hrows. unfold rectangular, stacked, len in *. split.
  - rewrite length_app, length_replicate. lia.
  - apply Forall_app. split; [done|].
    apply Forall_replicate. rewrite length_replicate. lia.
Qed.

Section BatchShape.
Context {word : Type} `{Vocabulary word}.

(** The lengths that the two padding methods leave in a fresh example. *)
Lemma padded_lengths (hps : HParams) (ex : Example word) (max_len pad_id : Z) :
  Example_fresh hps ex →
  enc_len ex <= max_len →
  0 <= max_dec_steps hps →
  let ex' := padded max_len (max_dec_steps hps) pad_id ex in
  len (enc_input ex') = max_len
  ∧ len (dec_input ex') = max_dec_steps hps
  ∧ len (target ex') = max_dec_steps hps
  ∧ len (mask_row (max_dec_steps hps) ex') = max_dec_steps hps
  ∧ (pointer_gen hps = true →
       enc_input_extend_vocab ex' = Some (extend_vocab_of ex')
       ∧ len (extend_vocab_of ex') = max_len).
Proof.
  intros Hfresh Hle Hdec. simpl.
  destruct (padded_enc_fresh hps ex max_len pad_id Hfresh Hle) as [Henc Hext].
  destruct Hfresh as (_ & _ & Hlen & Hdl & Htgt & _).
  pose proof (len_nonneg (dec_input ex)).
  split; [exact Henc|].
  rewrite !len_pad. unfold mask_row. simpl. autorewrite with len.
  split; [lia|]. split; [lia|]. split; [lia|].
  intros Hpg. destruct (Hext Hpg) as (Hlen' & Hsome & _). done.
Qed.

End BatchShape.

(** ** Batches of examples made by the constructor *)

Section Stacking.
Context {word : Type} `{Vocabulary word}.
Variables (hps : HParams) (raw : list (list word * list word)).
Hypothesis dec_steps : 0 <= max_dec_steps hps.
Hypothesis aligned : pointer_gen hps = true → article2ids_aligned.

(** Every pair of an article and an abstract makes a fresh example. *)
Lemma examples_of_raw :
  ∃ examples,
    mapM (λ '(article, abstract), Example_init article abstract hps) raw = Ok examples
    ∧ Forall (Example_fresh hps) examples
    ∧ Forall2 (λ '(article, abstract) ex,
                 enc_len ex = len (truncated_article hps article)
                 ∧ enc_input ex = word2id <$> truncated_article hps article
                 ∧ original_article ex = article
                 ∧ original_abstract ex = abstract) raw examples.
Proof.
  destruct (mapM_Ok_Forall2
    (λ '(article, abstract), Example_init article abstract hps)
    (λ '(article, abstract) ex,
       Example_fresh hps ex
       ∧ enc_len ex = len (truncated_article hps article)
       ∧ enc_input ex = word2id <$> truncated_article hps article
       ∧ original_article ex = article
       ∧ original_abstract ex = abstract) raw) as (examples & Hrun & Hall).
  - intros [article abstract].
    destruct (Example_init_Ok article abstract hps dec_steps aligned)
      as (ex & Hex & Hfresh & Hrest).
    by exists ex.
  - exists examples. split; [done|]. split.
    + clear Hrun. induction Hall as [|[a b] ex ? ? [? _]]; by constructor.
    + eapply Forall2_impl; [exact Hall|]. by intros [a b] ex (_ & ?).
Qed.

End Stacking.


Lemma char_article2ids_aligned : @article2ids_aligned string Char.vocabulary.
Proof. intros ws. simpl. apply len_fmap. Qed.



(** C7, as the code has it: with [0 <= max_enc_steps < 2^31], for a list
    of pairs that is not empty and fits in a batch, the constructor keeps
    the first [max_enc_steps] words of each article, [enc_len] is the
    number of words kept, which is the length of the encoder input before
    padding and at most [max_enc_steps], and the Batch records it at the
    position of the example in the int32 array [enc_lens]. *)
Theorem enc_len_recorded_in_enc_lens {word : Type} `{Vocabulary word}
    (hps : HParams) (raw : list (list word * list word)) :
  raw ≠ [] →
  len raw <= batch_size hps →
  0 <= max_enc_steps hps < 2 ^ 31 →
  0 <= max_dec_steps hps →
  (pointer_gen hps = true → article2ids_aligned) →
  ∃ examples padded_list batch,
    mapM (λ '(article, abstract), Example_init article abstract hps) raw = Ok examples
    ∧ Batch_init examples hps = Ok (padded_list, batch)
    ∧ ∀ i article abstract,
        raw !! i = Some (article, abstract) →
        ∃ ex, examples !! i = Some ex
              ∧ enc_input ex = word2id <$> take (Z.to_nat (max_enc_steps hps)) article
              ∧ enc_len ex = len (enc_input ex)
              ∧ enc_len ex = Z.min (len article) (max_enc_steps hps)
              ∧ enc_len ex <= max_enc_steps hps
              ∧ enc_lens batch !! i = Some (enc_len ex).
Proof.
  intros Hne Hfits Henc Hdec Haligned.
  destruct (examples_of_raw hps raw Hdec Haligned) as (examples & Hrun & Hfresh & Hraw).
  pose proof (Forall2_length _ _ _ Hraw) as Hlen.
  assert (Hne' : examples ≠ []) by (destruct raw, examples; done).
  assert (Hfits' : len examples <= batch_size hps) by (unfold len in *; lia).
  eexists examples, _, _. split; [exact Hrun|].
  split; [apply Batch_init_fresh; assumption|].
  intros i article abstract Hi.
  destruct (Forall2_lookup_l _ _ _ _ _ Hraw Hi) as (ex & Hex & Hlen' & Hinput & _).
  exists ex. split; [done|].
  assert (Htrunc : truncated_article hps article
                   = take (Z.to_nat (max_enc_steps hps)) article).
  { unfold truncated_article, slice_to.
    destruct (Z.gtb_spec (len article) (max_enc_steps hps)).
    - destruct (Z.ltb_spec (max_enc_steps hps) 0); [lia|done].
    - rewrite take_ge; [done|]. unfold len in *. lia. }
  pose proof (len_nonneg article) as Harticle.
  rewrite Hinput, Hlen', len_fmap, len_truncated_article, <- Htrunc by lia.
  repeat split; try lia.
  simpl. rewrite lookup_app_l by (rewrite length_fmap; by eapply lookup_lt_Some).
  rewrite list_lookup_fmap, Hex. simpl.
  rewrite Hlen', len_truncated_article by lia.
  rewrite wrap32_id; [done|]. unfold is_int32. lia.
Qed.

(** An article of five words, cut to [max_enc_steps = 4] words, and an
    article of one word, which the Batch pads to four ids: [enc_lens]
    holds 4 and 1. *)
Lemma enc_len_recorded_in_enc_lens_witness :
  Char.long_and_short ≠ []
  ∧ len Char.long_and_short <= batch_size (Char.hps "train" 2)
  ∧ 0 <= max_enc_steps (Char.hps "train" 2) < 2 ^ 31
  ∧ 0 <= max_dec_steps (Char.hps "train" 2)
  ∧ ∃ examples padded_list batch ex0 ex1,
      mapM (λ '(article, abstract), Example_init article abstract (Char.hps "train" 2))
        Char.long_and_short = Ok examples
      ∧ Batch_init examples (Char.hps "train" 2) = Ok (padded_list, batch)
      ∧ examples !! 0%nat = Some ex0
      ∧ enc_input ex0 = [101; 102; 103; 104]
      ∧ enc_len ex0 = 4
      ∧ enc_lens batch !! 0%nat = Some 4
      ∧ examples !! 1%nat = Some ex1
      ∧ enc_len ex1 = 1
      ∧ enc_lens batch !! 1%nat = Some 1
      ∧ enc_batch batch !! 1%nat = Some [106; 0; 0; 0].
Proof.
  split; [done|]. split; [vm_compute; discriminate|].
  split; [split; [vm_compute; discriminate|reflexivity]|].
  split; [vm_compute; discriminate|].
  destruct (enc_len_recorded_in_enc_lens (Char.hps "train" 2) Char.long_and_short)
    as (examples & padded_list & batch & Hrun & Hinit & Hrec).
  - done.
  - vm_compute. discriminate.
  - split; [vm_compute; discriminate|reflexivity].
  - vm_compute. discriminate.
  - intros _. exact char_article2ids_aligned.
  - destruct (Hrec 0%nat ["a"; "b"; "c"; "d"; "e"] ["x"] eq_refl)
      as (ex0 & Hex0 & Hinput0 & _ & Hmin0 & _ & Hlens0).
    destruct (Hrec 1%nat ["f"] ["y"; "z"] eq_refl)
      as (ex1 & Hex1 & _ & _ & Hmin1 & _ & Hlens1).
    exists examples, padded_list, batch, ex0, ex1.
    split; [exact Hrun|]. split; [exact Hinit|].
    split; [exact Hex0|]. split; [exact Hinput0|]. split; [exact Hmin0|].
    split; [by rewrite Hlens0, Hmin0|].
    split; [exact Hex1|]. split; [exact Hmin1|].
    split; [by rewrite Hlens1, Hmin1|].
    vm_compute in Hrun. injection Hrun as <-.
    vm_compute in Hinit. by injection Hinit as _ <-.
Defined.

(** C7 as it is worded fails: with [max_enc_steps = -1] the slice of the
    constructor drops the last word only, and an article of three words
    gives an encoder length of 2, which is more than [max_enc_steps]. *)
Lemma enc_len_negative_max_enc_steps_counterexample :
  let hps := {| mode := "train"; batch_size := 2; max_enc_steps := -1;
                max_dec_steps := 3; pointer_gen := true |} in
  ∃ ex, Example_init ["a"; "b"; "c"] ["x"] hps = Ok ex
        ∧ enc_input ex = [101; 102]
        ∧ enc_len ex = 2
        ∧ ¬ (enc_len ex <= max_enc_steps hps).
Proof.
  intros hps. eexists. split; [reflexivity|]. split; [reflexivity|].
  split; [reflexivity|]. vm_compute. by intros Hle.
Qed.

(** ** Row-major order *)

Lemma mapM_Ok_Forall2_elem {A B} (f : A → result B) (R : A → B → Prop) (l : list A) :
  (∀ x, x ∈ l → ∃ y, f x = Ok y ∧ R x y) →
  ∃ k, mapM f l = Ok k ∧ Forall2 R l k.
Proof.
  induction l as [|x l IH]; intros Hf.
  - exists []. by split.
  - destruct (Hf x) as (y & Hy & Hxy); [apply list_elem_of_here|].
    destruct IH as (k & Hk & HR).
    { intros z Hz. apply Hf. by apply list_elem_of_further. }
    exists (y :: k). simpl. rewrite Hy. returned. rewrite Hk. returned.
    split; [done|by constructor].
Qed.

(** The entry [j] of row [i] of a matrix with rows of [n] cells is the
    entry [i * n + j] of its row-major flattening. *)
Lemma lookup_concat_rows {A} (rows : list (list A)) (n i j : nat) :
  Forall (λ row, length row = n) rows →
  (j < n)%nat →
  concat rows !! (i * n + j)%nat = rows !! i ≫= (.!! j).
Proof.
  intros Hrows Hj. revert i. induction Hrows as [|row rows Hrow _ IH]; intros i.
  - by rewrite !lookup_nil.
  - destruct i as [|i]; simpl.
    + rewrite lookup_app_l by lia. done.
    + rewrite lookup_app_r by lia.
      replace (n + i * n + j - length row)%nat with (i * n + j)%nat by lia.
      apply IH.
Qed.

Lemma entry_flatten {A} (t : Tensor2 A) (i j : Z) :
  Tensor2_wf t →
  0 <= i →
  0 <= j < shape1 t →
  entry t i j = tf_flatten t !! Z.to_nat (i * shape1 t + j).
Proof.
  intros (Hn & _ & Hrows) Hi Hj. unfold entry, tf_flatten.
  destruct (Z.ltb_spec i 0); [lia|]. destruct (Z.ltb_spec j 0); [lia|]. simpl.
  replace (Z.to_nat (i * shape1 t + j))
    with (Z.to_nat i * Z.to_nat (shape1 t) + Z.to_nat j)%nat by nia.
  rewrite (lookup_concat_rows _ (Z.to_nat (shape1 t))); [done| |lia].
  eapply Forall_impl; [exact Hrows|]. intros row Hrow. unfold len in Hrow. lia.
Qed.


(** ** gather_2d *)

Lemma tf_add_same_length (u v : list Z) :
  length u = length v → tf_add u v = Ok (zip_with add32 u v).
Proof. intros Hlen. unfold tf_add. by rewrite decide_True. Qed.

(** The product by an int32 scalar only depends on the scalar modulo
    2^32. *)
Lemma tf_mul_scalar_wrap (v : list Z) (c : Z) :
  tf_mul_scalar v (wrap32 c) = tf_mul_scalar v c.
Proof.
  unfold tf_mul_scalar, mul32. apply list_fmap_ext. intros _ x _.
  apply wrap32_mul_r.
Qed.

(** The flat index that the int32 arithmetic gives for a row index [i]
    and a column index [j] is the int32 value of [i * n + j]. *)
Lemma flat_index_lookup (n : Z) (indices1 indices2 : list Z) (k : nat) (f : Z) :
  zip_with add32 (tf_mul_scalar indices1 n) indices2 !! k = Some f
  ↔ ∃ i j, indices1 !! k = Some i ∧ indices2 !! k = Some j ∧ f = wrap32 (i * n + j).
Proof.
  unfold tf_mul_scalar. rewrite lookup_zip_with_Some. split.
  - intros (a & j & -> & Ha & Hj).
    apply list_lookup_fmap_Some in Ha as (i & -> & Hi). exists i, j.
    split; [done|]. split; [done|]. apply wrap32_add_l.
  - intros (i & j & Hi & Hj & ->). exists (mul32 i n), j.
    split; [symmetry; apply wrap32_add_l|]. by rewrite list_lookup_fmap, Hi.
Qed.

Lemma len_flatten {A} (t : Tensor2 A) :
  Tensor2_wf t → len (tf_flatten t) = shape0 t * shape1 t.
Proof.
  intros (Hn & Hlen & Hrows). unfold tf_flatten, len in *. rewrite <- Hlen.
  clear Hlen. induction Hrows as [|row rows Hrow _ IH]; simpl; [lia|].
  rewrite length_app. lia.
Qed.


Lemma tf_gather_Forall2 {A} (flat : list A) (idx : list Z) :
  Forall (λ f, 0 <= f < len flat) idx →
  ∃ out, tf_gather flat idx = Ok out
         ∧ Forall2 (λ f x, flat !! Z.to_nat f = Some x) idx out.
Proof.
  intros Hidx. unfold tf_gather. apply mapM_Ok_Forall2_elem.
  intros f Hf. apply (proj1 (Forall_forall _ _) Hidx) in Hf. unfold len in Hf.
  destruct (Z.ltb_spec f 0); [lia|].
  destruct (lookup_lt_is_Some_2 flat (Z.to_nat f)) as [x Hx]; [lia|].
  exists x. by rewrite Hx.
Qed.

(** [mapM] stops at the first element that raises. *)
Lemma mapM_raise {A B} (f : A → result B) (e : exn) (l : list A) :
  Forall (λ x, is_Some (match f x with Ok y => Some y | _ => None end) ∨ f x = Raise e) l →
  Exists (λ x, f x = Raise e) l →
  mapM f l = Raise e.
Proof.
  intros Hall Hex. induction Hall as [|x l Hx Hall IH]; [by apply Exists_nil in Hex|].
  simpl. destruct Hx as [[y Hy]| ->]; [|done].
  destruct (f x) as [y'| |] eqn:Hfx; try done. returned.
  apply Exists_cons in Hex as [Hex|Hex]; [congruence|].
  by rewrite IH.
Qed.

(** The flat indices that [gather_2d] reads. *)
Lemma gather_2d_run {A} (params : Tensor2 A) (indices1 indices2 : list Z) :
  Tensor2_wf params →
  length indices1 = length indices2 →
  Forall (λ f, 0 <= f < shape0 params * shape1 params)
    (zip_with add32 (tf_mul_scalar indices1 (shape1 params)) indices2) →
  ∃ out,
    gather_2d params indices1 indices2 = Ok out
    ∧ Forall2 (λ f x, tf_flatten params !! Z.to_nat f = Some x)
        (zip_with add32 (tf_mul_scalar indices1 (shape1 params)) indices2) out.
Proof.
  intros Hwf Hlen Hidx. unfold gather_2d, tf_shape. rewrite tf_mul_scalar_wrap.
  rewrite tf_add_same_length by (unfold tf_mul_scalar; by rewrite length_fmap).
  returned. apply tf_gather_Forall2. by rewrite len_flatten.
Qed.

(** C8, as the code has it: for a matrix [params] of shape [(m, n)] with
    fewer than [2^31] cells and two index vectors of one length whose
    entries are in range, [gather_2d] returns a vector of that length
    whose entry [k] is [params[indices1[k]][indices2[k]]], read at the
    position [indices1[k] * n + indices2[k]] of the flattened matrix. *)
Theorem gather_2d_spec {A : Type} (params : Tensor2 A) (indices1 indices2 : list Z) :
  Tensor2_wf params →
  shape0 params * shape1 params < 2 ^ 31 →
  length indices1 = length indices2 →
  Forall (λ i, 0 <= i < shape0 params) indices1 →
  Forall (λ j, 0 <= j < shape1 params) indices2 →
  ∃ out,
    gather_2d params indices1 indices2 = Ok out
    ∧ length out = length indices1
    ∧ ∀ k i j,
        indices1 !! k = Some i →
        indices2 !! k = Some j →
        ∃ x, out !! k = Some x
             ∧ entry params i j = Some x
             ∧ tf_flatten params !! Z.to_nat (i * shape1 params + j) = Some x.
Proof.
  intros Hwf Hcells Hlen H1 H2.
  assert (Hexact : ∀ k i j, indices1 !! k = Some i → indices2 !! k = Some j →
            0 <= i * shape1 params + j < shape0 params * shape1 params
            ∧ wrap32 (i * shape1 params + j) = i * shape1 params + j).
  { intros k i j Hi Hj.
    eapply Forall_lookup_1 in H1; [|exact Hi].
    eapply Forall_lookup_1 in H2; [|exact Hj]. simpl in H1, H2.
    assert (0 <= i * shape1 params + j < shape0 params * shape1 params) by nia.
    split; [done|]. apply wrap32_id. unfold is_int32. lia. }
  destruct (gather_2d_run params indices1 indices2 Hwf Hlen) as (out & Hrun & Hout).
  { apply Forall_lookup. intros k f Hf.
    apply flat_index_lookup in Hf as (i & j & Hi & Hj & ->).
    destruct (Hexact k i j Hi Hj) as [? ->]. done. }
  exists out. split; [exact Hrun|].
  pose proof (Forall2_length _ _ _ Hout) as Hlen'.
  unfold tf_mul_scalar in Hlen'. rewrite length_zip_with, length_fmap in Hlen'.
  split; [lia|].
  intros k i j Hi Hj.
  destruct (Hexact k i j Hi Hj) as [Hrange Hwrap].
  destruct (Forall2_lookup_l _ _ _ k (i * shape1 params + j) Hout) as (x & Hx & Hflat).
  { apply flat_index_lookup. exists i, j. by rewrite Hwrap. }
  exists x. split; [done|]. split; [|done].
  eapply Forall_lookup_1 in H1; [|exact Hi].
  eapply Forall_lookup_1 in H2; [|exact Hj]. simpl in H1, H2.
  rewrite entry_flatten by (done || lia). done.
Qed.

(** A matrix and two index vectors for [gather_2d]. *)
Lemma gather_2d_spec_witness :
  let params := mkTensor2 2 3 [[10; 11; 12]; [20; 21; 22]] in
  Tensor2_wf params
  ∧ shape0 params * shape1 params < 2 ^ 31
  ∧ length [1; 0] = length [2; 1]
  ∧ Forall (λ i, 0 <= i < shape0 params) [1; 0]
  ∧ Forall (λ j, 0 <= j < shape1 params) [2; 1]
  ∧ ∃ out, gather_2d params [1; 0] [2; 1] = Ok out
           ∧ length out = 2%nat
           ∧ out !! O = entry params 1 2.
Proof.
  intros params.
  assert (Hwf : Tensor2_wf params)
    by (unfold Tensor2_wf; simpl; repeat split; [lia|by repeat constructor]).
  assert (Hcells : shape0 params * shape1 params < 2 ^ 31) by (simpl; lia).
  assert (H1 : Forall (λ i, 0 <= i < shape0 params) [1; 0])
    by (repeat constructor; simpl; lia).
  assert (H2 : Forall (λ j, 0 <= j < shape1 params) [2; 1])
    by (repeat constructor; simpl; lia).
  do 5 (split; [done|]).
  destruct (gather_2d_spec params [1; 0] [2; 1] Hwf Hcells eq_refl H1 H2)
    as (out & Hrun & Hlen & Hout).
  exists out. split; [done|]. split; [done|].
  destruct (Hout O 1 2 eq_refl eq_refl) as (x & -> & -> & _). done.
Defined.

(** C8 as it is worded fails: in a matrix of 46341 rows and 46341
    columns the last cell has the flat index 2147488280, which is not an
    int32: the sum wraps around to a negative index, which [tf.gather]
    refuses, although both indices are in range. *)
Lemma gather_2d_int32_counterexample :
  let params :=
    mkTensor2 46341 46341 (replicate (Z.to_nat 46341) (replicate (Z.to_nat 46341) 0)) in
  Tensor2_wf params
  ∧ Forall (λ i, 0 <= i < shape0 params) [46340]
  ∧ Forall (λ j, 0 <= j < shape1 params) [46340]
  ∧ entry params 46340 46340 = Some 0
  ∧ gather_2d params [46340] [46340] = Raise InvalidArgumentError.
Proof.
  cbv zeta. split.
  { unfold Tensor2_wf, len. cbn [shape0 shape1 rows]. split; [lia|]. split.
    - rewrite length_replicate. lia.
    - apply Forall_replicate. rewrite length_replicate. lia. }
  split; [by apply Forall_singleton|]. split; [by apply Forall_singleton|]. split.
  { unfold entry. cbn [rows]. change ((46340 <? 0) || (46340 <? 0)) with false. cbv iota.
    rewrite lookup_replicate_2 by lia. cbn [mbind option_bind].
    apply lookup_replicate_2. lia. }
  unfold gather_2d, tf_shape. cbn [shape0 shape1].
  generalize (tf_flatten
                (mkTensor2 46341 46341
                   (replicate (Z.to_nat 46341) (replicate (Z.to_nat 46341) 0)))).
  intros flat.
  replace (tf_add (tf_mul_scalar [46340] (wrap32 46341)) [46340])
    with (Ok [-2147479016] : result (list Z)) by (by vm_compute).
  reflexivity.
Qed.

(** ** dynamic_stitch *)

Lemma length_apply_writes {A} (merged : list A) (writes : list (Z * A)) :
  length (apply_writes merged writes) = length merged.
Proof.
  revert merged. induction writes as [|w ws IH]; intros merged; simpl; [done|].
  unfold apply_writes in *. simpl. by rewrite IH, length_insert.
Qed.

Lemma apply_writes_app {A} (merged : list A) (ws1 ws2 : list (Z * A)) :
  apply_writes merged (ws1 ++ ws2) = apply_writes (apply_writes merged ws1) ws2.
Proof. unfold apply_writes. by rewrite foldl_app. Qed.

(** A cell keeps its content under writes to other cells. *)
Lemma apply_writes_other {A} (merged : list A) (writes : list (Z * A)) (i : Z) :
  0 <= i →
  Forall (λ w, 0 <= w.1 ∧ w.1 ≠ i) writes →
  apply_writes merged writes !! Z.to_nat i = merged !! Z.to_nat i.
Proof.
  intros Hi Hws. revert merged.
  induction Hws as [|w ws [Hw Hne] _ IH]; intros merged; [done|].
  unfold apply_writes in *. simpl. rewrite IH.
  apply list_lookup_insert_ne. lia.
Qed.

(** A cell holds what the last write to it has put there. *)
Lemma apply_writes_last {A} (merged : list A) (ws1 ws2 : list (Z * A)) (i : Z) (v : A) :
  0 <= i →
  (Z.to_nat i < length merged)%nat →
  Forall (λ w, 0 <= w.1 ∧ w.1 ≠ i) ws2 →
  apply_writes merged (ws1 ++ (i, v) :: ws2) !! Z.to_nat i = Some v.
Proof.
  intros Hi Hlen Hws2.
  rewrite apply_writes_app. unfold apply_writes at 1. simpl.
  fold (apply_writes (<[Z.to_nat i := v]> (apply_writes merged ws1)) ws2).
  rewrite apply_writes_other by done.
  apply list_lookup_insert_eq. by rewrite length_apply_writes.
Qed.

Lemma stitch_size_le {A} (writes : list (Z * A)) (n : Z) :
  0 <= n → Forall (λ w, w.1 < n) writes → stitch_size writes <= n.
Proof.
  intros Hn Hws. induction Hws as [|w ws Hw _ IH]; simpl; [done|].
  unfold stitch_size in *. simpl. lia.
Qed.

Lemma stitch_size_ge {A} (writes : list (Z * A)) (w : Z * A) :
  w ∈ writes → w.1 + 1 <= stitch_size writes.
Proof.
  induction writes as [|w' ws IH]; intros Hw.
  - by apply elem_of_nil in Hw.
  - unfold stitch_size in *. simpl.
    apply elem_of_cons in Hw as [->|Hw]; [lia|]. specialize (IH Hw). lia.
Qed.

Lemma stitch_size_nonneg {A} (writes : list (Z * A)) : 0 <= stitch_size writes.
Proof. induction writes as [|w ws IH]; unfold stitch_size in *; simpl; lia. Qed.

(** A cell holds what the last write to it has put there, by positions
    in the list of writes. *)
Lemma apply_writes_lookup_last {A} (merged : list A) (writes : list (Z * A))
    (pos : nat) (i : Z) (v : A) :
  writes !! pos = Some (i, v) →
  (∀ q w, (pos < q)%nat → writes !! q = Some w → w.1 ≠ i) →
  Forall (λ w, 0 <= w.1) writes →
  (Z.to_nat i < length merged)%nat →
  apply_writes merged writes !! Z.to_nat i = Some v.
Proof.
  intros Hpos Hlater Hnonneg Hlen.
  rewrite <- (take_drop_middle writes pos (i, v) Hpos).
  apply apply_writes_last; [|done|].
  - eapply Forall_lookup_1 in Hnonneg; [|exact Hpos]. done.
  - apply Forall_lookup. intros q w Hq. rewrite lookup_drop in Hq. split.
    + eapply Forall_lookup_1 in Hnonneg; [|exact Hq]. done.
    + eapply Hlater; [|exact Hq]. lia.
Qed.

Lemma concat_replicate_replicate {A} (n m : nat) (x : A) :
  concat (replicate n (replicate m x)) = replicate (n * m) x.
Proof.
  induction n as [|n IH]; simpl; [done|]. by rewrite IH, replicate_add.
Qed.

(** ** reshape *)

Lemma tf_reshape2_entry {A} (flat : list A) (r c : Z) :
  0 <= r → 0 <= c → len flat = r * c →
  ∃ t, tf_reshape2 flat r c = Ok t
       ∧ Tensor2_wf t ∧ shape0 t = r ∧ shape1 t = c
       ∧ ∀ i j, 0 <= i < r → 0 <= j < c →
                entry t i j = flat !! Z.to_nat (i * c + j).
Proof.
  intros Hr Hc Hlen. unfold tf_reshape2.
  destruct (Z.ltb_spec r 0); [lia|]. destruct (Z.ltb_spec c 0); [lia|].
  destruct (Z.eqb_spec (len flat) (r * c)); [|lia]. simpl.
  eexists. split; [reflexivity|]. unfold Tensor2_wf, entry, len in *. simpl.
  split; [|split; [done|split; [done|]]].
  - split; [done|]. split; [rewrite length_fmap, length_seq; lia|].
    apply Forall_fmap, Forall_forall. intros i Hi. simpl.
    apply elem_of_seq in Hi. rewrite length_take, length_drop. nia.
  - intros i j Hi Hj.
    destruct (Z.ltb_spec i 0); [lia|]. destruct (Z.ltb_spec j 0); [lia|]. simpl.
    rewrite list_lookup_fmap, lookup_seq_lt by lia. simpl.
    rewrite lookup_take_lt by lia. rewrite lookup_drop.
    f_equal. nia.
Qed.

(** ** _scatter_nd *)

(** Two cells of a matrix with [n] columns have one flat index only if
    they are one cell. *)
Lemma flat_index_inj (n r c r' c' : Z) :
  0 <= c < n → 0 <= c' < n → r * n + c = r' * n + c' → r = r' ∧ c = c'.
Proof. intros Hc Hc' Heq. assert (r = r') by nia. subst. lia. Qed.

Section ScatterFacts.
Context {float32 : Type} (zero uninit : float32).
Variables (enc_batch batch_nums : Tensor2 Z) (copy_dist : Tensor2 float32).
Variables (batch_size extended_vsize : Z).

Local Abbreviation row_of := (tf_flatten batch_nums).
Local Abbreviation col_of := (tf_flatten enc_batch).
Local Abbreviation weight_of := (tf_flatten copy_dist).

Hypothesis rows_nonneg : 0 <= batch_size.
Hypothesis cols_nonneg : 0 <= extended_vsize.
Hypothesis cells_int32 : batch_size * extended_vsize < 2 ^ 31.
Hypothesis same_length : length col_of = length row_of.
Hypothesis same_length' : length weight_of = length row_of.
Hypothesis cols_in_range : Forall (λ c, 0 <= c < extended_vsize) col_of.
Hypothesis rows_in_range : Forall (λ r, 0 <= r < batch_size) row_of.

Local Abbreviation cells := (Z.to_nat batch_size * Z.to_nat extended_vsize)%nat.
Local Abbreviation unchanged :=
  (zip (tf_range (Z.of_nat cells)) (replicate cells zero)).
Local Abbreviation scattered :=
  (zip (zip_with add32 (tf_mul_scalar row_of extended_vsize) col_of) weight_of).

(** With fewer than [2^31] cells the int32 arithmetic of the flat index
    of a cell does not wrap around. *)
Lemma flat_index_exact (r c : Z) :
  0 <= r < batch_size →
  0 <= c < extended_vsize →
  wrap32 (r * extended_vsize + c) = r * extended_vsize + c.
Proof. intros Hr Hc. apply wrap32_id. unfold is_int32. nia. Qed.

Lemma cells_exact : wrap32 (Z.of_nat cells) = Z.of_nat cells.
Proof. apply wrap32_id. unfold is_int32. nia. Qed.

Lemma unchanged_lookup (q : nat) (w : Z * float32) :
  unchanged !! q = Some w → w = (Z.of_nat q, zero) ∧ (q < cells)%nat.
Proof.
  intros Hq. apply lookup_zip_with_Some in Hq as (i & z & -> & Hi & Hz).
  apply lookup_replicate in Hz as [-> Hlt].
  unfold tf_range in Hi. apply lookup_seqZ in Hi as [-> _]. split; [f_equal; lia|done].
Qed.

Lemma unchanged_lookup_lt (q : nat) :
  (q < cells)%nat → unchanged !! q = Some (Z.of_nat q, zero).
Proof.
  intros Hq. apply lookup_zip_with_Some. exists (Z.of_nat q), zero.
  split; [done|]. split.
  - unfold tf_range. by rewrite lookup_seqZ_lt by lia.
  - by apply lookup_replicate_2.
Qed.

Lemma length_unchanged : length unchanged = cells.
Proof.
  rewrite length_zip_with, length_replicate. unfold tf_range.
  rewrite length_seqZ. lia.
Qed.

Lemma scattered_lookup (k : nat) (w : Z * float32) :
  scattered !! k = Some w →
  ∃ r c v, row_of !! k = Some r ∧ col_of !! k = Some c ∧ weight_of !! k = Some v
           ∧ w = (r * extended_vsize + c, v)
           ∧ 0 <= r < batch_size ∧ 0 <= c < extended_vsize.
Proof.
  intros Hk. apply lookup_zip_with_Some in Hk as (i & v & -> & Hi & Hv).
  apply flat_index_lookup in Hi as (r & c & Hr & Hc & ->).
  pose proof (Forall_lookup_1 _ _ _ _ rows_in_range Hr) as Hr'.
  pose proof (Forall_lookup_1 _ _ _ _ cols_in_range Hc) as Hc'.
  simpl in Hr', Hc'. exists r, c, v. rewrite flat_index_exact by done.
  repeat split; try done; lia.
Qed.

Lemma scattered_lookup_Some (k : nat) (r c : Z) (v : float32) :
  row_of !! k = Some r → col_of !! k = Some c → weight_of !! k = Some v →
  scattered !! k = Some (r * extended_vsize + c, v).
Proof.
  intros Hr Hc Hv.
  pose proof (Forall_lookup_1 _ _ _ _ rows_in_range Hr) as Hr'.
  pose proof (Forall_lookup_1 _ _ _ _ cols_in_range Hc) as Hc'. simpl in Hr', Hc'.
  apply lookup_zip_with_Some. eexists _, v.
  split; [done|]. split; [|done].
  apply flat_index_lookup. exists r, c. by rewrite flat_index_exact.
Qed.

(** All writes of the stitch go to cells of the matrix. *)
Lemma writes_in_range :
  Forall (λ w : Z * float32, 0 <= w.1 < Z.of_nat cells) (unchanged ++ scattered).
Proof.
  apply Forall_app. split; apply Forall_lookup; intros q w Hq.
  - apply unchanged_lookup in Hq as [-> Hlt]. simpl. lia.
  - apply scattered_lookup in Hq as (r & c & v & _ & _ & _ & -> & Hr & Hc). simpl. nia.
Qed.

Lemma stitch_size_cells : stitch_size (unchanged ++ scattered) = Z.of_nat cells.
Proof.
  apply Z.le_antisymm.
  - apply stitch_size_le; [lia|].
    eapply Forall_impl; [exact writes_in_range|]. simpl. intros w Hw. lia.
  - destruct (decide (cells = O)) as [Hnone|Hsome].
    { rewrite Hnone. apply stitch_size_nonneg. }
    pose proof (stitch_size_ge (unchanged ++ scattered)
                  (Z.of_nat (cells - 1), zero)) as Hge.
    simpl in Hge. etrans; [|apply Hge]; [lia|].
    apply elem_of_app. left. eapply list_elem_of_lookup_2.
    apply unchanged_lookup_lt. lia.
Qed.

Local Abbreviation merged :=
  (apply_writes (replicate cells uninit) (unchanged ++ scattered)).

(** The call stitches the scattered weights over the zeros and reshapes
    the result. *)
Lemma scatter_nd_run :
  _scatter_nd zero uninit enc_batch batch_size batch_nums extended_vsize copy_dist
  = tf_reshape2 merged batch_size extended_vsize.
Proof.
  unfold _scatter_nd, tf_zeros.
  destruct (Z.ltb_spec batch_size 0); [lia|].
  destruct (Z.ltb_spec extended_vsize 0); [lia|]. simpl orb. cbv iota. returned.
  unfold tf_flatten at 1 2. simpl rows. rewrite concat_replicate_replicate.
  rewrite tf_add_same_length
    by (unfold tf_mul_scalar; by rewrite length_fmap).
  returned. unfold tf_size. rewrite len_replicate, cells_exact.
  unfold tf_dynamic_stitch.
  rewrite decide_True.
  2:{ simpl. unfold tf_range, tf_mul_scalar.
      rewrite length_seqZ, !length_replicate, length_zip_with, length_fmap.
      f_equal; [lia|]. f_equal. lia. }
  cbv zeta. simpl concat. rewrite app_nil_r.
  replace (forallb _ _) with true.
  2:{ symmetry. apply List.forallb_forall. intros w Hw.
      apply list_elem_of_In in Hw.
      pose proof (proj1 (Forall_forall _ _) writes_in_range w Hw) as Hrange.
      simpl in Hrange. apply Z.leb_le. lia. }
  returned. rewrite stitch_size_cells, Nat2Z.id.
  apply bind_ret.
Qed.

Lemma length_merged : length merged = cells.
Proof. by rewrite length_apply_writes, length_replicate. Qed.

(** A cell that no position names is zero. *)
Lemma merged_untouched (r c : Z) :
  0 <= r < batch_size →
  0 <= c < extended_vsize →
  (∀ k, ¬ (row_of !! k = Some r ∧ col_of !! k = Some c)) →
  merged !! Z.to_nat (r * extended_vsize + c) = Some zero.
Proof.
  intros Hr Hc Hfree.
  assert (Hcell : (Z.to_nat (r * extended_vsize + c) < cells)%nat) by nia.
  apply (apply_writes_lookup_last _ _ (Z.to_nat (r * extended_vsize + c))).
  - rewrite lookup_app_l by (by rewrite length_unchanged).
    rewrite unchanged_lookup_lt by done. f_equal. f_equal. lia.
  - intros q w Hq Hw. apply lookup_app_Some in Hw as [Hw|[Hge Hw]].
    + apply unchanged_lookup in Hw as [-> _]. simpl. lia.
    + apply scattered_lookup in Hw
        as (r' & c' & v & Hr' & Hc' & _ & -> & _ & Hrange).
      simpl. intros Heq. apply flat_index_inj in Heq as [-> ->]; [|done..].
      by eapply Hfree.
  - eapply Forall_impl; [exact writes_in_range|]. simpl. intros w Hw. lia.
  - by rewrite length_replicate.
Qed.

(** A cell holds the weight of the last position that names it. *)
Lemma merged_last_write (k : nat) (r c : Z) (v : float32) :
  row_of !! k = Some r →
  col_of !! k = Some c →
  weight_of !! k = Some v →
  (∀ k', (k < k')%nat → ¬ (row_of !! k' = Some r ∧ col_of !! k' = Some c)) →
  merged !! Z.to_nat (r * extended_vsize + c) = Some v.
Proof.
  intros Hr Hc Hv Hlast.
  pose proof (Forall_lookup_1 _ _ _ _ rows_in_range Hr) as Hr'.
  pose proof (Forall_lookup_1 _ _ _ _ cols_in_range Hc) as Hc'. simpl in Hr', Hc'.
  assert (Hcell : (Z.to_nat (r * extended_vsize + c) < cells)%nat) by nia.
  apply (apply_writes_lookup_last _ _ (cells + k)).
  - rewrite lookup_app_r by (rewrite length_unchanged; lia).
    rewrite length_unchanged.
    replace (cells + k - cells)%nat with k by lia.
    by apply scattered_lookup_Some.
  - intros q w Hq Hw. apply lookup_app_Some in Hw as [Hw|[Hge Hw]].
    + apply unchanged_lookup in Hw as [_ Hlt]. lia.
    + rewrite length_unchanged in Hge, Hw.
      apply scattered_lookup in Hw
        as (r' & c' & v' & Hrow & Hcol & _ & -> & _ & Hrange).
      simpl. intros Heq. apply flat_index_inj in Heq as [-> ->]; [|done..].
      eapply (Hlast (q - cells)%nat); [lia|done].
  - eapply Forall_impl; [exact writes_in_range|]. simpl. intros w Hw. lia.
  - by rewrite length_replicate.
Qed.

End ScatterFacts.

(** C9, as the code has it: for [enc_batch], [batch_nums] and [copy_dist]
    of one flattened length, with entries of [batch_nums] in
    [0, batch_size) and entries of [enc_batch] in [0, extended_vsize),
    with [batch_size] and [extended_vsize] in the range of int32 and
    fewer than [2^31] cells, so that the int32 flat indices do not wrap
    around, [_scatter_nd] returns a matrix of [batch_size] rows and
    [extended_vsize] columns.  A cell that no flat position names is
    zero.
    A cell [(batch_nums[k], enc_batch[k])] holds [copy_dist[k]] for the
    last position [k] that names it: a later write to a cell replaces an
    earlier one, the weights are not added up. *)
Theorem scatter_nd_spec {float32 : Type} (zero uninit : float32)
    (enc_batch batch_nums : Tensor2 Z) (copy_dist : Tensor2 float32)
    (batch_size extended_vsize : Z) :
  0 <= batch_size < 2 ^ 31 →
  0 <= extended_vsize < 2 ^ 31 →
  batch_size * extended_vsize < 2 ^ 31 →
  length (tf_flatten enc_batch) = length (tf_flatten batch_nums) →
  length (tf_flatten copy_dist) = length (tf_flatten batch_nums) →
  Forall (λ c, 0 <= c < extended_vsize) (tf_flatten enc_batch) →
  Forall (λ r, 0 <= r < batch_size) (tf_flatten batch_nums) →
  ∃ out,
    _scatter_nd zero uninit enc_batch batch_size batch_nums extended_vsize copy_dist
    = Ok out
    ∧ Tensor2_wf out
    ∧ shape0 out = batch_size
    ∧ shape1 out = extended_vsize
    ∧ (∀ r c,
         0 <= r < batch_size → 0 <= c < extended_vsize →
         (∀ k, ¬ (tf_flatten batch_nums !! k = Some r
                  ∧ tf_flatten enc_batch !! k = Some c)) →
         entry out r c = Some zero)
    ∧ (∀ k r c v,
         tf_flatten batch_nums !! k = Some r →
         tf_flatten enc_batch !! k = Some c →
         tf_flatten copy_dist !! k = Some v →
         (∀ k', (k < k')%nat →
                ¬ (tf_flatten batch_nums !! k' = Some r
                   ∧ tf_flatten enc_batch !! k' = Some c)) →
         entry out r c = Some v).
Proof.
  intros [Hrows _] [Hcols _] Hcells Hlen Hlen' Hc Hr.
  rewrite scatter_nd_run by done.
  destruct (tf_reshape2_entry
              (apply_writes
                 (replicate (Z.to_nat batch_size * Z.to_nat extended_vsize) uninit)
                 (zip (tf_range (Z.of_nat (Z.to_nat batch_size * Z.to_nat extended_vsize)))
                      (replicate (Z.to_nat batch_size * Z.to_nat extended_vsize) zero)
                  ++ zip (zip_with add32
                            (tf_mul_scalar (tf_flatten batch_nums) extended_vsize)
                            (tf_flatten enc_batch))
                         (tf_flatten copy_dist)))
              batch_size extended_vsize Hrows Hcols)
    as (out & Hout & Hwf & Hs0 & Hs1 & Hentry).
  { unfold len. rewrite length_merged. nia. }
  exists out. split; [exact Hout|]. do 3 (split; [done|]). split.
  - intros r c Hr' Hc' Hfree. rewrite Hentry by done.
    by apply merged_untouched.
  - intros k r c v Hrow Hcol Hv Hlast.
    pose proof (Forall_lookup_1 _ _ _ _ Hr Hrow) as Hr'.
    pose proof (Forall_lookup_1 _ _ _ _ Hc Hcol) as Hc'. simpl in Hr', Hc'.
    rewrite Hentry by done.
    by eapply merged_last_write.
Qed.

(** Two positions of one row that name different columns. *)
Lemma scatter_nd_spec_witness :
  let enc_batch := mkTensor2 1 2 [[1; 2]] in
  let batch_nums := mkTensor2 1 2 [[0; 0]] in
  let copy_dist := mkTensor2 1 2 [[30; 70]] in
  0 <= 1 < 2 ^ 31 ∧ 0 <= 3 < 2 ^ 31 ∧ 1 * 3 < 2 ^ 31
  ∧ length (tf_flatten enc_batch) = length (tf_flatten batch_nums)
  ∧ length (tf_flatten copy_dist) = length (tf_flatten batch_nums)
  ∧ Forall (λ c, 0 <= c < 3) (tf_flatten enc_batch)
  ∧ Forall (λ r, 0 <= r < 1) (tf_flatten batch_nums)
  ∧ ∃ out, _scatter_nd 0 (-1) enc_batch 1 batch_nums 3 copy_dist = Ok out
           ∧ entry out 0 0 = Some 0
           ∧ entry out 0 2 = Some 70.
Proof.
  intros enc_batch batch_nums copy_dist.
  assert (Hc : Forall (λ c, 0 <= c < 3) (tf_flatten enc_batch))
    by (repeat constructor; lia).
  assert (Hr : Forall (λ r, 0 <= r < 1) (tf_flatten batch_nums))
    by (repeat constructor; lia).
  do 3 (split; [lia|]). do 2 (split; [reflexivity|]). do 2 (split; [assumption|]).
  destruct (scatter_nd_spec 0 (-1) enc_batch batch_nums copy_dist 1 3)
    as (out & Hrun & _ & _ & _ & Hzero & Hlast); try done.
  exists out. split; [exact Hrun|]. split.
  - apply Hzero; [lia..|].
    intros [|[|k]] [Hrow Hcol]; vm_compute in Hrow, Hcol; congruence.
  - apply (Hlast 1%nat); [reflexivity..|].
    intros [|[|k']] Hk' [Hrow Hcol]; [lia..|]. vm_compute in Hrow. congruence.
Defined.

(** C9 as it is worded fails: positions 0 and 1 both name cell [(0, 5)];
    the cell holds the weight 70 of position 1, not the weight 30 of
    position 0. *)
Lemma scatter_nd_duplicate_counterexample :
  let enc_batch := mkTensor2 1 2 [[5; 5]] in
  let batch_nums := mkTensor2 1 2 [[0; 0]] in
  let copy_dist := mkTensor2 1 2 [[30; 70]] in
  ∃ out,
    _scatter_nd 0 (-1) enc_batch 1 batch_nums 6 copy_dist = Ok out
    ∧ ¬ (∀ k r c v,
           tf_flatten batch_nums !! k = Some r →
           tf_flatten enc_batch !! k = Some c →
           tf_flatten copy_dist !! k = Some v →
           entry out r c = Some v).
Proof.
  eexists. split; [vm_compute; reflexivity|].
  intros Hclaim. specialize (Hclaim O 0 5 30 eq_refl eq_refl eq_refl).
  vm_compute in Hclaim. congruence.
Qed.

(** ** while loops *)

(** Total correctness of a [while] loop: with an invariant [I] and a
    variant [μ] that the fuel covers, the loop ends in a state that
    satisfies [Q], whether it leaves by its condition or by a [break]. *)
Lemma while_total {St} (I Q : St → Prop) (μ : St → nat)
    (cond : St → bool) (body : St → result (ctl St)) :
  (∀ s, I s → cond s = false → Q s) →
  (∀ s, I s → cond s = true →
        ∃ c, body s = Ok c
             ∧ match c with
               | Continue s' => I s' ∧ (μ s' < μ s)%nat
               | Break s' => Q s'
               end) →
  ∀ fuel s, I s → (μ s < fuel)%nat →
            ∃ s', while fuel cond body s = Ok s' ∧ Q s'.
Proof.
  intros Hexit Hbody fuel. induction fuel as [|fuel IH]; intros s Hs Hfuel; [lia|].
  simpl. destruct (cond s) eqn:Hcond.
  - destruct (Hbody s Hs Hcond) as (c & -> & Hc). returned.
    destruct c as [s'|s'].
    + destruct Hc as [Hs' Hlt]. apply IH; [done|lia].
    + by exists s'.
  - exists s. split; [done|]. by apply Hexit.
Qed.

(** ** readline *)

Lemma readline_length (unread : string) :
  (String.length (readline unread).1 + String.length (readline unread).2
   = String.length unread)%nat.
Proof.
  induction unread as [|c rest IH]; simpl; [done|].
  destruct (Ascii.eqb c "010"); simpl; [done|].
  destruct (readline rest) as [line rest']. simpl in *. lia.
Qed.

Lemma readline_truthy (unread : string) :
  truthy (readline unread).1 = truthy unread.
Proof.
  destruct unread as [|c rest]; simpl; [done|].
  destruct (Ascii.eqb c "010"); [done|]. by destruct (readline rest).
Qed.

Lemma truthy_length (s : string) : truthy s = true → (0 < String.length s)%nat.
Proof. destruct s; simpl; [done|lia]. Qed.

(** ** sorted *)

Section Sorted.
Context {A : Type} (key : A → Z).

Local Abbreviation le_key := (λ x y : A, key x <= key y).

Lemma insert_by_Permutation (x : A) (l : list A) : insert_by key x l ≡ₚ x :: l.
Proof.
  induction l as [|y l IH]; simpl; [done|].
  destruct (key x <=? key y); [done|].
  rewrite IH. apply Permutation_swap.
Qed.


Lemma sorted_Permutation (l : list A) : sorted l key ≡ₚ l.
Proof.
  induction l as [|x l IH]; simpl; [done|].
  unfold sorted in *. simpl. by rewrite insert_by_Permutation, IH.
Qed.




Lemma length_sorted (l : list A) : length (sorted l key) = length l.
Proof. by rewrite sorted_Permutation. Qed.

End Sorted.

(** ** Slicing a list into groups *)

Section Groups.
Context {A : Type}.
Implicit Types (l : list A) (batch_size : Z).

Lemma xrange_pos (stop step : Z) :
  1 <= step →
  xrange stop step = Ok ((λ k, k * step) <$> seqZ 0 ((stop + step - 1) `div` step)).
Proof.
  intros Hstep. unfold xrange.
  destruct (Z.eqb_spec step 0); [lia|]. by destruct (Z.ltb_spec step 0); [lia|].
Qed.

(** The slices that [refill] takes are the groups of the list. *)
Lemma slices_groups_of l batch_size :
  1 <= batch_size →
  (λ batch_start, slice l batch_start (batch_start + batch_size))
  <$> ((λ k, k * batch_size) <$> seqZ 0 ((len l + batch_size - 1) `div` batch_size))
  = groups_of batch_size l.
Proof.
  intros Hbs. unfold groups_of, seqZ. rewrite <- !list_fmap_compose.
  apply list_fmap_ext. intros _ i _. simpl. unfold slice.
  replace (Z.to_nat ((Z.of_nat i + 0) * batch_size + batch_size)
           - Z.to_nat ((Z.of_nat i + 0) * batch_size))%nat
    with (Z.to_nat batch_size) by nia.
  by replace (Z.to_nat ((Z.of_nat i + 0) * batch_size))
    with (i * Z.to_nat batch_size)%nat by nia.
Qed.

Lemma concat_takes l (b q : nat) :
  concat ((λ i, take b (drop (i * b) l)) <$> seq 0 q) = take (q * b) l.
Proof.
  induction q as [|q IH]; [done|].
  rewrite seq_S, fmap_app, concat_app, IH. simpl.
  rewrite app_nil_r, take_take_drop. f_equal. lia.
Qed.

(** The number of groups: the length divided by [batch_size], rounded up. *)
Lemma groups_count l batch_size :
  1 <= batch_size →
  let q := (len l + batch_size - 1) `div` batch_size in
  0 <= q ∧ len l <= q * batch_size < len l + batch_size.
Proof.
  intros Hbs q. pose proof (len_nonneg l) as Hl.
  pose proof (Z.mul_div_le (len l + batch_size - 1) batch_size ltac:(lia)) as Hle.
  pose proof (Z.mul_succ_div_gt (len l + batch_size - 1) batch_size ltac:(lia)) as Hgt.
  fold q in Hle, Hgt.
  assert (0 <= q) by (apply Z.div_pos; lia). lia.
Qed.

Lemma concat_groups_of l batch_size :
  1 <= batch_size → concat (groups_of batch_size l) = l.
Proof.
  intros Hbs. unfold groups_of. rewrite concat_takes.
  destruct (groups_count l batch_size Hbs) as (Hq & Hle & _).
  apply take_ge. unfold len in *. nia.
Qed.

Lemma groups_of_lookup l batch_size (i : nat) (g : list A) :
  1 <= batch_size →
  groups_of batch_size l !! i = Some g →
  g = take (Z.to_nat batch_size) (drop (i * Z.to_nat batch_size) l)
  ∧ g ≠ [] ∧ len g <= batch_size.
Proof.
  intros Hbs Hg. unfold groups_of in Hg.
  apply list_lookup_fmap_Some in Hg as (j & -> & Hj).
  apply lookup_seq in Hj as [-> Hlt]. simpl in *.
  destruct (groups_count l batch_size Hbs) as (Hq & _ & Hgt).
  split; [done|]. unfold len in *.
  assert (Hlen : length (take (Z.to_nat batch_size) (drop (i * Z.to_nat batch_size) l))
                 = Nat.min (Z.to_nat batch_size) (length l - i * Z.to_nat batch_size))
    by (by rewrite length_take, length_drop).
  split; [|lia].
  intros Hnil. rewrite Hnil in Hlen. simpl in Hlen. nia.
Qed.

Lemma length_groups_of l batch_size :
  1 <= batch_size → (length (groups_of batch_size l) <= length l)%nat.
Proof.
  intros Hbs. unfold groups_of. rewrite length_fmap, length_seq.
  destruct (groups_count l batch_size Hbs) as (Hq & _ & Hgt).
  unfold len in *. nia.
Qed.

End Groups.

(** ** The lines of a file *)

Lemma readlines_upto_fuel (n m : nat) (unread : string) :
  (String.length unread <= n)%nat →
  (String.length unread <= m)%nat →
  readlines_upto n unread = readlines_upto m unread.
Proof.
  revert m unread.
  induction n as [|n IH]; intros m unread Hn Hm.
  - destruct unread; [by destruct m|simpl in Hn; lia].
  - destruct unread as [|c rest]; [by destruct m|].
    destruct m as [|m]; [simpl in Hm; lia|].
    cbn [readlines_upto truthy].
    pose proof (readline_length (String c rest)) as Hlen.
    pose proof (readline_truthy (String c rest)) as Htrue.
    destruct (readline (String c rest)) as [line rest'].
    simpl in Hlen, Htrue, Hn, Hm. apply truthy_length in Htrue.
    f_equal. apply IH; lia.
Qed.

Lemma readlines_upto_enough (n : nat) (unread : string) :
  (String.length unread <= n)%nat →
  readlines_upto n unread = readlines unread.
Proof. intros Hn. by apply readlines_upto_fuel. Qed.

Lemma readlines_unfold (unread : string) :
  readlines unread
  = if truthy unread
    then (readline unread).1 :: readlines (readline unread).2
    else [].
Proof.
  destruct unread as [|c rest]; [done|].
  unfold readlines at 1. cbn [readlines_upto String.length truthy].
  pose proof (readline_length (String c rest)) as Hlen.
  pose proof (readline_truthy (String c rest)) as Htrue.
  destruct (readline (String c rest)) as [line rest'].
  simpl in Hlen, Htrue. apply truthy_length in Htrue. simpl.
  f_equal. apply readlines_upto_enough. lia.
Qed.

Lemma line_pairs_unfold (fdx fdy : string) :
  line_pairs fdx fdy
  = if truthy (readline fdx).1 && truthy (readline fdy).1
    then ((readline fdx).1, (readline fdy).1)
         :: line_pairs (readline fdx).2 (readline fdy).2
    else [].
Proof.
  unfold line_pairs. rewrite (readlines_unfold fdx), (readlines_unfold fdy).
  rewrite !readline_truthy.
  by destruct (truthy fdx), (truthy fdy).
Qed.

(** At the end of one of the files no pair is left. *)
Lemma line_pairs_eof (fdx fdy : string) :
  truthy (readline fdx).1 && truthy (readline fdy).1 = false →
  line_pairs (readline fdx).2 (readline fdy).2 = [].
Proof.
  rewrite !readline_truthy. unfold line_pairs. intros Heof.
  destruct fdx as [|c fdx]; [done|]. destruct fdy as [|d fdy]; [|done].
  simpl. by destruct (readlines _).
Qed.

Lemma drop_cons_inv {A} (l k : list A) (n : nat) (x : A) :
  drop n l = x :: k →
  l !! n = Some x ∧ drop (S n) l = k ∧ take (S n) l = take n l ++ [x]
  ∧ (n < length l)%nat.
Proof.
  intros Hdrop.
  assert (Hx : l !! n = Some x).
  { rewrite <- (Nat.add_0_r n), <- lookup_drop, Hdrop. done. }
  split; [done|]. split; [|split; [by apply take_S_r|by eapply lookup_lt_Some]].
  replace (S n) with (n + 1)%nat by lia. rewrite <- drop_drop, Hdrop. done.
Qed.

(** ** The reading loop of refill *)

Section Reading.
Context {word : Type} `{Vocabulary word} {RandomState : Type}.
Variables (hps : HParams) (w : World RandomState).
Hypothesis batch_pos : 1 <= batch_size hps.
Hypothesis dec_steps : 0 <= max_dec_steps hps.
Hypothesis aligned : pointer_gen hps = true → article2ids_aligned.

Local Abbreviation fdx0 := (fdx w).
Local Abbreviation warnings0 := (warnings w).
Local Abbreviation ps := (line_pairs (fdx w) (fdy w)).

(** The invariant of the loop after [n] pairs. *)
Local Abbreviation reading_inv := (λ s : Reading word,
  ∃ n : nat,
    (n <= length ps)%nat
    ∧ pending s = drop n ps
    ∧ (lines_left s = false → line_pairs (rd_fdx s) (rd_fdy s) = [])
    ∧ Forall2 (example_of hps) (filter has_article (take n ps)) (inputs s)
    ∧ rd_warnings s
      = warnings0
        ++ replicate (length (filter (λ p, ¬ has_article p) (take n ps)))
             empty_article_warning
    ∧ len (inputs s) < batch_size hps * 16
    ∧ (length (inputs s) + String.length (linex s) + String.length (rd_fdx s)
       <= String.length fdx0)%nat
    ∧ Forall (Example_fresh hps) (inputs s)).

(** What the loop has established when it ends. *)
Local Abbreviation reading_post := (λ s : Reading word,
  (∃ n, has_read hps ps warnings0 n s)
  ∧ (length (inputs s) + String.length (rd_fdx s) <= String.length fdx0)%nat
  ∧ Forall (Example_fresh hps) (inputs s)).

Lemma pending_read_pair (inputs : list (Example word)) (fdx fdy : string)
    (warnings : list string) :
  pending (read_pair inputs fdx fdy warnings) = line_pairs fdx fdy
  ∧ (lines_left (read_pair inputs fdx fdy warnings) = false →
     line_pairs (rd_fdx (read_pair inputs fdx fdy warnings))
                (rd_fdy (read_pair inputs fdx fdy warnings)) = [])
  ∧ (String.length (linex (read_pair inputs fdx fdy warnings))
     + String.length (rd_fdx (read_pair inputs fdx fdy warnings))
     = String.length fdx)%nat.
Proof.
  pose proof (line_pairs_unfold fdx fdy) as Hunfold.
  pose proof (line_pairs_eof fdx fdy) as Heof.
  pose proof (readline_length fdx) as Hlen.
  unfold read_pair, pending, lines_left.
  destruct (readline fdx) as [lx rx], (readline fdy) as [ly ry]. simpl in *.
  by rewrite Hunfold.
Qed.


Lemma read_pair_inputs (exs : list (Example word)) (fx fy : string)
    (ws : list string) :
  inputs (read_pair exs fx fy ws) = exs
  ∧ rd_warnings (read_pair exs fx fy ws) = ws.
Proof. unfold read_pair. by destruct (readline fx), (readline fy). Qed.

Lemma filter_snoc_True {A} (P : A → Prop) `{∀ x, Decision (P x)} (l : list A) (x : A) :
  P x → filter P (l ++ [x]) = filter P l ++ [x].
Proof. intros Hx. by rewrite filter_app, filter_cons_True, filter_nil. Qed.

Lemma filter_snoc_False {A} (P : A → Prop) `{∀ x, Decision (P x)} (l : list A) (x : A) :
  ¬ P x → filter P (l ++ [x]) = filter P l.
Proof.
  intros Hx. by rewrite filter_app, filter_cons_False, filter_nil, app_nil_r.
Qed.

(** The loop ends, and when it ends it has read a prefix of the pairs of
    lines. *)
Lemma read_loop_total (fuel : nat) (s : Reading word) :
  reading_inv s →
  (String.length (linex s) + String.length (rd_fdx s) < fuel)%nat →
  ∃ s', while fuel lines_left (read_body hps) s = Ok s' ∧ reading_post s'.
Proof.
  apply (while_total reading_inv reading_post
           (λ s, (String.length (linex s) + String.length (rd_fdx s))%nat)).
  - (* the loop ends by its condition *)
    clear s. intros s (n & Hn & Hpend & Heof & Hexs & Hwarn & Hlim & Hlen & Hfresh) Hcond.
    unfold pending in Hpend. rewrite Hcond in Hpend.
    assert (n = length ps) as Hall.
    { symmetry in Hpend. apply drop_nil_inv in Hpend. unfold ps in *. lia. }
    split; [|split; [lia|done]].
    exists n. unfold has_read. rewrite Heof, <- Hpend by done.
    repeat split; try done. by right.
  - (* one round *)
    clear s. intros s (n & Hn & Hpend & Heof & Hexs & Hwarn & Hlim & Hlen & Hfresh) Hcond.
    unfold pending in Hpend. rewrite Hcond in Hpend. symmetry in Hpend.
    apply drop_cons_inv in Hpend as (Hp & Hrest & Htake & Hlt).
    assert (Hline : (0 < String.length (linex s))%nat).
    { apply truthy_length. unfold lines_left in Hcond.
      by apply andb_true_iff in Hcond as [? _]. }
    unfold read_body.
    destruct (Z.eqb_spec (len (remove_nonascii (linex s))) 0) as [Hempty|Harticle].
    + (* an empty article: a warning, and the next pair *)
      eexists. split; [reflexivity|].
      destruct (pending_read_pair (inputs s) (rd_fdx s) (rd_fdy s)
                  (rd_warnings s ++ [empty_article_warning])) as (Hpend' & Heof' & Hlen').
      destruct (read_pair_inputs (inputs s) (rd_fdx s) (rd_fdy s)
                  (rd_warnings s ++ [empty_article_warning])) as [Hin Hw].
      split; [|lia].
      exists (S n). rewrite Hpend', Hin, Hw, Htake.
      rewrite filter_snoc_False by (unfold has_article; simpl; tauto).
      rewrite filter_snoc_True by (unfold has_article; simpl; tauto).
      rewrite length_app, Nat.add_1_r, replicate_S_end, app_assoc, <- Hwarn.
      repeat split; try done; lia.
    + (* an article: one more example *)
      destruct (Example_init_Ok (remove_nonascii (linex s)) (remove_nonascii (liney s))
                  hps dec_steps aligned) as (ex & Hex & Hfresh' & _).
      rewrite Hex. returned.
      assert (Hexs' : Forall2 (example_of hps)
                        (filter has_article (take (S n) ps)) (inputs s ++ [ex])).
      { rewrite Htake, filter_snoc_True by (unfold has_article; simpl; tauto).
        apply Forall2_app; [done|]. by repeat constructor. }
      assert (Hwarn' : rd_warnings s
                = warnings0
                  ++ replicate (length (filter (λ p, ¬ has_article p) (take (S n) ps)))
                       empty_article_warning).
      { rewrite Htake, filter_snoc_False by (unfold has_article; simpl; tauto). done. }
      assert (Hfresh'' : Forall (Example_fresh hps) (inputs s ++ [ex]))
        by (apply Forall_app; split; [done|by apply Forall_singleton]).
      rewrite len_app, len_cons, len_nil in *.
      destruct (Z.eqb_spec (len (inputs s) + (1 + 0)) (batch_size hps * 16)) as [Hfull|Hroom].
      * (* the limit is reached: break *)
        eexists. split; [reflexivity|]. simpl.
        split; [|split; [rewrite length_app; simpl; lia|done]].
        exists (S n). unfold has_read. simpl.
        rewrite len_app, len_cons, len_nil.
        repeat split; try done. by left.
      * eexists. split; [reflexivity|].
        destruct (pending_read_pair (inputs s ++ [ex]) (rd_fdx s) (rd_fdy s)
                    (rd_warnings s)) as (Hpend' & Heof' & Hlen').
        destruct (read_pair_inputs (inputs s ++ [ex]) (rd_fdx s) (rd_fdy s)
                    (rd_warnings s)) as [Hin Hw].
        split; [|lia].
        exists (S n). rewrite Hpend', Hin, Hw.
        rewrite len_app, len_cons, len_nil, length_app. simpl.
        repeat split; try done; lia.
Qed.

(** The reading loop of [refill] returns, having read a prefix of the
    pairs of lines that the files hold. *)
Lemma read_inputs_spec :
  ∃ s, read_inputs hps w = Ok s ∧ reading_post s.
Proof.
  unfold read_inputs.
  destruct (pending_read_pair [] (fdx w) (fdy w) (warnings w)) as (Hpend & Heof & Hlen).
  destruct (read_pair_inputs [] (fdx w) (fdy w) (warnings w)) as [Hin Hw].
  apply read_loop_total; [|lia].
  exists O. rewrite Hpend, Hin, Hw, take_0, drop_0. simpl.
  rewrite app_nil_r, len_nil.
  repeat split; try done; lia.
Qed.


End Reading.

(** ** refill when the mode is not 'decode' *)

Section Refill.
Context {word : Type} `{Vocabulary word}.
Context {RandomState : Type} `{NumpyRandom RandomState}.
Variables (self : Batcher word) (w : World RandomState).

Local Abbreviation hps := (_hps self).

Hypothesis batch_pos : 1 <= batch_size hps.
Hypothesis dec_steps : 0 <= max_dec_steps hps.
Hypothesis aligned : pointer_gen hps = true → article2ids_aligned.

(** Every group of fresh examples becomes a Batch. *)
Lemma batches_built (groups : list (list (Example word))) (acc : list (Batch word)) :
  Forall (λ g, g ≠ [] ∧ len g <= batch_size hps ∧ Forall (Example_fresh hps) g) groups →
  for_each groups (λ b bs, '(_, batch) ← Batch_init b hps; Ok (bs ++ [batch])) acc
  = Ok (acc ++ (stacked_batch hps <$> groups)).
Proof.
  intros Hgroups. revert acc.
  induction Hgroups as [|g groups (Hne & Hfits & Hfresh) _ IH]; intros acc;
    cbn [for_each fmap list_fmap].
  - by rewrite app_nil_r.
  - rewrite Batch_init_fresh by done. returned. returned.
    rewrite IH, <- app_assoc. done.
Qed.

Lemma groups_of_fresh (examples : list (Example word)) :
  Forall (Example_fresh hps) examples →
  Forall (λ g, g ≠ [] ∧ len g <= batch_size hps ∧ Forall (Example_fresh hps) g)
    (groups_of (batch_size hps) examples).
Proof.
  intros Hfresh. apply Forall_lookup. intros i g Hg.
  apply groups_of_lookup in Hg as (-> & Hne & Hlen); [|done].
  split; [done|]. split; [done|]. by apply Forall_take, Forall_drop.
Qed.

(** The examples that [refill] slices: sorted by [enc_len] unless
    [single_pass]. *)
Local Abbreviation arranged := (λ inputs : list (Example word),
  if _single_pass self then inputs else sorted inputs enc_len).

(** The batches after the shuffle, if there is one. *)
Local Abbreviation shuffled := (λ bs : list (Batch word),
  if _single_pass self then (bs, random_state w)
  else np_random_shuffle (random_state w) bs).

Lemma refill_train :
  mode hps ≠ "decode" →
  ∃ s n,
    read_inputs hps w = Ok s
    ∧ has_read hps (line_pairs (fdx w) (fdy w)) (warnings w) n s
    ∧ (length (inputs s) + String.length (rd_fdx s) <= String.length (fdx w))%nat
    ∧ Forall (Example_fresh hps) (inputs s)
    ∧ refill self w
      = let new := stacked_batch hps <$> groups_of (batch_size hps) (arranged (inputs s)) in
        Ok (set_batches self (shuffled (batches self ++ new)).1,
            {| fdx := rd_fdx s; fdy := rd_fdy s; warnings := rd_warnings s;
               random_state := (shuffled (batches self ++ new)).2 |}).
Proof.
  intros Hmode.
  destruct (read_inputs_spec hps w batch_pos dec_steps aligned)
    as (s & Hread & [n Hn] & Hlen & Hfresh).
  exists s, n. do 4 (split; [done|]).
  unfold refill. apply String.eqb_neq in Hmode. rewrite Hmode. simpl negb. cbv iota.
  rewrite Hread. returned. cbv zeta.
  assert (Harr : (if negb (_single_pass self) then sorted (inputs s) enc_len else inputs s)
                 = arranged (inputs s)) by (by destruct (_single_pass self)).
  rewrite Harr.
  rewrite xrange_pos by done. returned.
  rewrite slices_groups_of by done.
  rewrite batches_built.
  2:{ apply groups_of_fresh. destruct (_single_pass self); [done|].
      by rewrite sorted_Permutation. }
  returned.
  destruct (_single_pass self); simpl; [done|].
  by destruct (np_random_shuffle _ _).
Qed.

End Refill.


Lemma reversing_permutes (g : nat) (l : list (Batch string)) :
  (np_random_shuffle g l).1 ≡ₚ l.
Proof. simpl. apply reverse_Permutation. Qed.


(** ** refill in 'decode' mode *)

Section RefillDecode.
Context {word : Type} `{Vocabulary word}.
Context {RandomState : Type} `{NumpyRandom RandomState}.
Variables (self : Batcher word) (w : World RandomState).

Local Abbreviation hps := (_hps self).
Local Abbreviation linex0 := ((readline (fdx w)).1).
Local Abbreviation liney0 := ((readline (fdy w)).1).

Hypothesis decode : mode hps = "decode".

(** No Batch can be made of an empty list of examples. *)
Lemma Batch_init_nil (hps' : HParams) :
  Batch_init (@nil (Example word)) hps' = Raise ValueError.
Proof. reflexivity. Qed.

(** At the end of one of the files the loop is not entered and the
    construction of the Batch raises. *)
Lemma refill_decode_eof :
  truthy linex0 && truthy liney0 = false →
  refill self w = Raise ValueError.
Proof.
  intros Heof. unfold refill. rewrite decode. simpl negb. cbv iota.
  destruct (readline (fdx w)) as [linex fdx'], (readline (fdy w)) as [liney fdy'].
  simpl in Heof.
  assert (Hloop : ∀ fuel,
            while fuel (λ _ : list (Example word), truthy linex && truthy liney)
              (decode_body hps linex liney) [] = Ok []).
  { intros fuel. destruct fuel; simpl; by rewrite Heof. }
  rewrite Hloop. returned. by rewrite Batch_init_nil.
Qed.

(** With a pair of lines the loop appends [batch_size] examples of that
    one pair. *)
Lemma decode_loop (linex liney : string) (ex : Example word) :
  1 <= batch_size hps →
  truthy linex && truthy liney = true →
  Example_init (remove_nonascii linex) (remove_nonascii liney) hps = Ok ex →
  while (Z.to_nat (batch_size hps)) (λ _, truthy linex && truthy liney)
    (decode_body hps linex liney) []
  = Ok (replicate (Z.to_nat (batch_size hps)) ex).
Proof.
  intros Hbs Hlines Hex.
  destruct (while_total
    (λ batch : list (Example word),
       batch = replicate (length batch) ex ∧ len batch < batch_size hps)
    (λ batch, batch = replicate (Z.to_nat (batch_size hps)) ex)
    (λ batch, (Z.to_nat (batch_size hps) - 1 - length batch)%nat)
    (λ _, truthy linex && truthy liney) (decode_body hps linex liney))
    with (fuel := Z.to_nat (batch_size hps)) (s := @nil (Example word))
    as (batch & Hrun & Hbatch).
  - intros batch _ Hcond. congruence.
  - intros batch [Hrep Hlt] _. unfold decode_body. rewrite Hex. returned.
    rewrite len_app, len_cons, len_nil.
    assert (Hsnoc : batch ++ [ex] = replicate (S (length batch)) ex)
      by (by rewrite replicate_S_end, <- Hrep).
    unfold len in *.
    destruct (Z.eqb_spec (Z.of_nat (length batch) + (1 + 0)) (batch_size hps)).
    + eexists. split; [reflexivity|]. simpl.
      rewrite Hsnoc. f_equal. lia.
    + eexists. split; [reflexivity|]. simpl.
      rewrite length_app. simpl. rewrite Nat.add_1_r.
      split; [split; [done|lia]|lia].
  - split; [done|]. rewrite len_nil. lia.
  - simpl. lia.
  - by rewrite Hrun, Hbatch.
Qed.

Lemma refill_decode_pair :
  1 <= batch_size hps →
  0 <= max_dec_steps hps →
  (pointer_gen hps = true → article2ids_aligned) →
  truthy linex0 && truthy liney0 = true →
  ∃ ex,
    Example_init (remove_nonascii linex0) (remove_nonascii liney0) hps = Ok ex
    ∧ Example_fresh hps ex
    ∧ enc_len ex = len (truncated_article hps (remove_nonascii linex0))
    ∧ Batch_init (replicate (Z.to_nat (batch_size hps)) ex) hps
      = Ok (padded (enc_len ex) (max_dec_steps hps) (word2id _PAD)
              <$> replicate (Z.to_nat (batch_size hps)) ex,
            stacked_batch hps (replicate (Z.to_nat (batch_size hps)) ex))
    ∧ refill self w
      = Ok (set_batches self
              (batches self
               ++ [stacked_batch hps (replicate (Z.to_nat (batch_size hps)) ex)]),
            {| fdx := (readline (fdx w)).2; fdy := (readline (fdy w)).2;
               warnings := warnings w; random_state := random_state w |}).
Proof.
  intros Hbs Hdec Haligned Hlines.
  destruct (Example_init_Ok (remove_nonascii linex0) (remove_nonascii liney0)
              hps Hdec Haligned) as (ex & Hex & Hfresh & Hlen & _).
  exists ex. do 3 (split; [done|]).
  assert (Hinit : Batch_init (replicate (Z.to_nat (batch_size hps)) ex) hps
            = Ok (padded (max_enc_len (replicate (Z.to_nat (batch_size hps)) ex))
                    (max_dec_steps hps) (word2id _PAD)
                    <$> replicate (Z.to_nat (batch_size hps)) ex,
                  stacked_batch hps (replicate (Z.to_nat (batch_size hps)) ex))).
  { apply Batch_init_fresh; [|rewrite len_replicate; lia|done|by apply Forall_replicate].
    intros Hnil. apply (f_equal length) in Hnil.
    rewrite length_replicate in Hnil. simpl in Hnil. lia. }
  assert (Hmax : max_enc_len (replicate (Z.to_nat (batch_size hps)) ex) = enc_len ex).
  { unfold max_enc_len. rewrite fmap_replicate. apply maximum_replicate. lia. }
  rewrite Hmax in Hinit. split; [exact Hinit|].
  unfold refill. rewrite decode. simpl negb. cbv iota.
  destruct (readline (fdx w)) as [linex fdx'], (readline (fdy w)) as [liney fdy'].
  simpl in *.
  rewrite (decode_loop linex liney ex) by done. returned.
  rewrite Hinit. returned. done.
Qed.

(** When [refill] returns in 'decode' mode it has appended a Batch. *)
Lemma refill_decode_batches (self' : Batcher word) (w' : World RandomState) :
  refill self w = Ok (self', w') → batches self' ≠ [].
Proof.
  unfold refill. rewrite decode. simpl negb. cbv iota.
  destruct (readline (fdx w)) as [linex fdx'], (readline (fdy w)) as [liney fdy'].
  destruct (while _ _ _ _) as [batch| |]; try done. returned.
  destruct (Batch_init batch hps) as [[padded_list b]| |]; try done. returned.
  intros [= <- _]. simpl. by destruct (batches self).
Qed.

End RefillDecode.

(** ** The generator of pair_iter *)

Section PairIter.
Context {word : Type} `{Vocabulary word}.
Context {RandomState : Type} `{NumpyRandom RandomState}.
Implicit Types (self : Batcher word) (w : World RandomState) (g : Generator).
Implicit Types (fs : string → option string).

(** How an iteration ends. *)
Local Abbreviation outcome := (λ r : list (Batch word) * Outcome
                                    * (Batcher word * World RandomState), r.1.2).

Lemma refill_hps self w self' w' :
  refill self w = Ok (self', w') →
  _hps self' = _hps self ∧ _single_pass self' = _single_pass self
  ∧ _data_path self' = _data_path self.
Proof.
  unfold refill. destruct (negb _).
  - destruct (read_inputs _ _) as [s| |]; try done. returned. cbv zeta.
    destruct (xrange _ _) as [starts| |]; try done. returned.
    destruct (for_each _ _ _) as [bs| |]; try done. returned.
    destruct (if negb (_single_pass self) then _ else _) as [bs' rs].
    by intros [= <- _].
  - destruct (readline (fdx w)) as [linex fdx'], (readline (fdy w)) as [liney fdy'].
    destruct (while _ _ _ _) as [batch| |]; try done. returned.
    destruct (Batch_init batch _) as [[padded_list b]| |]; try done. returned.
    by intros [= <- _].
Qed.

(** The first call of [next] on a generator that finds its two files
    behaves as a later call on a Batcher without batches. *)
Lemma pair_iter_next_Created fs self w (x y : string) :
  fs (_data_path self +:+ ".x.txt") = Some x →
  fs (_data_path self +:+ ".y.txt") = Some y →
  pair_iter_next fs Created self w
  = pair_iter_next fs Suspended (set_batches self [])
      {| fdx := x; fdy := y; warnings := warnings w; random_state := random_state w |}.
Proof. intros Hx Hy. unfold pair_iter_next, open. by rewrite Hx, Hy. Qed.

Lemma pair_iter_Created (fuel : nat) fs self w (x y : string) :
  fs (_data_path self +:+ ".x.txt") = Some x →
  fs (_data_path self +:+ ".y.txt") = Some y →
  (pair_iter fuel fs self w).1
  = (iterate fuel fs Suspended (set_batches self [])
       {| fdx := x; fdy := y; warnings := warnings w;
          random_state := random_state w |}).1.
Proof.
  intros Hx Hy. unfold pair_iter. destruct fuel as [|fuel]; [done|].
  cbn [iterate]. rewrite (pair_iter_next_Created fs self w x y) by done.
  by destruct (pair_iter_next _ _ _ _) as [[[[[b|] g'] self'] w']| |].
Qed.

Lemma pair_iter_Created_Returned (fuel : nat) fs self w (x y : string)
    (ys : list (Batch word)) (final : Batcher word * World RandomState) :
  fs (_data_path self +:+ ".x.txt") = Some x →
  fs (_data_path self +:+ ".y.txt") = Some y →
  iterate fuel fs Suspended (set_batches self [])
    {| fdx := x; fdy := y; warnings := warnings w; random_state := random_state w |}
  = (ys, Returned, final) →
  pair_iter fuel fs self w = (ys, Returned, final).
Proof.
  intros Hx Hy. unfold pair_iter. destruct fuel as [|fuel]; [done|].
  cbn [iterate]. rewrite (pair_iter_next_Created fs self w x y) by done.
  destruct (pair_iter_next _ _ _ _) as [[[[[b|] g'] self'] w']| |]; try done.
Qed.

(** A missing file: [open] raises on the first call of [next]. *)
Lemma pair_iter_missing_file (fuel : nat) fs self w :
  fs (_data_path self +:+ ".x.txt") = None
  ∨ fs (_data_path self +:+ ".y.txt") = None →
  pair_iter (S fuel) fs self w = ([], Raised IOError, (self, w)).
Proof.
  intros Hmissing. unfold pair_iter. cbn [iterate]. unfold pair_iter_next, open.
  destruct (fs (_data_path self +:+ ".x.txt")) as [x|]; [|done].
  destruct Hmissing as [?|Hy]; [done|]. by rewrite Hy.
Qed.

(** *** 'decode' mode *)

Lemma pair_iter_round_decode self w self' w' :
  mode (_hps self) = "decode" →
  pair_iter_round self w ≠ Ok (None, self', w').
Proof.
  intros Hdecode. unfold pair_iter_round.
  destruct (Z.eqb_spec (len (batches self)) 0) as [Hnone|Hsome].
  - destruct (refill self w) as [[self1 w1]| |] eqn:Hrefill; try done. returned.
    apply refill_decode_batches in Hrefill; [|done].
    by destruct (batches self1).
  - returned. destruct (batches self) eqn:Hb; [|done].
    by rewrite len_nil in Hsome.
Qed.

Lemma pair_iter_round_hps self w b self' w' :
  pair_iter_round self w = Ok (b, self', w') → _hps self' = _hps self.
Proof.
  unfold pair_iter_round.
  destruct (len (batches self) =? 0).
  - destruct (refill self w) as [[self1 w1]| |] eqn:Hrefill; try done. returned.
    apply refill_hps in Hrefill as (Hhps & _).
    destruct (batches self1); intros [= _ <- _]; done.
  - returned. destruct (batches self); intros [= _ <- _]; done.
Qed.

(** A call of [next] that returns has run one round of the loop. *)
Lemma pair_iter_next_inv fs g self w b g' self' w' :
  g ≠ Finished →
  pair_iter_next fs g self w = Ok (b, g', self', w') →
  ∃ self0 w0,
    pair_iter_round self0 w0 = Ok (b, self', w')
    ∧ _hps self0 = _hps self
    ∧ g' = if b is Some _ then Suspended else Finished.
Proof.
  intros Hg. unfold pair_iter_next. destruct g; [| |done].
  - destruct (open fs (_data_path self +:+ ".x.txt")) as [x| |]; try done. returned.
    destruct (open fs (_data_path self +:+ ".y.txt")) as [y| |]; try done. returned.
    destruct (pair_iter_round _ _) as [[[b' self1] w1]| |] eqn:Hround; try done.
    returned. intros [= -> <- <- <-]. eauto.
  - destruct (pair_iter_round _ _) as [[[b' self1] w1]| |] eqn:Hround; try done.
    returned. intros [= -> <- <- <-]. eauto.
Qed.

(** In 'decode' mode the iteration never ends by the return of the
    generator. *)
Lemma iterate_decode_not_Returned (fuel : nat) fs g self w :
  mode (_hps self) = "decode" →
  g ≠ Finished →
  outcome (iterate fuel fs g self w) ≠ Returned.
Proof.
  revert g self w. induction fuel as [|fuel IH]; intros g self w Hdecode Hg; [done|].
  cbn [iterate].
  destruct (pair_iter_next fs g self w) as [[[[[b|] g'] self'] w']| |] eqn:Hnext;
    try done.
  - (* a batch is yielded *)
    apply pair_iter_next_inv in Hnext as (self0 & w0 & Hround & Hhps & ->); [|done].
    apply pair_iter_round_hps in Hround.
    specialize (IH Suspended self' w' ltac:(congruence) ltac:(done)).
    by destruct (iterate fuel fs Suspended self' w') as [[ys out] final].
  - (* the generator would return: impossible *)
    apply pair_iter_next_inv in Hnext as (self0 & w0 & Hround & Hhps & ->); [|done].
    apply pair_iter_round_decode in Hround; [done|congruence].
Qed.

End PairIter.

Section PairIterRuns.
Context {word : Type} `{Vocabulary word}.
Context {RandomState : Type} `{NumpyRandom RandomState}.
Variables (fs : string → option string) (hps0 : HParams).
Hypothesis batch_pos : 1 <= batch_size hps0.
Hypothesis dec_steps : 0 <= max_dec_steps hps0.
Hypothesis aligned : pointer_gen hps0 = true → article2ids_aligned.
Implicit Types (self : Batcher word) (w : World RandomState).

(** In 'decode' mode every call of [next] yields the batch of one pair of
    lines, [batch_size] times the example of the pair, until the call at
    the end of a file, which raises. *)
Lemma iterate_decode_raises (fuel : nat) self w :
  mode hps0 = "decode" →
  _hps self = hps0 →
  batches self = [] →
  (String.length (fdx w) < fuel)%nat →
  ∃ ys final,
    iterate fuel fs Suspended self w = (ys, Raised ValueError, final)
    ∧ Forall2 (λ p b, ∃ ex, example_of hps0 p ex
                            ∧ b = stacked_batch hps0
                                    (replicate (Z.to_nat (batch_size hps0)) ex))
        (line_pairs (fdx w) (fdy w)) ys.
Proof.
  intros Hdecode. revert self w.
  induction fuel as [|fuel IH]; intros self w Hhps Hnone Hfuel; [lia|].
  cbn [iterate]. unfold pair_iter_next, pair_iter_round.
  rewrite Hnone, len_nil. simpl Z.eqb. cbv iota.
  rewrite (line_pairs_unfold (fdx w) (fdy w)).
  destruct (truthy (readline (fdx w)).1 && truthy (readline (fdy w)).1) eqn:Hlines.
  - destruct (refill_decode_pair self w) as (ex & Hex & _ & _ & _ & ->);
      rewrite ?Hhps; try done.
    returned. rewrite Hnone. cbn [app batches set_batches]. returned.
    apply andb_true_iff in Hlines as [Hx _]. apply truthy_length in Hx.
    pose proof (readline_length (fdx w)) as Hlen.
    match goal with
    | |- context [iterate fuel fs Suspended ?self' ?w'] =>
        destruct (IH self' w' Hhps eq_refl ltac:(simpl; lia))
          as (ys & final & -> & Hys)
    end.
    eexists _, _. split; [reflexivity|].
    constructor; [|exact Hys]. exists ex. split; [|done].
    unfold example_of. simpl. by rewrite <- Hhps.
  - rewrite refill_decode_eof by (by rewrite ?Hhps).
    eexists _, _. split; [reflexivity|]. constructor.
Qed.

End PairIterRuns.

(** ** The fuel of the loops of refill *)

(** A loop whose rounds lower a variant that the fuel covers does not
    run out of fuel, whether its body returns or raises. *)
Lemma while_fuel {St} (μ : St → nat) (cond : St → bool) (body : St → result (ctl St)) :
  (∀ s, cond s = true →
        match body s with
        | Ok (Continue s') => (μ s' < μ s)%nat
        | Ok (Break _) | Raise _ => True
        | NoFuel => False
        end) →
  ∀ fuel s, (μ s < fuel)%nat → while fuel cond body s ≠ NoFuel.
Proof.
  intros Hbody fuel. induction fuel as [|fuel IH]; intros s Hfuel; [lia|].
  simpl. destruct (cond s) eqn:Hcond; [|done].
  specialize (Hbody s Hcond).
  destruct (body s) as [[s'|s']| |]; try done.
  returned. apply IH. lia.
Qed.

Section Fuel.
Context {word : Type} `{Vocabulary word} {RandomState : Type}.

Lemma get_dec_inp_targ_seqs_not_NoFuel (sequence : list Z) (max_len start_id stop_id : Z) :
  get_dec_inp_targ_seqs sequence max_len start_id stop_id ≠ NoFuel.
Proof.
  unfold get_dec_inp_targ_seqs.
  destruct (_ >? _); cbv beta iota zeta; destruct (_ =? _); done.
Qed.

Lemma Example_init_not_NoFuel (article abstract : list word) (hps : HParams) :
  Example_init article abstract hps ≠ NoFuel.
Proof.
  unfold Example_init. cbv zeta.
  match goal with
  | |- context [get_dec_inp_targ_seqs ?s ?m ?a ?b] =>
      pose proof (get_dec_inp_targ_seqs_not_NoFuel s m a b) as Hfirst;
      destruct (get_dec_inp_targ_seqs s m a b) as [[inp targ]| |]; try done
  end.
  returned.
  destruct (pointer_gen hps); [|done].
  destruct (article2ids _) as [ids oovs].
  match goal with
  | |- context [get_dec_inp_targ_seqs ?s ?m ?a ?b] =>
      pose proof (get_dec_inp_targ_seqs_not_NoFuel s m a b) as Hsecond;
      destruct (get_dec_inp_targ_seqs s m a b) as [[inp' targ']| |]; done
  end.
Qed.

(** The sibling path of C3: when the mode is not 'decode', the round of
    the reading loop on a pair with an empty article makes no Example; it
    logs the warning and reads the next pair. *)
Lemma read_body_empty_article (hps : HParams) (s : Reading word) :
  len (remove_nonascii (linex s)) = 0 →
  read_body hps s
  = Ok (Continue (read_pair (inputs s) (rd_fdx s) (rd_fdy s)
                    (rd_warnings s ++ [empty_article_warning]))).
Proof. intros Hempty. unfold read_body. by rewrite Hempty. Qed.

(** The reading loop always ends within its fuel. *)
Lemma read_inputs_not_NoFuel (hps : HParams) (w : World RandomState) :
  read_inputs hps w ≠ NoFuel.
Proof.
  unfold read_inputs.
  apply (while_fuel (λ s : Reading word,
           (String.length (linex s) + String.length (rd_fdx s))%nat)).
  - intros s Hcond. unfold read_body, lines_left in *.
    apply andb_true_iff in Hcond as [Hx _]. apply truthy_length in Hx.
    assert (Hnext : ∀ (exs : list (Example word)) ws,
              (String.length (linex (read_pair exs (rd_fdx s) (rd_fdy s) ws))
               + String.length (rd_fdx (read_pair exs (rd_fdx s) (rd_fdy s) ws))
               < String.length (linex s) + String.length (rd_fdx s))%nat).
    { intros exs ws. pose proof (readline_length (rd_fdx s)) as Hlen.
      unfold read_pair.
      destruct (readline (rd_fdx s)), (readline (rd_fdy s)). simpl in *. lia. }
    destruct (len (remove_nonascii (linex s)) =? 0); [apply Hnext|].
    pose proof (Example_init_not_NoFuel (remove_nonascii (linex s))
                  (remove_nonascii (liney s)) hps) as Hinit.
    destruct (Example_init _ _ _) as [ex| |]; try done. returned.
    destruct (_ =? _); [done|apply Hnext].
  - pose proof (readline_length (fdx w)) as Hlen. unfold read_pair.
    destruct (readline (fdx w)), (readline (fdy w)). simpl in *. lia.
Qed.

(** With [batch_size <= 0] the loop of the 'decode' branch never meets
    its [break]: no fuel is enough. *)
Lemma decode_loop_diverges (hps : HParams) (linex liney : string) (ex : Example word)
    (fuel : nat) (batch : list (Example word)) :
  batch_size hps <= 0 →
  truthy linex && truthy liney = true →
  Example_init (remove_nonascii linex) (remove_nonascii liney) hps = Ok ex →
  while fuel (λ _, truthy linex && truthy liney) (decode_body hps linex liney) batch
  = NoFuel.
Proof.
  intros Hbs Hlines Hex. rewrite Hlines.
  assert (Hbody : ∀ b, decode_body hps linex liney b = Ok (Continue (b ++ [ex]))).
  { intros b. unfold decode_body. rewrite Hex. returned.
    destruct (Z.eqb_spec (len (b ++ [ex])) (batch_size hps)) as [Hlen|_]; [|done].
    rewrite len_app, len_cons, len_nil in Hlen. pose proof (len_nonneg b). lia. }
  revert batch.
  induction fuel as [|fuel IH]; intros batch; simpl; [done|].
  rewrite Hbody. returned. apply IH.
Qed.

End Fuel.

(** ** The articles that an iteration yields *)

Section Articles.
Context {word : Type} `{Vocabulary word}.
Context {RandomState : Type} `{NumpyRandom RandomState}.
Implicit Types (self : Batcher word) (w : World RandomState).

Lemma Example_init_original (article abstract : list word) (hps : HParams)
    (ex : Example word) :
  Example_init article abstract hps = Ok ex → original_article ex = article.
Proof.
  unfold Example_init.
  destruct (get_dec_inp_targ_seqs _ _ _ _) as [[inp tgt]| |]; try done. returned.
  destruct (pointer_gen hps).
  - destruct (article2ids _) as [ids oovs].
    destruct (get_dec_inp_targ_seqs _ _ _ _) as [[inp' tgt']| |]; try done.
    do 2 returned. by intros [= <-].
  - returned. by intros [= <-].
Qed.

Lemma examples_articles (hps : HParams) (ps : list (string * string))
    (examples : list (Example word)) :
  Forall2 (example_of hps) (filter has_article ps) examples →
  original_article <$> examples = articles_of ps.
Proof.
  unfold articles_of. generalize (filter has_article ps). intros l Hl.
  induction Hl as [|p ex l examples Hex _ IH]; [done|].
  rewrite !fmap_cons, IH. f_equal. by eapply Example_init_original.
Qed.

Lemma batched_articles_stacked (hps : HParams) (groups : list (list (Example word))) :
  batched_articles (stacked_batch hps <$> groups) = original_article <$> concat groups.
Proof.
  unfold batched_articles. induction groups as [|g groups IH]; [done|].
  rewrite !fmap_cons. simpl concat. by rewrite IH, fmap_app.
Qed.

Lemma batched_articles_app (bs1 bs2 : list (Batch word)) :
  batched_articles (bs1 ++ bs2) = batched_articles bs1 ++ batched_articles bs2.
Proof. unfold batched_articles. by rewrite fmap_app, concat_app. Qed.

Lemma batched_articles_Permutation (bs1 bs2 : list (Batch word)) :
  bs1 ≡ₚ bs2 → batched_articles bs1 ≡ₚ batched_articles bs2.
Proof. unfold batched_articles. by intros ->. Qed.

Lemma articles_of_app (ps1 ps2 : list (string * string)) :
  articles_of (ps1 ++ ps2) = articles_of ps1 ++ articles_of ps2.
Proof. unfold articles_of. by rewrite filter_app, fmap_app. Qed.

End Articles.

Section RefillArticles.
Context {word : Type} `{Vocabulary word}.
Context {RandomState : Type} `{NumpyRandom RandomState}.
Variables (self : Batcher word) (w : World RandomState).

Local Abbreviation hps := (_hps self).
Local Abbreviation ps := (line_pairs (fdx w) (fdy w)).
Local Abbreviation skipped := (λ l : list (string * string),
  length (filter (λ p, ¬ has_article p) l)).

Hypothesis batch_pos : 1 <= batch_size hps.
Hypothesis dec_steps : 0 <= max_dec_steps hps.
Hypothesis aligned : pointer_gen hps = true → article2ids_aligned.
Hypothesis train : mode hps ≠ "decode".
Hypothesis permutes :
  ∀ (g : RandomState) (l : list (Batch word)), (np_random_shuffle g l).1 ≡ₚ l.
Hypothesis no_batches : batches self = [].

(** What a call of [refill] on a Batcher without batches leaves: batches
    of the examples of the first [n] pairs of lines, a warning for every
    pair without an article among them, and the files before the other
    pairs; no batch only when no pair is left. *)
Lemma refill_train_articles :
  ∃ self' w' n,
    refill self w = Ok (self', w')
    ∧ _hps self' = hps
    ∧ _single_pass self' = _single_pass self
    ∧ batched_articles (batches self') ≡ₚ articles_of (take n ps)
    ∧ (_single_pass self = true →
       batched_articles (batches self') = articles_of (take n ps))
    ∧ line_pairs (fdx w') (fdy w') = drop n ps
    ∧ warnings w'
      = warnings w ++ replicate (skipped (take n ps)) empty_article_warning
    ∧ (batches self' = [] → take n ps = ps)
    ∧ (length (batches self') + String.length (fdx w') <= String.length (fdx w))%nat.
Proof.
  destruct (refill_train self w batch_pos dec_steps aligned train)
    as (s & n & _ & (Hn & Hexs & Hwarn & Hrest & Hstop) & Hlen & _ & Hrefill).
  cbv zeta in Hrefill. rewrite no_batches in Hrefill. simpl app in Hrefill.
  apply examples_articles in Hexs.
  set (examples := if _single_pass self then inputs s else sorted (inputs s) enc_len)
    in *.
  assert (Hexamples : examples ≡ₚ inputs s).
  { unfold examples. destruct (_single_pass self); [done|apply sorted_Permutation]. }
  set (new := stacked_batch hps <$> groups_of (batch_size hps) examples) in *.
  assert (Hnew : batched_articles new = original_article <$> examples).
  { unfold new. by rewrite batched_articles_stacked, concat_groups_of. }
  assert (Hcount : (length new <= length (inputs s))%nat).
  { unfold new. rewrite length_fmap, <- Hexamples. by apply length_groups_of. }
  eexists _, _, n. split; [exact Hrefill|]. simpl.
  set (bs := (if _single_pass self then (new, random_state w)
              else np_random_shuffle (random_state w) new).1) in *.
  assert (Hbs : bs ≡ₚ new).
  { unfold bs. destruct (_single_pass self); [done|apply permutes]. }
  do 2 (split; [done|]).
  split; [by rewrite (batched_articles_Permutation _ _ Hbs), Hnew, Hexamples, Hexs|].
  split.
  { intros Hsingle. unfold bs, examples in *. rewrite Hsingle in *. simpl.
    by rewrite Hnew, Hexs. }
  do 2 (split; [done|]). split; [|rewrite Hbs; lia].
  intros Hnone. rewrite Hnone in Hbs. symmetry in Hbs. apply Permutation_nil_r in Hbs.
  assert (Hempty : inputs s = []).
  { apply Permutation_nil_r. rewrite <- Hexamples.
    rewrite <- (concat_groups_of examples (batch_size hps)) by done.
    unfold new in Hbs. apply fmap_nil_inv in Hbs. by rewrite Hbs. }
  destruct Hstop as [Hfull| ->]; [|by rewrite take_ge].
  rewrite Hempty, len_nil in Hfull. lia.
Qed.

End RefillArticles.

Section PairIterArticles.
Context {word : Type} `{Vocabulary word}.
Context {RandomState : Type} `{NumpyRandom RandomState}.
Variables (fs : string → option string) (hps0 : HParams).
Hypothesis batch_pos : 1 <= batch_size hps0.
Hypothesis dec_steps : 0 <= max_dec_steps hps0.
Hypothesis aligned : pointer_gen hps0 = true → article2ids_aligned.
Hypothesis train : mode hps0 ≠ "decode".
Hypothesis permutes :
  ∀ (g : RandomState) (l : list (Batch word)), (np_random_shuffle g l).1 ≡ₚ l.
Implicit Types (self : Batcher word) (w : World RandomState).

Local Abbreviation skipped := (λ l : list (string * string),
  length (filter (λ p, ¬ has_article p) l)).

(** When the mode is not 'decode', the iteration returns; the batches it
    yields hold the articles of the batches that were waiting and of the
    pairs of lines left in the files, once each, and in that order when
    [single_pass]; one warning is logged for every pair without an
    article. *)
Lemma iterate_train_articles (fuel : nat) self w :
  _hps self = hps0 →
  (String.length (fdx w) + length (batches self) < fuel)%nat →
  ∃ ys self' w',
    iterate fuel fs Suspended self w = (ys, Returned, (self', w'))
    ∧ batched_articles ys
      ≡ₚ batched_articles (batches self) ++ articles_of (line_pairs (fdx w) (fdy w))
    ∧ (_single_pass self = true →
       batched_articles ys
       = batched_articles (batches self) ++ articles_of (line_pairs (fdx w) (fdy w)))
    ∧ warnings w'
      = warnings w
        ++ replicate (skipped (line_pairs (fdx w) (fdy w))) empty_article_warning.
Proof.
  revert self w. induction fuel as [|fuel IH]; intros self w Hhps Hfuel; [lia|].
  cbn [iterate]. unfold pair_iter_next, pair_iter_round.
  destruct (Z.eqb_spec (len (batches self)) 0) as [Hnone|Hsome].
  - assert (Hnil : batches self = []) by (by destruct (batches self)).
    destruct (refill_train_articles self w)
      as (self1 & w1 & n & -> & Hhps1 & Hsingle1 & Hperm & Heq & Hrest & Hwarn
          & Hlast & Hlen); rewrite ?Hhps; try done.
    returned. rewrite Hnil. simpl app.
    destruct (batches self1) as [|b rest] eqn:Hbs; returned.
    + (* nothing was read: the generator returns *)
      rewrite <- (Hlast eq_refl). eexists [], self1, w1. split; [done|].
      split; [done|]. split; [|done].
      intros Hsingle. by rewrite <- (Heq Hsingle).
    + (* a batch is yielded *)
      destruct (IH (set_batches self1 rest) w1) as (ys & self' & w' & -> & Hys & Hys' & Hw');
        [by rewrite <- Hhps|simpl in *; lia|].
      simpl in Hys, Hys', Hw'. rewrite Hrest in Hys, Hys', Hw'.
      eexists (b :: ys), self', w'. split; [done|].
      assert (Hsplit : articles_of (line_pairs (fdx w) (fdy w))
                = articles_of (take n (line_pairs (fdx w) (fdy w)))
                  ++ articles_of (drop n (line_pairs (fdx w) (fdy w))))
        by (by rewrite <- articles_of_app, take_drop).
      assert (Hskip : skipped (line_pairs (fdx w) (fdy w))
                = (skipped (take n (line_pairs (fdx w) (fdy w)))
                   + skipped (drop n (line_pairs (fdx w) (fdy w))))%nat).
      { rewrite <- (take_drop n (line_pairs (fdx w) (fdy w))) at 1.
        by rewrite filter_app, length_app. }
      unfold batched_articles in *. rewrite fmap_cons in *. simpl concat in *.
      rewrite Hsplit, Hskip. split; [|split].
      * by rewrite Hys, app_assoc, Hperm.
      * intros Hsingle. rewrite Hys' by (by rewrite Hsingle1).
        by rewrite app_assoc, (Heq Hsingle).
      * by rewrite Hw', Hwarn, replicate_add, app_assoc.
  - returned. destruct (batches self) as [|b rest] eqn:Hbs.
    { by rewrite len_nil in Hsome. }
    returned.
    destruct (IH (set_batches self rest) w) as (ys & self' & w' & -> & Hys & Hys' & Hw');
      [done|simpl in *; lia|].
    simpl in Hys, Hys', Hw'.
    eexists (b :: ys), self', w'. split; [done|].
    unfold batched_articles in *. rewrite !fmap_cons. simpl concat.
    split; [|split; [|done]].
    + by rewrite Hys, app_assoc.
    + intros Hsingle. by rewrite Hys', app_assoc.
Qed.

End PairIterArticles.

(** ** The claims on the iteration *)

(** C3 in 'decode' mode: a pair of lines whose article is empty is not
    skipped.  [refill] makes [batch_size] examples of it, of encoder
    length 0, puts them in a Batch and logs no warning. *)
Theorem refill_decode_keeps_empty_article {word : Type} `{Vocabulary word}
    {RandomState : Type} `{NumpyRandom RandomState}
    (self : Batcher word) (w : World RandomState) :
  mode (_hps self) = "decode" →
  1 <= batch_size (_hps self) →
  0 <= max_dec_steps (_hps self) →
  (pointer_gen (_hps self) = true → article2ids_aligned) →
  truthy (fdx w) = true →
  truthy (fdy w) = true →
  remove_nonascii (readline (fdx w)).1 = [] →
  ∃ ex self' w',
    Example_init [] (remove_nonascii (readline (fdy w)).1) (_hps self) = Ok ex
    ∧ enc_len ex = 0
    ∧ refill self w = Ok (self', w')
    ∧ batches self'
      = batches self
        ++ [stacked_batch (_hps self)
              (replicate (Z.to_nat (batch_size (_hps self))) ex)]
    ∧ warnings w' = warnings w.
Proof.
  intros Hdecode Hbs Hdec Haligned Hx Hy Hempty.
  destruct (refill_decode_pair self w Hdecode Hbs Hdec Haligned)
    as (ex & Hex & _ & Hlen & _ & Hrefill).
  { by rewrite !readline_truthy, Hx, Hy. }
  rewrite Hempty in Hex, Hlen.
  eexists ex, _, _. split; [exact Hex|]. split; [|split; [exact Hrefill|done]].
  rewrite Hlen. unfold truncated_article, slice_to. rewrite len_nil.
  destruct (0 >? _); [|done]. by destruct (_ <? 0); rewrite take_nil.
Qed.

(** The failing input of C3: one line whose article is empty. *)
Lemma refill_decode_keeps_empty_article_witness :
  let self := Char.batcher "decode" 2 true in
  let w := Char.reading Char.latin1_line (Char.file ["y"]) in
  remove_nonascii (readline (fdx w)).1 = []
  ∧ ∃ self' w' b,
      refill self w = Ok (self', w')
      ∧ batches self' = [b]
      ∧ enc_lens b = [0; 0]
      ∧ warnings w' = [].
Proof.
  intros self w. split; [reflexivity|].
  destruct (refill_decode_keeps_empty_article self w)
    as (ex & self' & w' & Hex & Hlen & Hrefill & Hbatches & Hwarn);
    [done|done|done|intros _; exact char_article2ids_aligned|done|done|done|].
  eexists self', w', _. split; [exact Hrefill|]. split; [exact Hbatches|].
  split; [|exact Hwarn]. simpl. by rewrite Hlen.
Defined.

(** C4 in 'decode' mode: the iteration over two files never ends by the
    return of the generator.  With [batch_size >= 1] it yields one batch
    for every pair of lines and then ends with the ValueError that [max]
    raises on the empty list of examples of the call of [refill] at the
    end of a file. *)
Theorem pair_iter_decode_raises {word : Type} `{Vocabulary word}
    {RandomState : Type} `{NumpyRandom RandomState}
    (fs : string → option string) (self : Batcher word) (w : World RandomState)
    (x y : string) :
  mode (_hps self) = "decode" →
  fs (_data_path self +:+ ".x.txt") = Some x →
  fs (_data_path self +:+ ".y.txt") = Some y →
  1 <= batch_size (_hps self) →
  0 <= max_dec_steps (_hps self) →
  (pointer_gen (_hps self) = true → article2ids_aligned) →
  (∀ fuel, (pair_iter fuel fs self w).1.2 ≠ Returned)
  ∧ (∀ fuel, (String.length x < fuel)%nat →
       ∃ ys,
         (pair_iter fuel fs self w).1 = (ys, Raised ValueError)
         ∧ Forall2 (λ p b, ∃ ex,
                      example_of (_hps self) p ex
                      ∧ b = stacked_batch (_hps self)
                              (replicate (Z.to_nat (batch_size (_hps self))) ex))
             (line_pairs x y) ys).
Proof.
  intros Hdecode Hx Hy Hbs Hdec Haligned. split; intros fuel.
  - by apply iterate_decode_not_Returned.
  - intros Hfuel. rewrite (pair_iter_Created fuel fs self w x y) by done.
    destruct (iterate_decode_raises fs (_hps self) Hbs Hdec Haligned fuel
                (set_batches self [])
                {| fdx := x; fdy := y; warnings := warnings w;
                   random_state := random_state w |})
      as (ys & final & -> & Hys); try done.
    by exists ys.
Qed.

(** The failing input of C4: three pairs of lines in 'decode' mode. *)
Lemma pair_iter_decode_raises_witness :
  let self := Char.batcher "decode" 2 true in
  let fs := Char.two_files Char.articles Char.abstracts in
  mode (_hps self) = "decode"
  ∧ (String.length Char.articles < 10)%nat
  ∧ (pair_iter 10 fs self Char.world).1.2 = Raised ValueError
  ∧ length (pair_iter 10 fs self Char.world).1.1 = 3%nat.
Proof.
  intros self fs. split; [done|]. split; [vm_compute; lia|]. split.
  - destruct (pair_iter_decode_raises fs self Char.world Char.articles Char.abstracts)
      as [_ Hraises];
      [done|done|done|done|done|intros _; exact char_article2ids_aligned|].
    destruct (Hraises 10%nat) as (ys & -> & _); [vm_compute; lia|done].
  - by vm_compute.
Defined.

(** C5, as the code has it: a missing file makes the first call of [next]
    raise IOError, with nothing yielded.  The numbers of lines of the two
    files are not compared: when the mode is not 'decode', with
    [batch_size >= 1] and [max_dec_steps >= 0], the iteration over any
    two files that exist returns normally.  The batches it has
    yielded hold the articles of the pairs of lines up to the end of the
    shorter file, once each (in the order of the files when
    [single_pass]), but for the pairs without an article, for each of
    which a warning is logged; the lines behind the end of the shorter
    file are dropped without a word. *)
Theorem pair_iter_malformed_input {word : Type} `{Vocabulary word}
    {RandomState : Type} `{NumpyRandom RandomState}
    (fs : string → option string) (self : Batcher word) (w : World RandomState) :
  (fs (_data_path self +:+ ".x.txt") = None
   ∨ fs (_data_path self +:+ ".y.txt") = None →
   ∀ fuel, pair_iter (S fuel) fs self w = ([], Raised IOError, (self, w)))
  ∧ (∀ x y,
       fs (_data_path self +:+ ".x.txt") = Some x →
       fs (_data_path self +:+ ".y.txt") = Some y →
       mode (_hps self) ≠ "decode" →
       1 <= batch_size (_hps self) →
       0 <= max_dec_steps (_hps self) →
       (pointer_gen (_hps self) = true → article2ids_aligned) →
       (∀ (g : RandomState) (l : list (Batch word)), (np_random_shuffle g l).1 ≡ₚ l) →
       ∀ fuel, (String.length x < fuel)%nat →
         ∃ ys self' w',
           pair_iter fuel fs self w = (ys, Returned, (self', w'))
           ∧ batched_articles ys ≡ₚ articles_of (line_pairs x y)
           ∧ (_single_pass self = true →
              batched_articles ys = articles_of (line_pairs x y))
           ∧ warnings w'
             = warnings w
               ++ replicate (length (filter (λ p, ¬ has_article p) (line_pairs x y)))
                    empty_article_warning).
Proof.
  split.
  - intros Hmissing fuel. by apply pair_iter_missing_file.
  - intros x y Hx Hy Hmode Hbs Hdec Haligned Hshuffle fuel Hfuel.
    destruct (iterate_train_articles fs (_hps self) Hbs Hdec Haligned Hmode Hshuffle
                fuel (set_batches self [])
                {| fdx := x; fdy := y; warnings := warnings w;
                   random_state := random_state w |})
      as (ys & self' & w' & Hrun & Hys & Hys' & Hw'); [done|simpl; lia|].
    exists ys, self', w'. split; [|done].
    by apply (pair_iter_Created_Returned fuel fs self w x y).
Qed.

(** A data path without files, and two files of three and two lines. *)
Lemma pair_iter_malformed_input_witness :
  let self := Char.batcher "train" 2 true in
  let fs := Char.two_files Char.articles (Char.file ["x"; "yz"]) in
  (pair_iter 1 (λ _, None) self Char.world = ([], Raised IOError, (self, Char.world)))
  ∧ mode (_hps self) ≠ "decode"
  ∧ (String.length Char.articles < 10)%nat
  ∧ ∃ ys final,
      pair_iter 10 fs self Char.world = (ys, Returned, final)
      ∧ batched_articles ys
        = articles_of (line_pairs Char.articles (Char.file ["x"; "yz"])).
Proof.
  intros self fs.
  destruct (pair_iter_malformed_input (λ _, None) self Char.world) as [Hmissing _].
  destruct (pair_iter_malformed_input fs self Char.world) as [_ Hreturns].
  split; [apply Hmissing; by left|]. split; [done|]. split; [vm_compute; lia|].
  destruct (Hreturns Char.articles (Char.file ["x"; "yz"])
              eq_refl eq_refl ltac:(done) ltac:(done) ltac:(done)
              (λ _, char_article2ids_aligned) reversing_permutes 10%nat)
    as (ys & self' & w' & Hrun & _ & Hys & _); [vm_compute; lia|].
  exists ys, (self', w'). split; [exact Hrun|]. by apply Hys.
Defined.

(** C5 as it is worded fails: the article file has three lines and the
    abstract file two, and the iteration returns normally after it has
    yielded a batch of the first two pairs. *)
Lemma pair_iter_mismatch_counterexample :
  let self := Char.batcher "train" 2 true in
  let x := Char.articles in
  let y := Char.file ["x"; "yz"] in
  length (readlines x) ≠ length (readlines y)
  ∧ ¬ (∃ e, (pair_iter 10 (Char.two_files x y) self Char.world).1.2 = Raised e)
  ∧ original_articles <$> (pair_iter 10 (Char.two_files x y) self Char.world).1.1
    = [[["a"; "b"; "c"; Char.nl]; ["d"; "e"; Char.nl]]].
Proof.
  intros self x y. split; [by vm_compute|]. split; [|by vm_compute].
  intros [e He]. vm_compute in He. discriminate.
Qed.

(** C10, as the code has it: in 'decode' mode a call of [refill] made
    while both files have a line to read takes one line of each file and
    appends one Batch, built from [batch_size] examples of that one pair
    of lines; it logs nothing and leaves numpy's generator alone. *)
Theorem refill_decode_repeats_one_pair {word : Type} `{Vocabulary word}
    {RandomState : Type} `{NumpyRandom RandomState}
    (self : Batcher word) (w : World RandomState) :
  mode (_hps self) = "decode" →
  1 <= batch_size (_hps self) →
  0 <= max_dec_steps (_hps self) →
  (pointer_gen (_hps self) = true → article2ids_aligned) →
  truthy (fdx w) = true →
  truthy (fdy w) = true →
  ∃ ex padded_list b,
    Example_init (remove_nonascii (readline (fdx w)).1)
      (remove_nonascii (readline (fdy w)).1) (_hps self) = Ok ex
    ∧ Batch_init (replicate (Z.to_nat (batch_size (_hps self))) ex) (_hps self)
      = Ok (padded_list, b)
    ∧ refill self w
      = Ok (set_batches self (batches self ++ [b]),
            {| fdx := (readline (fdx w)).2; fdy := (readline (fdy w)).2;
               warnings := warnings w; random_state := random_state w |})
    ∧ original_articles b
      = replicate (Z.to_nat (batch_size (_hps self)))
          (remove_nonascii (readline (fdx w)).1)
    ∧ original_abstracts b
      = replicate (Z.to_nat (batch_size (_hps self)))
          (remove_nonascii (readline (fdy w)).1).
Proof.
  intros Hdecode Hbs Hdec Haligned Hx Hy.
  destruct (refill_decode_pair self w Hdecode Hbs Hdec Haligned)
    as (ex & Hex & _ & _ & Hinit & Hrefill).
  { by rewrite !readline_truthy, Hx, Hy. }
  destruct (Example_init_Ok (remove_nonascii (readline (fdx w)).1)
              (remove_nonascii (readline (fdy w)).1) (_hps self) Hdec Haligned)
    as (ex' & Hex' & _ & _ & _ & Hart & Habs).
  assert (ex' = ex) as -> by congruence.
  eexists ex, _, _. split; [exact Hex|]. split; [exact Hinit|].
  split; [exact Hrefill|]. simpl.
  by rewrite !fmap_replicate, Hart, Habs.
Qed.

(** The first pair of lines of two files with three pairs. *)
Lemma refill_decode_repeats_one_pair_witness :
  let self := Char.batcher "decode" 2 true in
  let w := Char.reading Char.articles Char.abstracts in
  mode (_hps self) = "decode"
  ∧ truthy (fdx w) = true ∧ truthy (fdy w) = true
  ∧ ∃ b w',
      refill self w = Ok (set_batches self [b], w')
      ∧ fdx w' = Char.file ["de"; "f"]
      ∧ fdy w' = Char.file ["yz"; "w"]
      ∧ original_articles b = [["a"; "b"; "c"; Char.nl]; ["a"; "b"; "c"; Char.nl]].
Proof.
  intros self w. do 3 (split; [done|]).
  destruct (refill_decode_repeats_one_pair self w)
    as (ex & padded_list & b & _ & _ & Hrefill & Hart & _);
    [done|done|done|intros _; exact char_article2ids_aligned|done|done|].
  eexists b, _. split; [exact Hrefill|]. by repeat split.
Defined.

(** C10 as it is worded fails: a call of [refill] at the end of the files
    takes no pair of lines and makes no Batch; it raises. *)
Lemma refill_decode_eof_counterexample :
  let self := Char.batcher "decode" 2 true in
  let w := Char.reading "" "" in
  refill self w = Raise ValueError
  ∧ ¬ (∃ self' w', refill self w = Ok (self', w')).
Proof.
  intros self w. split; [reflexivity|]. intros (self' & w' & Hrefill).
  vm_compute in Hrefill. discriminate.
Qed.

(** * Further properties of the code *)

(** ** Example.get_dec_inp_targ_seqs again *)

(** With a bound that is not negative, the two sequences are the first
    [max_len] ids of the sequence behind [start_id] and of the sequence
    before [stop_id]. *)
Lemma get_dec_inp_targ_seqs_take (sequence : list Z) (max_len start_id stop_id : Z) :
  0 <= max_len →
  get_dec_inp_targ_seqs sequence max_len start_id stop_id
  = Ok (take (Z.to_nat max_len) (start_id :: sequence),
        take (Z.to_nat max_len) (sequence ++ [stop_id])).
Proof.
  intros Hmax. unfold get_dec_inp_targ_seqs.
  pose proof (len_nonneg sequence) as Hseq. unfold len in *.
  cbn [length]. unfold slice_to.
  destruct (Z.ltb_spec max_len 0) as [?|_]; [lia|].
  destruct (Z.gtb_spec (Z.of_nat (S (length sequence))) max_len) as [Htr|Hno].
  - rewrite (take_app_le sequence [stop_id]) by lia.
    rewrite !length_take. cbn [length].
    destruct (Z.eqb_spec (Z.of_nat (Z.to_nat max_len `min` S (length sequence)))
                (Z.of_nat (Z.to_nat max_len `min` length sequence))); [done|lia].
  - rewrite !take_ge by (rewrite ?length_app; cbn [length]; lia).
    rewrite length_app. cbn [length].
    destruct (Z.eqb_spec (Z.of_nat (S (length sequence)))
                (Z.of_nat (length sequence + 1))); [done|lia].
Qed.

(** With a negative bound the two slices drop ids from the end, one id
    more of the sequence than of the decoder input; the assertion fails
    as soon as an id is left. *)
Lemma get_dec_inp_targ_seqs_raises (sequence : list Z) (max_len start_id stop_id : Z) :
  max_len < 0 →
  - max_len <= len sequence →
  get_dec_inp_targ_seqs sequence max_len start_id stop_id = Raise AssertionError.
Proof.
  intros Hmax Hseq. unfold get_dec_inp_targ_seqs, len in *. cbn [length]. unfold slice_to, len.
  destruct (Z.gtb_spec (Z.of_nat (S (length sequence))) max_len) as [_|?]; [|lia].
  destruct (Z.ltb_spec max_len 0) as [_|?]; [|lia].
  rewrite !length_take. cbn [length].
  destruct (Z.eqb_spec
              (Z.of_nat (Z.to_nat (Z.of_nat (S (length sequence)) + max_len)
                         `min` S (length sequence)))
              (Z.of_nat (Z.to_nat (Z.of_nat (length sequence) + max_len)
                         `min` length sequence))); [lia|done].
Qed.

(** X1: whenever [get_dec_inp_targ_seqs] returns, the decoder input is a
    prefix of the sequence behind [start_id], the target is a prefix of
    the sequence followed by [stop_id], and the target is the decoder
    input moved one step to the left: the id at step [k] of the target
    is the id at step [k + 1] of the decoder input. *)
Theorem get_dec_inp_targ_seqs_shifted (sequence : list Z) (max_len start_id stop_id : Z)
    (inp target : list Z) :
  get_dec_inp_targ_seqs sequence max_len start_id stop_id = Ok (inp, target) →
  inp `prefix_of` start_id :: sequence
  ∧ target `prefix_of` sequence ++ [stop_id]
  ∧ ∀ k, (S k < length inp)%nat → target !! k = inp !! S k.
Proof.
  intros Hcall.
  destruct (Z.lt_ge_cases max_len 0) as [Hneg|Hmax].
  - unfold get_dec_inp_targ_seqs in Hcall.
    pose proof (len_nonneg sequence) as Hseq. rewrite len_cons in Hcall.
    destruct (Z.gtb_spec (1 + len sequence) max_len) as [_|?]; [|lia].
    destruct (_ =? _) in Hcall; [|discriminate].
    injection Hcall as <- <-. unfold slice_to.
    destruct (Z.ltb_spec max_len 0) as [_|?]; [|lia].
    split; [apply prefix_take|].
    split; [etrans; [apply prefix_take|by apply prefix_app_r]|].
    intros k Hk. rewrite length_take in Hk.
    rewrite !lookup_take_lt by (unfold len in *; cbn [length] in *; lia).
    done.
  - rewrite get_dec_inp_targ_seqs_take in Hcall by done.
    injection Hcall as <- <-.
    split; [apply prefix_take|]. split; [apply prefix_take|].
    intros k Hk. rewrite length_take in Hk. cbn [length] in Hk.
    rewrite !lookup_take_lt by lia.
    cbn [lookup list_lookup]. apply lookup_app_l. lia.
Qed.

Lemma get_dec_inp_targ_seqs_shifted_witness :
  get_dec_inp_targ_seqs [5; 6; 7] 3 1 9 = Ok ([1; 5; 6], [5; 6; 7])
  ∧ [1; 5; 6] `prefix_of` [1; 5; 6; 7]
  ∧ [5; 6; 7] `prefix_of` [5; 6; 7] ++ [9]
  ∧ ∀ k, (S k < length [1; 5; 6])%nat → [5; 6; 7] !! k = [1; 5; 6] !! S k.
Proof.
  split; [reflexivity|].
  apply (get_dec_inp_targ_seqs_shifted [5; 6; 7] 3 1 9). reflexivity.
Defined.

(** X2: with [max_len <= 0] nothing is left of the decoder input, which
    then does not start with [start_id].  At [max_len = 0], and at a
    negative [max_len] when the sequence has fewer than [- max_len] ids,
    the call returns two empty lists; at a negative [max_len] with a
    sequence of [- max_len] ids or more, the two slices differ in length
    and the assertion fails. *)
Theorem get_dec_inp_targ_seqs_nonpositive (sequence : list Z) (max_len start_id stop_id : Z) :
  max_len <= 0 →
  get_dec_inp_targ_seqs sequence max_len start_id stop_id
  = if decide (max_len < 0 ∧ - max_len <= len sequence)
    then Raise AssertionError
    else Ok ([], []).
Proof.
  intros Hmax. destruct (decide _) as [[Hneg Hseq]|Hshort].
  - by apply get_dec_inp_targ_seqs_raises.
  - destruct (decide (max_len = 0)) as [->|Hneg].
    { by rewrite get_dec_inp_targ_seqs_take. }
    unfold get_dec_inp_targ_seqs, slice_to, len in *. cbn [length].
    destruct (Z.gtb_spec (Z.of_nat (S (length sequence))) max_len) as [_|?]; [|lia].
    destruct (Z.ltb_spec max_len 0) as [_|?]; [|lia].
    replace (Z.to_nat (Z.of_nat (S (length sequence)) + max_len)) with O by lia.
    replace (Z.to_nat (Z.of_nat (length sequence) + max_len)) with O by lia.
    done.
Qed.

Lemma get_dec_inp_targ_seqs_nonpositive_witness :
  -2 <= 0
  ∧ get_dec_inp_targ_seqs [5; 6; 7] (-2) 1 9 = Raise AssertionError
  ∧ get_dec_inp_targ_seqs [5] (-2) 1 9 = Ok ([], []).
Proof.
  split; [lia|]. split.
  - apply (get_dec_inp_targ_seqs_nonpositive [5; 6; 7] (-2) 1 9). lia.
  - apply (get_dec_inp_targ_seqs_nonpositive [5] (-2) 1 9). lia.
Defined.

(** ** Example.__init__ and the padding methods again *)

Section ExampleMore.
Context {word : Type} `{Vocabulary word}.

(** X3: with [max_dec_steps >= 0] the constructor returns.  The decoder
    input is made of the first [max_dec_steps] ids of the start id and
    the vocabulary ids of the abstract, and [dec_len] is its length.  The
    target holds the first [max_dec_steps] ids of the abstract followed by
    the stop id; in pointer-generator mode its ids are those that
    [abstract2ids] gives with the OOVs of the truncated article, while
    the decoder input keeps the vocabulary ids.  The original strings
    are stored whole, whatever the truncation. *)
Theorem Example_init_sequences (article abstract : list word) (hps : HParams) :
  0 <= max_dec_steps hps →
  ∃ ex,
    Example_init article abstract hps = Ok ex
    ∧ dec_input ex
      = take (Z.to_nat (max_dec_steps hps)) (word2id _SOS :: (word2id <$> abstract))
    ∧ dec_len ex = Z.min (max_dec_steps hps) (1 + len abstract)
    ∧ target ex
      = take (Z.to_nat (max_dec_steps hps))
          ((if pointer_gen hps
            then abstract2ids abstract (article2ids (truncated_article hps article)).2
            else word2id <$> abstract) ++ [word2id _EOS])
    ∧ enc_input_extend_vocab ex
      = (if pointer_gen hps
         then Some (article2ids (truncated_article hps article)).1 else None)
    ∧ article_oovs ex
      = (if pointer_gen hps
         then Some (article2ids (truncated_article hps article)).2 else None)
    ∧ original_article ex = article
    ∧ original_abstract ex = abstract
    ∧ original_abstract_sents ex = abstract.
Proof.
  intros Hdec. unfold Example_init. cbv zeta.
  rewrite get_dec_inp_targ_seqs_take by done. returned.
  fold (truncated_article hps article).
  assert (Hlen : len (take (Z.to_nat (max_dec_steps hps))
                        (word2id _SOS :: (word2id <$> abstract)))
                 = Z.min (max_dec_steps hps) (1 + len abstract)).
  { unfold len. rewrite length_take. cbn [length]. rewrite length_fmap. lia. }
  destruct (pointer_gen hps).
  - destruct (article2ids (truncated_article hps article)) as [ids oovs].
    rewrite get_dec_inp_targ_seqs_take by done. returned.
    eexists. split; [reflexivity|]. by cbn.
  - returned. eexists. split; [reflexivity|]. by cbn.
Qed.

(** X4: with a negative [max_dec_steps] the constructor raises
    AssertionError for every abstract of [- max_dec_steps] words or
    more. *)
Theorem Example_init_negative_max_dec_steps (article abstract : list word) (hps : HParams) :
  max_dec_steps hps < 0 →
  - max_dec_steps hps <= len abstract →
  Example_init article abstract hps = Raise AssertionError.
Proof.
  intros Hneg Hlen. unfold Example_init. cbv zeta.
  by rewrite get_dec_inp_targ_seqs_raises by (by rewrite ?len_fmap).
Qed.

(** X5: [pad_decoder_inp_targ] appends [pad_id] to the decoder input and
    to the target until each has [max_len] ids; a sequence that already
    has [max_len] ids or more is left as it is, so nothing is ever cut.
    [dec_len] and the encoder side keep their values, and padding a
    second time changes nothing. *)
Theorem pad_decoder_inp_targ_spec (ex : Example word) (max_len pad_id : Z) :
  let ex' := pad_decoder_inp_targ ex max_len pad_id in
  dec_input ex'
  = dec_input ex ++ replicate (Z.to_nat (max_len - len (dec_input ex))) pad_id
  ∧ target ex' = target ex ++ replicate (Z.to_nat (max_len - len (target ex))) pad_id
  ∧ len (dec_input ex') = Z.max (len (dec_input ex)) max_len
  ∧ len (target ex') = Z.max (len (target ex)) max_len
  ∧ dec_len ex' = dec_len ex
  ∧ enc_len ex' = enc_len ex
  ∧ enc_input ex' = enc_input ex
  ∧ enc_input_extend_vocab ex' = enc_input_extend_vocab ex
  ∧ pad_decoder_inp_targ ex' max_len pad_id = ex'.
Proof.
  cbv zeta. unfold pad_decoder_inp_targ. cbn.
  rewrite !len_pad.
  rewrite (pad_full (pad (dec_input ex) _ _)) by (rewrite len_pad; lia).
  rewrite (pad_full (pad (target ex) _ _)) by (rewrite len_pad; lia).
  by rewrite !pad_eq.
Qed.

(** X6: [pad_encoder_input] never fails on an Example that the
    constructor has made: the constructor sets
    [enc_input_extend_vocab] exactly when the [hps] that the Example
    keeps has [pointer_gen], which is when the method reads it.  The
    encoder input, and in pointer-generator mode its extended-vocabulary
    version, get [pad_id] appended up to [max_len] ids; [enc_len] keeps
    the length before padding. *)
Theorem pad_encoder_input_after_init (article abstract : list word) (hps : HParams)
    (ex : Example word) (max_len pad_id : Z) :
  Example_init article abstract hps = Ok ex →
  ∃ ex',
    pad_encoder_input ex max_len pad_id = Ok ex'
    ∧ enc_input ex'
      = enc_input ex ++ replicate (Z.to_nat (max_len - len (enc_input ex))) pad_id
    ∧ enc_len ex' = enc_len ex
    ∧ len (enc_input ex) = enc_len ex
    ∧ enc_input_extend_vocab ex'
      = (if pointer_gen hps
         then Some ((article2ids (truncated_article hps article)).1
                    ++ replicate
                         (Z.to_nat (max_len
                                    - len (article2ids (truncated_article hps article)).1))
                         pad_id)
         else None)
    ∧ dec_input ex' = dec_input ex
    ∧ target ex' = target ex.
Proof.
  unfold Example_init. cbv zeta. fold (truncated_article hps article).
  intros Hinit.
  destruct (get_dec_inp_targ_seqs _ _ _ _) as [[inp targ]| |]; [|done..].
  rewrite bind_Ok in Hinit. cbv beta iota in Hinit.
  destruct (pointer_gen hps) eqn:Hpg.
  - destruct (article2ids (truncated_article hps article)) as [ids oovs].
    destruct (get_dec_inp_targ_seqs _ _ _ _) as [[inp' targ']| |]; [|done..].
    injection Hinit as <-.
    unfold pad_encoder_input. cbn. rewrite Hpg. cbn.
    eexists. split; [reflexivity|]. cbn.
    by rewrite !pad_eq, len_fmap.
  - injection Hinit as <-.
    unfold pad_encoder_input. cbn. rewrite Hpg. cbn.
    eexists. split; [reflexivity|]. cbn.
    by rewrite !pad_eq, len_fmap.
Qed.

End ExampleMore.

Lemma Example_init_sequences_witness :
  0 <= max_dec_steps (Char.hps "train" 2)
  ∧ ∃ ex,
      Example_init ["a"; "b"; "c"; "d"; "e"] ["x"; "y"; "z"] (Char.hps "train" 2) = Ok ex
      ∧ dec_input ex = [1; 124; 125]
      ∧ dec_len ex = 3
      ∧ target ex = [124; 125; 126]
      ∧ original_article ex = ["a"; "b"; "c"; "d"; "e"].
Proof.
  split; [done|].
  destruct (Example_init_sequences ["a"; "b"; "c"; "d"; "e"] ["x"; "y"; "z"]
              (Char.hps "train" 2)) as (ex & Hex & Hinp & Hlen & Htarget & _ & _ & Horig & _);
    [done|].
  exists ex. repeat split; assumption.
Defined.

Lemma Example_init_negative_max_dec_steps_witness :
  let hps := {| mode := "train"; batch_size := 2; max_enc_steps := 4;
                max_dec_steps := -1; pointer_gen := true |} in
  max_dec_steps hps < 0
  ∧ - max_dec_steps hps <= len ["x"]
  ∧ Example_init ["a"] ["x"] hps = Raise AssertionError.
Proof.
  intros hps. split; [done|]. split; [done|].
  by apply (Example_init_negative_max_dec_steps ["a"] ["x"] hps).
Defined.

Lemma pad_encoder_input_after_init_witness :
  ∃ ex ex',
    Example_init ["a"; "b"] ["x"] (Char.hps "train" 2) = Ok ex
    ∧ pad_encoder_input ex 4 0 = Ok ex'
    ∧ enc_input ex' = [101; 102; 0; 0]
    ∧ enc_len ex' = 2
    ∧ enc_input_extend_vocab ex' = Some [101; 102; 0; 0].
Proof.
  destruct (Example_init ["a"; "b"] ["x"] (Char.hps "train" 2)) as [ex| |] eqn:Hex;
    [|vm_compute in Hex; discriminate..].
  destruct (pad_encoder_input_after_init ["a"; "b"] ["x"] (Char.hps "train" 2) ex 4 0 Hex)
    as (ex' & Hpad & Henc & Hlen & _ & Hext & _).
  exists ex, ex'. vm_compute in Hex. injection Hex as <-.
  repeat split; assumption.
Defined.

(** ** Batch.__init__: what the arrays hold *)

Lemma stacked_lookup_filled (batch_size width : Z) (filled : list (list Z)) (i : nat)
    (row : list Z) :
  filled !! i = Some row → stacked batch_size width filled !! i = Some row.
Proof. intros Hrow. unfold stacked. by apply lookup_app_l_Some. Qed.

Lemma stacked_lookup_zero (batch_size width : Z) (filled : list (list Z)) (i : nat) :
  (length filled <= i < Z.to_nat batch_size)%nat →
  stacked batch_size width filled !! i = Some (replicate (Z.to_nat width) 0).
Proof.
  intros Hi. unfold stacked. rewrite lookup_app_r by lia.
  apply lookup_replicate_2. lia.
Qed.

Lemma Example_init_originals {word : Type} `{Vocabulary word}
    (article abstract : list word) (hps : HParams) (ex : Example word) :
  Example_init article abstract hps = Ok ex →
  original_article ex = article
  ∧ original_abstract ex = abstract
  ∧ original_abstract_sents ex = abstract.
Proof.
  unfold Example_init.
  destruct (get_dec_inp_targ_seqs _ _ _ _) as [[inp tgt]| |]; try done. returned.
  destruct (pointer_gen hps).
  - destruct (article2ids _) as [ids oovs].
    destruct (get_dec_inp_targ_seqs _ _ _ _) as [[inp' tgt']| |]; try done.
    do 2 returned. by intros [= <-].
  - returned. by intros [= <-].
Qed.

Section BatchMore.
Context {word : Type} `{Vocabulary word}.
Variables (hps : HParams) (raw : list (list word * list word)).
Hypothesis nonempty : raw ≠ [].
Hypothesis fits : len raw <= batch_size hps.
Hypothesis dec_steps : 0 <= max_dec_steps hps.
Hypothesis aligned : pointer_gen hps = true → article2ids_aligned.

Local Abbreviation make := (λ '(article, abstract), Example_init article abstract hps).
Local Abbreviation p := (word2id _PAD).

(** The examples of the pairs of [raw] and the Batch made of them. *)
Lemma Batch_init_raw :
  ∃ examples,
    mapM make raw = Ok examples
    ∧ Forall2 (λ r ex, make r = Ok ex) raw examples
    ∧ Forall (Example_fresh hps) examples
    ∧ length examples = length raw
    ∧ Batch_init examples hps
      = Ok (padded (max_enc_len examples) (max_dec_steps hps) p <$> examples,
            stacked_batch hps examples).
Proof.
  destruct (mapM_Ok_Forall2 make (λ r ex, make r = Ok ex ∧ Example_fresh hps ex) raw)
    as (examples & Hrun & Hraw).
  { intros [article abstract].
    destruct (Example_init_Ok article abstract hps dec_steps aligned) as (ex & ? & ? & _).
    by exists ex. }
  pose proof (Forall2_length _ _ _ Hraw) as Hlen.
  assert (Hfresh : Forall (Example_fresh hps) examples).
  { clear -Hraw. induction Hraw as [|r ex raw' examples' [_ ?] _ IH]; by constructor. }
  exists examples. split; [exact Hrun|].
  split; [eapply Forall2_impl; [exact Hraw|]; by intros r ex [? _]|].
  split; [exact Hfresh|]. split; [by symmetry|].
  apply Batch_init_fresh; [|unfold len in *; lia|done..].
  destruct raw, examples; done.
Qed.

(** A padded row of int32 ids is stored as it is. *)
Lemma astype_int32_pad (v : list Z) (max_len pad_id : Z) :
  Forall is_int32 v →
  is_int32 pad_id →
  astype_int32 (pad v max_len pad_id)
  = v ++ replicate (Z.to_nat (max_len - len v)) pad_id.
Proof.
  intros Hv Hpad. rewrite pad_eq. apply astype_int32_id.
  apply Forall_app. split; [done|]. by apply Forall_replicate.
Qed.

(** X7: when the pad id and the ids of example [i] are in the range of
    int32, row [i] of [enc_batch] is the encoder input of example [i]
    followed by [pad_id] only, up to the longest encoder length of the
    batch; in pointer-generator mode row [i] of
    [enc_batch_extend_vocab] is made in the same way of
    [enc_input_extend_vocab]. *)
Theorem Batch_init_encoder_rows :
  ∃ examples padded_list batch,
    mapM make raw = Ok examples
    ∧ Batch_init examples hps = Ok (padded_list, batch)
    ∧ ∀ i ex,
        examples !! i = Some ex →
        is_int32 p →
        (Forall is_int32 (enc_input ex) →
         enc_batch batch !! i
         = Some (enc_input ex
                 ++ replicate (Z.to_nat (max_enc_len examples - enc_len ex)) p))
        ∧ (pointer_gen hps = true →
           ∃ ids a,
             enc_input_extend_vocab ex = Some ids
             ∧ enc_batch_extend_vocab batch = Some a
             ∧ (Forall is_int32 ids →
                a !! i
                = Some (ids
                        ++ replicate (Z.to_nat (max_enc_len examples - enc_len ex)) p))).
Proof.
  destruct Batch_init_raw as (examples & Hrun & _ & Hfresh & _ & Hbatch).
  eexists examples, _, _. split; [exact Hrun|]. split; [exact Hbatch|].
  intros i ex Hex Hpad.
  assert (Hfr : Example_fresh hps ex) by (eapply Forall_lookup_1; eauto).
  destruct Hfr as (_ & Henc & _ & _ & _ & Hext).
  cbn [enc_batch enc_batch_extend_vocab stacked_batch]. split.
  - intros Hids. apply stacked_lookup_filled. rewrite !list_lookup_fmap, Hex. cbn.
    by rewrite astype_int32_pad, Henc.
  - intros Hpg. rewrite Hpg in Hext |- *.
    destruct Hext as (ids & oovs & Hids & Hlen & _).
    eexists ids, _. split; [exact Hids|]. split; [reflexivity|].
    intros Hint. apply stacked_lookup_filled. rewrite !list_lookup_fmap, Hex. cbn.
    unfold extend_vocab_of. cbn. rewrite Hids. cbn.
    by rewrite astype_int32_pad, Hlen.
Qed.

(** X8: when the pad id and the ids of example [i] are in the range of
    int32, row [i] of [dec_batch] is the decoder input of example [i]
    and row [i] of [target_batch] is its target, each followed by
    [pad_id] only, up to [max_dec_steps] ids. *)
Theorem Batch_init_decoder_rows :
  ∃ examples padded_list batch,
    mapM make raw = Ok examples
    ∧ Batch_init examples hps = Ok (padded_list, batch)
    ∧ ∀ i ex,
        examples !! i = Some ex →
        is_int32 p →
        (Forall is_int32 (dec_input ex) →
         dec_batch batch !! i
         = Some (dec_input ex
                 ++ replicate (Z.to_nat (max_dec_steps hps - dec_len ex)) p))
        ∧ (Forall is_int32 (target ex) →
           target_batch batch !! i
           = Some (target ex
                   ++ replicate (Z.to_nat (max_dec_steps hps - len (target ex))) p)).
Proof.
  destruct Batch_init_raw as (examples & Hrun & _ & Hfresh & _ & Hbatch).
  eexists examples, _, _. split; [exact Hrun|]. split; [exact Hbatch|].
  intros i ex Hex Hpad.
  assert (Hfr : Example_fresh hps ex) by (eapply Forall_lookup_1; eauto).
  destruct Hfr as (_ & _ & Hdec & _).
  cbn [dec_batch target_batch stacked_batch]. split.
  - intros Hids. apply stacked_lookup_filled. rewrite !list_lookup_fmap, Hex. cbn.
    by rewrite astype_int32_pad, Hdec.
  - intros Hids. apply stacked_lookup_filled. rewrite !list_lookup_fmap, Hex. cbn.
    by rewrite astype_int32_pad.
Qed.

(** X9: row [i] of [padding_mask] has a one at each of the [dec_len]
    steps of example [i] and a zero at the steps of its padding;
    [dec_len] is the length of the decoder input before padding, at most
    [max_dec_steps]. *)
Theorem Batch_init_padding_mask :
  ∃ examples padded_list batch,
    mapM make raw = Ok examples
    ∧ Batch_init examples hps = Ok (padded_list, batch)
    ∧ ∀ i ex,
        examples !! i = Some ex →
        0 <= dec_len ex <= max_dec_steps hps
        ∧ dec_len ex = len (dec_input ex)
        ∧ padding_mask batch !! i
          = Some (replicate (Z.to_nat (dec_len ex)) 1
                  ++ replicate (Z.to_nat (max_dec_steps hps - dec_len ex)) 0).
Proof.
  destruct Batch_init_raw as (examples & Hrun & _ & Hfresh & _ & Hbatch).
  eexists examples, _, _. split; [exact Hrun|]. split; [exact Hbatch|].
  intros i ex Hex.
  assert (Hfr : Example_fresh hps ex) by (eapply Forall_lookup_1; eauto).
  destruct Hfr as (_ & _ & Hdec & Hle & _).
  pose proof (len_nonneg (dec_input ex)).
  split; [lia|]. split; [done|].
  cbn [padding_mask stacked_batch].
  apply stacked_lookup_filled. rewrite !list_lookup_fmap, Hex. cbn.
  unfold mask_row. cbn. do 3 f_equal. lia.
Qed.

(** X10: a Batch of fewer than [batch_size] examples still has
    [batch_size] rows: the rows behind the last example hold zeros, not
    [pad_id], in every array, with a recorded encoder length of 0 and a
    padding mask of zeros. *)
Theorem Batch_init_short_batch :
  ∃ examples padded_list batch,
    mapM make raw = Ok examples
    ∧ Batch_init examples hps = Ok (padded_list, batch)
    ∧ ∀ i : nat,
        (length raw <= i < Z.to_nat (batch_size hps))%nat →
        enc_batch batch !! i = Some (replicate (Z.to_nat (max_enc_len examples)) 0)
        ∧ enc_lens batch !! i = Some 0
        ∧ dec_batch batch !! i = Some (replicate (Z.to_nat (max_dec_steps hps)) 0)
        ∧ target_batch batch !! i = Some (replicate (Z.to_nat (max_dec_steps hps)) 0)
        ∧ padding_mask batch !! i = Some (replicate (Z.to_nat (max_dec_steps hps)) 0)
        ∧ (pointer_gen hps = true →
           ∃ a, enc_batch_extend_vocab batch = Some a
                ∧ a !! i = Some (replicate (Z.to_nat (max_enc_len examples)) 0)).
Proof.
  destruct Batch_init_raw as (examples & Hrun & _ & Hfresh & Hlen & Hbatch).
  eexists examples, _, _. split; [exact Hrun|]. split; [exact Hbatch|].
  intros i Hi.
  cbn [enc_batch enc_lens dec_batch target_batch padding_mask enc_batch_extend_vocab
       stacked_batch].
  repeat split.
  - apply stacked_lookup_zero. rewrite !length_fmap. lia.
  - rewrite lookup_app_r by (rewrite length_fmap; lia).
    apply lookup_replicate_2. rewrite length_fmap. lia.
  - apply stacked_lookup_zero. rewrite !length_fmap. lia.
  - apply stacked_lookup_zero. rewrite !length_fmap. lia.
  - apply stacked_lookup_zero. rewrite !length_fmap. lia.
  - intros Hpg. rewrite Hpg. eexists. split; [reflexivity|].
    apply stacked_lookup_zero. rewrite !length_fmap. lia.
Qed.

(** X11: [store_orig_strings] keeps the articles and the abstracts as
    they were given, before any truncation, one for each example and in
    the order of the examples; these lists are not filled up to
    [batch_size]. *)
Theorem Batch_init_original_strings :
  ∃ examples padded_list batch,
    mapM make raw = Ok examples
    ∧ Batch_init examples hps = Ok (padded_list, batch)
    ∧ original_articles batch = raw.*1
    ∧ original_abstracts batch = raw.*2
    ∧ original_abstracts_sents batch = raw.*2.
Proof.
  destruct Batch_init_raw as (examples & Hrun & Hraw & _ & _ & Hbatch).
  eexists examples, _, _. split; [exact Hrun|]. split; [exact Hbatch|].
  cbn [original_articles original_abstracts original_abstracts_sents stacked_batch].
  clear -Hraw. induction Hraw as [|[article abstract] ex raw' examples' Hex _ IH].
  - done.
  - destruct (Example_init_originals article abstract hps ex Hex) as (Ha & Hb & Hc).
    destruct IH as (IHa & IHb & IHc). cbn. by rewrite Ha, Hb, Hc, IHa, IHb, IHc.
Qed.

(** X12: in pointer-generator mode [art_oovs] lists the article OOVs of
    each example, in the order of the examples, and [max_art_oovs] is
    the largest number of OOVs that an example has; in the other mode
    the three pointer-generator attributes of the Batch are not set. *)
Theorem Batch_init_art_oovs :
  ∃ examples padded_list batch,
    mapM make raw = Ok examples
    ∧ Batch_init examples hps = Ok (padded_list, batch)
    ∧ (pointer_gen hps = true →
       ∃ oovs m,
         art_oovs batch = Some oovs
         ∧ Forall2 (λ ex o, article_oovs ex = Some o) examples oovs
         ∧ max_art_oovs batch = Some m
         ∧ m ∈ len <$> oovs
         ∧ Forall (λ o, len o <= m) oovs)
    ∧ (pointer_gen hps = false →
       art_oovs batch = None
       ∧ max_art_oovs batch = None
       ∧ enc_batch_extend_vocab batch = None).
Proof.
  destruct Batch_init_raw as (examples & Hrun & _ & Hfresh & Hlen & Hbatch).
  eexists examples, _, _. split; [exact Hrun|]. split; [exact Hbatch|].
  cbn [art_oovs max_art_oovs enc_batch_extend_vocab stacked_batch].
  split; intros Hpg; rewrite Hpg; [|done].
  eexists _, _. split; [reflexivity|].
  assert (Hne : examples ≠ []) by (destruct raw, examples; done).
  split; [|split; [reflexivity|split]].
  - apply Forall2_fmap_r, Forall_Forall2_diag.
    eapply Forall_impl; [exact Hfresh|].
    intros ex (_ & _ & _ & _ & _ & Hext). rewrite Hpg in Hext.
    destruct Hext as (ids & oovs & _ & _ & Hoovs). unfold oovs_of. cbn. by rewrite Hoovs.
  - rewrite <- list_fmap_compose. apply maximum_elem.
    intros Hnil. by apply fmap_nil_inv in Hnil.
  - apply Forall_fmap, Forall_forall. intros ex Hex. cbn.
    apply maximum_ge. apply list_elem_of_fmap. by exists ex.
Qed.

End BatchMore.

(** Two examples, of encoder lengths 2 and 1 and of decoder lengths 2
    and 3, in a batch of size 3. *)
Lemma Batch_init_encoder_rows_witness :
  Char.two_pairs ≠ []
  ∧ len Char.two_pairs <= batch_size (Char.hps "train" 3)
  ∧ 0 <= max_dec_steps (Char.hps "train" 3)
  ∧ ∃ examples padded_list batch,
      mapM (λ '(article, abstract), Example_init article abstract (Char.hps "train" 3))
        Char.two_pairs = Ok examples
      ∧ Batch_init examples (Char.hps "train" 3) = Ok (padded_list, batch)
      ∧ enc_batch batch !! 0%nat = Some [101; 102]
      ∧ enc_batch batch !! 1%nat = Some [103; 0].
Proof.
  split; [done|]. do 2 (split; [vm_compute; discriminate|]).
  destruct (Batch_init_encoder_rows (Char.hps "train" 3) Char.two_pairs)
    as (examples & padded_list & batch & Hrun & Hinit & Hrows).
  - done.
  - vm_compute. discriminate.
  - vm_compute. discriminate.
  - intros _. exact char_article2ids_aligned.
  - exists examples, padded_list, batch.
    split; [exact Hrun|]. split; [exact Hinit|].
    vm_compute in Hrun. injection Hrun as <-.
    assert (Hpad : is_int32 (word2id _PAD)) by (by vm_compute).
    split.
    + apply (proj1 (Hrows 0%nat _ eq_refl Hpad)).
      repeat constructor; unfold is_int32; lia.
    + apply (proj1 (Hrows 1%nat _ eq_refl Hpad)).
      repeat constructor; unfold is_int32; lia.
Defined.

Lemma Batch_init_decoder_rows_witness :
  Char.two_pairs ≠ []
  ∧ len Char.two_pairs <= batch_size (Char.hps "train" 3)
  ∧ 0 <= max_dec_steps (Char.hps "train" 3)
  ∧ ∃ examples padded_list batch,
      mapM (λ '(article, abstract), Example_init article abstract (Char.hps "train" 3))
        Char.two_pairs = Ok examples
      ∧ Batch_init examples (Char.hps "train" 3) = Ok (padded_list, batch)
      ∧ dec_batch batch !! 0%nat = Some [1; 124; 0]
      ∧ target_batch batch !! 0%nat = Some [124; 2; 0].
Proof.
  split; [done|]. do 2 (split; [vm_compute; discriminate|]).
  destruct (Batch_init_decoder_rows (Char.hps "train" 3) Char.two_pairs)
    as (examples & padded_list & batch & Hrun & Hinit & Hrows).
  - done.
  - vm_compute. discriminate.
  - vm_compute. discriminate.
  - intros _. exact char_article2ids_aligned.
  - exists examples, padded_list, batch.
    split; [exact Hrun|]. split; [exact Hinit|].
    vm_compute in Hrun. injection Hrun as <-.
    assert (Hpad : is_int32 (word2id _PAD)) by (by vm_compute).
    split.
    + apply (proj1 (Hrows 0%nat _ eq_refl Hpad)).
      repeat constructor; unfold is_int32; lia.
    + apply (proj2 (Hrows 0%nat _ eq_refl Hpad)).
      repeat constructor; unfold is_int32; lia.
Defined.

Lemma Batch_init_padding_mask_witness :
  Char.two_pairs ≠ []
  ∧ len Char.two_pairs <= batch_size (Char.hps "train" 3)
  ∧ 0 <= max_dec_steps (Char.hps "train" 3)
  ∧ ∃ examples padded_list batch,
      mapM (λ '(article, abstract), Example_init article abstract (Char.hps "train" 3))
        Char.two_pairs = Ok examples
      ∧ Batch_init examples (Char.hps "train" 3) = Ok (padded_list, batch)
      ∧ padding_mask batch !! 0%nat = Some [1; 1; 0]
      ∧ padding_mask batch !! 1%nat = Some [1; 1; 1].
Proof.
  split; [done|]. do 2 (split; [vm_compute; discriminate|]).
  destruct (Batch_init_padding_mask (Char.hps "train" 3) Char.two_pairs)
    as (examples & padded_list & batch & Hrun & Hinit & Hrows).
  - done.
  - vm_compute. discriminate.
  - vm_compute. discriminate.
  - intros _. exact char_article2ids_aligned.
  - exists examples, padded_list, batch.
    split; [exact Hrun|]. split; [exact Hinit|].
    vm_compute in Hrun. injection Hrun as <-.
    split; [exact (proj2 (proj2 (Hrows 0%nat _ eq_refl)))
           |exact (proj2 (proj2 (Hrows 1%nat _ eq_refl)))].
Defined.

Lemma Batch_init_short_batch_witness :
  Char.two_pairs ≠ []
  ∧ len Char.two_pairs <= batch_size (Char.hps "train" 3)
  ∧ 0 <= max_dec_steps (Char.hps "train" 3)
  ∧ ∃ examples padded_list batch,
      mapM (λ '(article, abstract), Example_init article abstract (Char.hps "train" 3))
        Char.two_pairs = Ok examples
      ∧ Batch_init examples (Char.hps "train" 3) = Ok (padded_list, batch)
      ∧ enc_batch batch !! 2%nat = Some [0; 0]
      ∧ enc_lens batch !! 2%nat = Some 0
      ∧ dec_batch batch !! 2%nat = Some [0; 0; 0].
Proof.
  split; [done|]. do 2 (split; [vm_compute; discriminate|]).
  destruct (Batch_init_short_batch (Char.hps "train" 3) Char.two_pairs)
    as (examples & padded_list & batch & Hrun & Hinit & Hrows).
  - done.
  - vm_compute. discriminate.
  - vm_compute. discriminate.
  - intros _. exact char_article2ids_aligned.
  - exists examples, padded_list, batch.
    split; [exact Hrun|]. split; [exact Hinit|].
    vm_compute in Hrun. injection Hrun as <-.
    destruct (Hrows 2%nat) as (Henc & Hlens & Hdec & _); [vm_compute; lia|].
    split; [exact Henc|]. split; [exact Hlens|exact Hdec].
Defined.

Lemma Batch_init_original_strings_witness :
  Char.two_pairs ≠ []
  ∧ len Char.two_pairs <= batch_size (Char.hps "train" 3)
  ∧ 0 <= max_dec_steps (Char.hps "train" 3)
  ∧ ∃ examples padded_list batch,
      mapM (λ '(article, abstract), Example_init article abstract (Char.hps "train" 3))
        Char.two_pairs = Ok examples
      ∧ Batch_init examples (Char.hps "train" 3) = Ok (padded_list, batch)
      ∧ original_articles batch = [["a"; "b"]; ["c"]]
      ∧ original_abstracts batch = [["x"]; ["y"; "z"]].
Proof.
  split; [done|]. do 2 (split; [vm_compute; discriminate|]).
  destruct (Batch_init_original_strings (Char.hps "train" 3) Char.two_pairs)
    as (examples & padded_list & batch & Hrun & Hinit & Harticles & Habstracts & _).
  - done.
  - vm_compute. discriminate.
  - vm_compute. discriminate.
  - intros _. exact char_article2ids_aligned.
  - exists examples, padded_list, batch.
    split; [exact Hrun|]. split; [exact Hinit|].
    split; [exact Harticles|exact Habstracts].
Defined.

Lemma oov_ids_from_length (oovs ws : list string) :
  length (Oov.ids_from oovs ws).1 = length ws.
Proof.
  revert oovs. induction ws as [|w ws IH]; intros oovs; [done|]. simpl.
  destruct (Oov.oov_word2id w =? Oov.unk_id).
  - specialize (IH (if Oov.member w oovs then oovs else oovs ++ [w])).
    destruct (Oov.ids_from _ ws). simpl in *. by rewrite IH.
  - specialize (IH oovs). destruct (Oov.ids_from oovs ws). simpl in *. by rewrite IH.
Qed.

Lemma oov_article2ids_aligned : @article2ids_aligned string Oov.vocabulary.
Proof. intros ws. unfold len. f_equal. apply oov_ids_from_length. Qed.

(** Two articles with unknown words: "x" and "y" in the first four words
    of the first one, "z" in the second one.  The ids of these words in
    [enc_batch_extend_vocab] start at the size of the vocabulary, 7;
    in [enc_batch] they have the id of the unknown token, 3. *)
Lemma Batch_init_art_oovs_witness :
  let hps := Char.hps "train" 3 in
  Oov.pairs ≠ []
  ∧ len Oov.pairs <= batch_size hps
  ∧ 0 <= max_dec_steps hps
  ∧ ∃ examples padded_list batch,
      mapM (λ '(article, abstract),
              @Example_init string Oov.vocabulary article abstract hps) Oov.pairs
      = Ok examples
      ∧ @Batch_init string Oov.vocabulary examples hps = Ok (padded_list, batch)
      ∧ article_oovs <$> examples = [Some ["x"; "y"]; Some ["z"]]
      ∧ art_oovs batch = Some [["x"; "y"]; ["z"]]
      ∧ max_art_oovs batch = Some 2
      ∧ enc_batch_extend_vocab batch = Some [[4; 7; 5; 8]; [7; 0; 0; 0]; [0; 0; 0; 0]]
      ∧ enc_batch batch = [[4; 3; 5; 3]; [3; 0; 0; 0]; [0; 0; 0; 0]].
Proof.
  intros hps.
  split; [done|]. do 2 (split; [vm_compute; discriminate|]).
  destruct (@Batch_init_art_oovs string Oov.vocabulary hps Oov.pairs)
    as (examples & padded_list & batch & Hrun & Hinit & Hpg & _).
  - done.
  - vm_compute. discriminate.
  - vm_compute. discriminate.
  - intros _. exact oov_article2ids_aligned.
  - destruct (Hpg eq_refl) as (oovs & m & Hoovs & Hall & Hmax & _ & _).
    exists examples, padded_list, batch.
    split; [exact Hrun|]. split; [exact Hinit|].
    vm_compute in Hrun. injection Hrun as <-.
    vm_compute in Hinit. injection Hinit as _ <-.
    repeat split; reflexivity.
Defined.

(** ** Batch.__init__: the lists it refuses *)

(** A loop over [enumerate] that keeps its invariant [P] for [k] rounds
    and whose round [k] raises. *)
Lemma for_enumerate_raise {A St} (P : nat → St → Prop) (body : nat → A → St → result St)
    (e : exn) (k : nat) (l : list A) (i : nat) (s : St) :
  P i s →
  (∀ j x s, (j < k)%nat → l !! j = Some x → P (i + j)%nat s →
            ∃ s', body (i + j)%nat x s = Ok s' ∧ P (S (i + j)) s') →
  (∀ x s, l !! k = Some x → P (i + k)%nat s → body (i + k)%nat x s = Raise e) →
  is_Some (l !! k) →
  for_enumerate i l body s = Raise e.
Proof.
  revert l i s. induction k as [|k IH]; intros l i s Hs Hbody Hraise [x Hx].
  - destruct l as [|y l]; simplify_eq/=.
    specialize (Hraise x s eq_refl). rewrite Nat.add_0_r in Hraise.
    by rewrite Hraise.
  - destruct l as [|y l]; [done|]. simpl in Hx |- *.
    destruct (Hbody O y s) as (s1 & Hy & Hs1); [lia|done|by rewrite Nat.add_0_r|].
    rewrite Nat.add_0_r in Hy, Hs1. rewrite Hy. returned.
    apply IH; [done| | |by exists x].
    + intros j z s2 Hj Hz Hs2.
      replace (S i + j)%nat with (i + S j)%nat by lia.
      apply Hbody; [lia|done|]. by replace (i + S j)%nat with (S i + j)%nat by lia.
    + intros z s2 Hz Hs2.
      replace (S i + k)%nat with (i + S k)%nat by lia.
      apply Hraise; [done|]. by replace (i + S k)%nat with (S i + k)%nat by lia.
Qed.

Section BatchErrors.
Context {word : Type} `{Vocabulary word}.
Variables (hps : HParams) (example_list : list (Example word)).
Hypothesis nonempty : example_list ≠ [].
Hypothesis fresh : Forall (Example_fresh hps) example_list.

Local Abbreviation M := (max_enc_len example_list).
Local Abbreviation p := (word2id _PAD).
Local Abbreviation enc_padded := (padded_enc M p <$> example_list).

(** [np.zeros] refuses a negative number of rows. *)
Lemma Batch_init_negative_batch_size :
  batch_size hps < 0 → Batch_init example_list hps = Raise ValueError.
Proof.
  intros Hneg. unfold Batch_init, init_encoder_seq. cbv zeta.
  rewrite py_max_maximum by (intros Hnil; by apply fmap_nil_inv in Hnil).
  returned. fold M.
  rewrite (mapM_Ok _ (padded_enc M p)).
  2:{ eapply Forall_impl; [exact fresh|]. intros ex Hex.
      by eapply pad_encoder_input_fresh. }
  returned. unfold np_zeros2.
  destruct (Z.ltb_spec (batch_size hps) 0) as [_|?]; [done|lia].
Qed.

(** The row of the example at position [batch_size] is outside of the
    arrays. *)
Lemma Batch_init_too_many :
  0 <= batch_size hps < len example_list →
  Batch_init example_list hps = Raise IndexError.
Proof.
  intros Hmany. unfold Batch_init, init_encoder_seq. cbv zeta.
  pose proof (max_enc_len_nonneg hps example_list fresh) as HM.
  rewrite py_max_maximum by (intros Hnil; by apply fmap_nil_inv in Hnil).
  returned. fold M.
  rewrite (mapM_Ok _ (padded_enc M p)).
  2:{ eapply Forall_impl; [exact fresh|]. intros ex Hex.
      by eapply pad_encoder_input_fresh. }
  returned.
  rewrite np_zeros2_stacked by lia. returned.
  rewrite np_zeros1_stacked by lia. returned.
  rewrite (for_enumerate_raise
             (λ k (s : list (list Z) * list Z),
                s = (stacked (batch_size hps) M
                       ((λ ex, astype_int32 (enc_input ex)) <$> take k enc_padded),
                     ((λ ex, wrap32 (enc_len ex)) <$> take k enc_padded)
                     ++ replicate (Z.to_nat (batch_size hps)
                                   - length ((λ ex : Example word, wrap32 (enc_len ex))
                                             <$> take k enc_padded)) 0))
             _ IndexError (Z.to_nat (batch_size hps))); [done|reflexivity| | |].
  - intros j x s Hj Hx ->. simpl in *.
    apply list_lookup_fmap_Some in Hx as Hex. destruct Hex as (ex & -> & Hex).
    assert (Hfr : Example_fresh hps ex) by (eapply Forall_lookup_1; eauto).
    assert (Hle : enc_len ex <= M).
    { apply max_enc_len_ge. by eapply list_elem_of_lookup_2. }
    destruct (take_lookup_snoc _ _ _ Hx) as [-> Htake].
    destruct (padded_enc_fresh hps ex M p Hfr Hle) as [Hlen _].
    rewrite np_set_row_stacked; [|by rewrite length_fmap|done|unfold len in Hlen; lia].
    simpl. rewrite np_set1_stacked; [|by rewrite length_fmap|done].
    simpl. eexists. split; [reflexivity|]. by rewrite !fmap_app.
  - intros x s Hx ->. simpl.
    unfold np_set_row, stacked.
    rewrite lookup_ge_None_2; [done|].
    rewrite length_app, length_replicate, length_fmap, length_take, length_fmap.
    unfold len in Hmany. lia.
  - apply lookup_lt_is_Some. rewrite length_fmap. unfold len in Hmany. lia.
Qed.

End BatchErrors.

(** X13: the lists that [Batch.__init__] refuses.  On the empty list
    [max] raises ValueError.  On a list of examples made by the
    constructor, a negative [batch_size] makes [np.zeros] raise
    ValueError, and a [batch_size] smaller than the number of examples
    makes the assignment of the row at position [batch_size] raise
    IndexError. *)
Theorem Batch_init_refuses {word : Type} `{Vocabulary word}
    (hps : HParams) (raw : list (list word * list word)) :
  raw ≠ [] →
  0 <= max_dec_steps hps →
  (pointer_gen hps = true → article2ids_aligned) →
  Batch_init (@nil (Example word)) hps = Raise ValueError
  ∧ ∃ examples,
      mapM (λ '(article, abstract), Example_init article abstract hps) raw = Ok examples
      ∧ (batch_size hps < 0 → Batch_init examples hps = Raise ValueError)
      ∧ (0 <= batch_size hps < len raw → Batch_init examples hps = Raise IndexError).
Proof.
  intros Hne Hdec Haligned. split; [reflexivity|].
  destruct (examples_of_raw hps raw Hdec Haligned) as (examples & Hrun & Hfresh & Hraw).
  pose proof (Forall2_length _ _ _ Hraw) as Hlen.
  assert (Hne' : examples ≠ []) by (destruct raw, examples; done).
  exists examples. split; [exact Hrun|]. split.
  - by apply Batch_init_negative_batch_size.
  - intros Hmany. apply Batch_init_too_many; [done..|]. unfold len in *. lia.
Qed.

Lemma Batch_init_refuses_witness :
  Char.two_pairs ≠ []
  ∧ 0 <= max_dec_steps (Char.hps "train" 1)
  ∧ ∃ examples,
      mapM (λ '(article, abstract), Example_init article abstract (Char.hps "train" 1))
        Char.two_pairs = Ok examples
      ∧ Batch_init examples (Char.hps "train" 1) = Raise IndexError.
Proof.
  split; [done|]. split; [vm_compute; discriminate|].
  destruct (Batch_init_refuses (Char.hps "train" 1) Char.two_pairs)
    as (_ & examples & Hrun & _ & Hmany).
  - done.
  - vm_compute. discriminate.
  - intros _. exact char_article2ids_aligned.
  - exists examples. split; [exact Hrun|]. apply Hmany. vm_compute. split; [discriminate|reflexivity].
Defined.

(** ** Batcher.refill again *)

(** What a loop that returns has established, by its invariant [I]. *)
Lemma while_partial {St} (I Q : St → Prop) (cond : St → bool)
    (body : St → result (ctl St)) :
  (∀ s, I s → cond s = false → Q s) →
  (∀ s c, I s → cond s = true → body s = Ok c →
          match c with Continue s' => I s' | Break s' => Q s' end) →
  ∀ fuel s s', I s → while fuel cond body s = Ok s' → Q s'.
Proof.
  intros Hexit Hbody fuel. induction fuel as [|fuel IH]; intros s s' Hs; simpl.
  - destruct (cond s) eqn:Hcond; [done|]. intros [= <-]. by apply Hexit.
  - destruct (cond s) eqn:Hcond; [|intros [= <-]; by apply Hexit].
    destruct (body s) as [c| |] eqn:Hc; [|done..]. returned.
    specialize (Hbody s c Hs Hcond Hc). destruct c as [s1|s1].
    + by apply IH.
    + by intros [= <-].
Qed.

Lemma groups_of_at_most {A} (batch_size limit : Z) (l : list A) :
  1 <= batch_size →
  0 <= limit →
  len l <= batch_size * limit →
  (length (groups_of batch_size l) <= Z.to_nat limit)%nat.
Proof.
  intros Hbs Hlimit Hl. unfold groups_of. rewrite length_fmap, length_seq.
  apply Z2Nat.inj_le; [|lia|].
  - apply Z.div_pos; [|lia]. pose proof (len_nonneg l). lia.
  - apply Z.lt_succ_r, Z.div_lt_upper_bound; nia.
Qed.

Section RefillMore.
Context {word : Type} `{Vocabulary word}.
Context {RandomState : Type} `{NumpyRandom RandomState}.

(** The reading loop stops at its limit of [batch_size * 16] examples. *)
Lemma read_inputs_bound (hps : HParams) (w : World RandomState) (s : Reading word) :
  1 <= batch_size hps →
  read_inputs hps w = Ok s →
  len (inputs s) <= batch_size hps * 16.
Proof.
  intros Hbs. unfold read_inputs.
  apply (while_partial (λ s : Reading word, len (inputs s) < batch_size hps * 16)
           (λ s : Reading word, len (inputs s) <= batch_size hps * 16)).
  - intros s0 Hs0 _. lia.
  - intros s0 c Hs0 _. unfold read_body.
    destruct (len (remove_nonascii (linex s0)) =? 0).
    { intros [= <-]. by destruct (read_pair_inputs (inputs s0) (rd_fdx s0) (rd_fdy s0)
                                    (rd_warnings s0 ++ [empty_article_warning])) as [-> _]. }
    destruct (Example_init _ _ _) as [ex| |]; [|done..]. returned.
    destruct (Z.eqb_spec (len (inputs s0 ++ [ex])) (batch_size hps * 16)) as [Hfull|Hnot];
      intros [= <-].
    + cbn. lia.
    + destruct (read_pair_inputs (inputs s0 ++ [ex]) (rd_fdx s0) (rd_fdy s0)
                  (rd_warnings s0)) as [-> _].
      rewrite len_app, len_cons, len_nil in *. lia.
  - destruct (read_pair_inputs (@nil (Example word)) (fdx w) (fdy w) (warnings w))
      as [-> _].
    rewrite len_nil. lia.
Qed.

(** X14: when the mode is not 'decode', a call of [refill] reads at most
    [16 * batch_size] examples and so adds at most 16 batches to
    [self.batches]; the lines behind these examples stay in the files
    for the next call.  A call that reads fewer examples has come to the
    end of a file. *)
Theorem refill_reads_at_most_16_batches (self : Batcher word) (w : World RandomState) :
  mode (_hps self) ≠ "decode" →
  1 <= batch_size (_hps self) →
  0 <= max_dec_steps (_hps self) →
  (pointer_gen (_hps self) = true → article2ids_aligned) →
  (∀ (g : RandomState) (l : list (Batch word)), (np_random_shuffle g l).1 ≡ₚ l) →
  ∃ s self' w',
    read_inputs (_hps self) w = Ok s
    ∧ refill self w = Ok (self', w')
    ∧ len (inputs s) <= batch_size (_hps self) * 16
    ∧ (length (batches self') <= length (batches self) + 16)%nat
    ∧ (len (inputs s) < batch_size (_hps self) * 16 →
       line_pairs (fdx w') (fdy w') = []).
Proof.
  intros Hmode Hbs Hdec Haligned Hperm.
  destruct (refill_train self w Hbs Hdec Haligned Hmode)
    as (s & n & Hread & Hhas & _ & _ & Hrefill).
  cbv zeta in Hrefill.
  pose proof (read_inputs_bound _ _ _ Hbs Hread) as Hbound.
  eexists s, _, _. split; [exact Hread|]. split; [exact Hrefill|].
  split; [exact Hbound|]. cbn. split.
  - assert (Hnew : ∀ l : list (Example word),
              length l = length (inputs s) →
              (length (batches self ++ (stacked_batch (_hps self)
                                          <$> groups_of (batch_size (_hps self)) l))
               <= length (batches self) + 16)%nat).
    { intros l Hl. rewrite length_app, length_fmap.
      pose proof (groups_of_at_most (batch_size (_hps self)) 16 l Hbs) as Hgroups.
      unfold len in *. rewrite Hl in Hgroups. lia. }
    destruct (_single_pass self); cbn.
    + by apply Hnew.
    + rewrite Hperm. apply Hnew, length_sorted.
  - intros Hfew. destruct Hhas as (_ & _ & _ & Hleft & [Hfull| ->]); [lia|].
    rewrite drop_all in Hleft. exact Hleft.
Qed.

End RefillMore.

Lemma refill_reads_at_most_16_batches_witness :
  let self := Char.batcher "train" 2 false in
  let w := Char.reading Char.articles Char.abstracts in
  mode (_hps self) ≠ "decode"
  ∧ 1 <= batch_size (_hps self)
  ∧ 0 <= max_dec_steps (_hps self)
  ∧ ∃ s self' w',
      read_inputs (_hps self) w = Ok s
      ∧ refill self w = Ok (self', w')
      ∧ len (inputs s) <= 2 * 16
      ∧ (length (batches self') <= 0 + 16)%nat
      ∧ line_pairs (fdx w') (fdy w') = [].
Proof.
  intros self w. split; [done|]. do 2 (split; [vm_compute; discriminate|]).
  destruct (refill_reads_at_most_16_batches self w)
    as (s & self' & w' & Hread & Hrefill & Hbound & Hbatches & Hleft).
  - done.
  - vm_compute. discriminate.
  - vm_compute. discriminate.
  - intros _. exact char_article2ids_aligned.
  - exact reversing_permutes.
  - exists s, self', w'. split; [exact Hread|]. split; [exact Hrefill|].
    split; [exact Hbound|]. split; [exact Hbatches|].
    apply Hleft. vm_compute in Hread. injection Hread as <-. reflexivity.
Defined.

(** ** A batch size that is not positive *)

Section BatchSize.
Context {word : Type} `{Vocabulary word}.
Context {RandomState : Type} `{NumpyRandom RandomState}.

(** With [max_dec_steps >= 0] the constructor returns. *)
Lemma Example_init_returns (article abstract : list word) (hps : HParams) :
  0 <= max_dec_steps hps → ∃ ex, Example_init article abstract hps = Ok ex.
Proof.
  intros Hdec. unfold Example_init. cbv zeta.
  rewrite get_dec_inp_targ_seqs_take by done. returned.
  destruct (pointer_gen hps); [|by eexists].
  destruct (article2ids _) as [ids oovs].
  rewrite get_dec_inp_targ_seqs_take by done. returned. by eexists.
Qed.

(** The reading loop returns, whatever the batch size. *)
Lemma read_inputs_returns (hps : HParams) (w : World RandomState) :
  0 <= max_dec_steps hps → ∃ s, read_inputs hps w = Ok s.
Proof.
  intros Hdec. unfold read_inputs.
  destruct (while_total (λ _ : Reading word, True) (λ _ : Reading word, True)
              (λ s : Reading word,
                 (String.length (linex s) + String.length (rd_fdx s))%nat)
              lines_left (read_body hps)) with
    (fuel := S (String.length (fdx w)))
    (s := read_pair (@nil (Example word)) (fdx w) (fdy w) (warnings w))
    as (s' & Hrun & _); [done| |done| |by exists s'].
  - intros s _ Hcond. unfold read_body, lines_left in *.
    apply andb_true_iff in Hcond as [Hx _]. apply truthy_length in Hx.
    assert (Hnext : ∀ (exs : list (Example word)) ws,
              (String.length (linex (read_pair exs (rd_fdx s) (rd_fdy s) ws))
               + String.length (rd_fdx (read_pair exs (rd_fdx s) (rd_fdy s) ws))
               < String.length (linex s) + String.length (rd_fdx s))%nat).
    { intros exs ws. pose proof (readline_length (rd_fdx s)) as Hlen.
      unfold read_pair.
      destruct (readline (rd_fdx s)), (readline (rd_fdy s)). simpl in *. lia. }
    destruct (len (remove_nonascii (linex s)) =? 0); [by eexists (Continue _)|].
    destruct (Example_init_returns (remove_nonascii (linex s))
                (remove_nonascii (liney s)) hps Hdec) as [ex ->]. returned.
    destruct (_ =? _); [by eexists (Break _)|by eexists (Continue _)].
  - pose proof (readline_length (fdx w)) as Hlen. unfold read_pair.
    destruct (readline (fdx w)), (readline (fdy w)). simpl in *. lia.
Qed.

(** X15: when the mode is not 'decode' and [batch_size] is 0, the first
    call of [next] raises the ValueError of [xrange] with a step of 0;
    when [batch_size] is negative, [xrange] is empty, no batch is made of
    the examples that were read, and the iteration returns at once
    without a batch and without an error. *)
Theorem pair_iter_nonpositive_batch_size (fs : string → option string)
    (self : Batcher word) (w : World RandomState) (x y : string) :
  fs (_data_path self +:+ ".x.txt") = Some x →
  fs (_data_path self +:+ ".y.txt") = Some y →
  mode (_hps self) ≠ "decode" →
  0 <= max_dec_steps (_hps self) →
  (∀ (g : RandomState) (l : list (Batch word)), (np_random_shuffle g l).1 ≡ₚ l) →
  ∀ fuel,
    (batch_size (_hps self) = 0 →
     pair_iter (S fuel) fs self w = ([], Raised ValueError, (self, w)))
    ∧ (batch_size (_hps self) < 0 →
       ∃ final, pair_iter (S fuel) fs self w = ([], Returned, final)).
Proof.
  intros Hx Hy Hmode Hdec Hperm fuel.
  unfold pair_iter. cbn [iterate]. unfold pair_iter_next, open. rewrite Hx, Hy.
  do 2 returned. unfold pair_iter_round. cbn [batches set_batches].
  change (len (@nil (Batch word)) =? 0) with true. cbv iota.
  unfold refill. cbn [_hps set_batches].
  apply String.eqb_neq in Hmode. rewrite Hmode. simpl negb. cbv iota.
  destruct (read_inputs_returns (_hps self)
              {| fdx := x; fdy := y; warnings := warnings w;
                 random_state := random_state w |} Hdec) as [s ->].
  returned. cbv zeta. unfold xrange. split.
  - intros ->. by destruct (negb (_single_pass self)).
  - intros Hneg.
    destruct (Z.eqb_spec (batch_size (_hps self)) 0) as [?|_]; [lia|].
    destruct (Z.ltb_spec (batch_size (_hps self)) 0) as [_|?]; [|lia].
    returned. cbn [fmap list_fmap for_each]. returned. cbn [_single_pass set_batches batches].
    destruct (_single_pass self); cbn [negb].
    + by eexists.
    + cbn [random_state]. pose proof (Hperm (random_state w) []) as Hnil.
      destruct (np_random_shuffle (random_state w) []) as [bs rs].
      apply Permutation_nil_r in Hnil. cbn in Hnil. subst bs. by eexists.
Qed.

(** X16: in 'decode' mode with [batch_size <= 0], a call of [refill]
    that finds a line in each file never returns: every round of its
    loop appends an example, so the length of [batch] is never
    [batch_size], and the lines are not read again. *)
Theorem refill_decode_never_ends (self : Batcher word) (w : World RandomState) :
  mode (_hps self) = "decode" →
  batch_size (_hps self) <= 0 →
  0 <= max_dec_steps (_hps self) →
  truthy (fdx w) = true →
  truthy (fdy w) = true →
  (∀ fuel,
     while fuel (λ _, truthy (readline (fdx w)).1 && truthy (readline (fdy w)).1)
       (decode_body (_hps self) (readline (fdx w)).1 (readline (fdy w)).1) []
     = NoFuel)
  ∧ refill self w = NoFuel.
Proof.
  intros Hmode Hbs Hdec Hfx Hfy.
  assert (Hlines : truthy (readline (fdx w)).1 && truthy (readline (fdy w)).1 = true)
    by (by rewrite !readline_truthy, Hfx, Hfy).
  destruct (Example_init_returns (remove_nonascii (readline (fdx w)).1)
              (remove_nonascii (readline (fdy w)).1) (_hps self) Hdec) as [ex Hex].
  assert (Hloop : ∀ fuel,
            while fuel (λ _, truthy (readline (fdx w)).1 && truthy (readline (fdy w)).1)
              (decode_body (_hps self) (readline (fdx w)).1 (readline (fdy w)).1) []
            = NoFuel).
  { intros fuel. by eapply decode_loop_diverges. }
  split; [exact Hloop|].
  unfold refill. rewrite Hmode. simpl negb. cbv iota.
  destruct (readline (fdx w)) as [linex fdx'], (readline (fdy w)) as [liney fdy'].
  cbn [fst] in Hloop. by rewrite Hloop.
Qed.

End BatchSize.

Lemma pair_iter_nonpositive_batch_size_witness :
  let fs := Char.two_files Char.articles Char.abstracts in
  mode (_hps (Char.batcher "train" 0 true)) ≠ "decode"
  ∧ pair_iter 1 fs (Char.batcher "train" 0 true) Char.world
    = ([], Raised ValueError, (Char.batcher "train" 0 true, Char.world))
  ∧ ∃ final, pair_iter 1 fs (Char.batcher "train" (-2) true) Char.world
             = ([], Returned, final).
Proof.
  intros fs. split; [done|]. split.
  - apply (pair_iter_nonpositive_batch_size fs (Char.batcher "train" 0 true) Char.world
             Char.articles Char.abstracts eq_refl eq_refl);
      [done|vm_compute; discriminate|exact reversing_permutes|reflexivity].
  - apply (pair_iter_nonpositive_batch_size fs (Char.batcher "train" (-2) true) Char.world
             Char.articles Char.abstracts eq_refl eq_refl);
      [done|vm_compute; discriminate|exact reversing_permutes|reflexivity].
Defined.

Lemma refill_decode_never_ends_witness :
  let self := Char.batcher "decode" 0 true in
  let w := Char.reading Char.articles Char.abstracts in
  mode (_hps self) = "decode"
  ∧ batch_size (_hps self) <= 0
  ∧ refill self w = NoFuel.
Proof.
  intros self w. split; [done|]. split; [done|].
  apply (refill_decode_never_ends self w); [done|done|vm_compute; discriminate|done|done].
Defined.

(** ** Batcher.pair_iter: what an iteration leaves behind *)

Section PairIterMore.
Context {word : Type} `{Vocabulary word}.
Context {RandomState : Type} `{NumpyRandom RandomState}.
Implicit Types (self : Batcher word) (w : World RandomState).

(** The attributes of a Batcher that [__init__] sets and that nothing
    else assigns. *)
Local Abbreviation same_settings := (λ self' self : Batcher word,
  _hps self' = _hps self
  ∧ _single_pass self' = _single_pass self
  ∧ _data_path self' = _data_path self).

Lemma pair_iter_round_settings self w b self' w' :
  pair_iter_round self w = Ok (b, self', w') →
  same_settings self' self ∧ (b = None → batches self' = []).
Proof.
  unfold pair_iter_round.
  destruct (len (batches self) =? 0).
  - destruct (refill self w) as [[self1 w1]| |] eqn:Hrefill; try done. returned.
    apply refill_hps in Hrefill.
    destruct (batches self1) eqn:Hb; intros [= <- <- _]; done.
  - returned. destruct (batches self) eqn:Hb; intros [= <- <- _]; done.
Qed.

Lemma pair_iter_next_settings fs g self w b g' self' w' :
  g ≠ Finished →
  pair_iter_next fs g self w = Ok (b, g', self', w') →
  same_settings self' self
  ∧ (b = None → batches self' = [])
  ∧ g' = if b is Some _ then Suspended else Finished.
Proof.
  intros Hg. unfold pair_iter_next. destruct g; [| |done].
  - destruct (open fs (_data_path self +:+ ".x.txt")) as [x| |]; try done. returned.
    destruct (open fs (_data_path self +:+ ".y.txt")) as [y| |]; try done. returned.
    destruct (pair_iter_round _ _) as [[[b' self1] w1]| |] eqn:Hround; try done.
    returned. intros [= -> <- <- <-].
    by apply pair_iter_round_settings in Hround as [? ?].
  - destruct (pair_iter_round _ _) as [[[b' self1] w1]| |] eqn:Hround; try done.
    returned. intros [= -> <- <- <-].
    by apply pair_iter_round_settings in Hround as [? ?].
Qed.

Lemma iterate_Returned_settings (fuel : nat) fs g self w ys self' w' :
  g ≠ Finished →
  iterate fuel fs g self w = (ys, Returned, (self', w')) →
  batches self' = [] ∧ same_settings self' self.
Proof.
  revert g self w ys. induction fuel as [|fuel IH]; intros g self w ys Hg; [done|].
  cbn [iterate].
  destruct (pair_iter_next fs g self w) as [[[[[b|] g'] self1] w1]| |] eqn:Hnext;
    try done.
  - apply pair_iter_next_settings in Hnext as ((Hhps & Hsp & Hpath) & _ & ->); [|done].
    destruct (iterate fuel fs Suspended self1 w1) as [[ys1 out] final] eqn:Hrest.
    intros [= <- -> ->].
    apply IH in Hrest as (Hnone & Hhps' & Hsp' & Hpath'); [|done].
    repeat split; congruence.
  - apply pair_iter_next_settings in Hnext as (Hsame & Hnone & _); [|done].
    intros [= <- <- <-]. split; [by apply Hnone|done].
Qed.

(** X17: when an iteration over [pair_iter] returns normally, every
    batch that [refill] has made has been yielded: [self.batches] is
    empty.  The iteration has changed neither [_hps] nor [_single_pass]
    nor [_data_path]. *)
Theorem pair_iter_returns_with_no_batches (fuel : nat) fs self w ys self' w' :
  pair_iter fuel fs self w = (ys, Returned, (self', w')) →
  batches self' = []
  ∧ _hps self' = _hps self
  ∧ _single_pass self' = _single_pass self
  ∧ _data_path self' = _data_path self.
Proof. intros Hrun. by eapply iterate_Returned_settings in Hrun. Qed.

(** X18: a Batcher can be iterated again.  Each call of [pair_iter]
    opens the two files anew, so when the mode is not 'decode' a second
    iteration, made after the first has returned, returns as well and
    yields the same articles once more: the same articles up to the
    order of the batches, and in the same order when [single_pass]. *)
Theorem pair_iter_can_be_repeated fs self w (x y : string) :
  fs (_data_path self +:+ ".x.txt") = Some x →
  fs (_data_path self +:+ ".y.txt") = Some y →
  mode (_hps self) ≠ "decode" →
  1 <= batch_size (_hps self) →
  0 <= max_dec_steps (_hps self) →
  (pointer_gen (_hps self) = true → article2ids_aligned) →
  (∀ (g : RandomState) (l : list (Batch word)), (np_random_shuffle g l).1 ≡ₚ l) →
  ∀ fuel, (String.length x < fuel)%nat →
    ∃ ys self1 w1 ys' self2 w2,
      pair_iter fuel fs self w = (ys, Returned, (self1, w1))
      ∧ pair_iter fuel fs self1 w1 = (ys', Returned, (self2, w2))
      ∧ batched_articles ys' ≡ₚ batched_articles ys
      ∧ (_single_pass self = true → batched_articles ys' = batched_articles ys).
Proof.
  intros Hx Hy Hmode Hbs Hdec Haligned Hshuffle fuel Hfuel.
  destruct (iterate_train_articles fs (_hps self) Hbs Hdec Haligned Hmode Hshuffle
              fuel (set_batches self [])
              {| fdx := x; fdy := y; warnings := warnings w;
                 random_state := random_state w |})
    as (ys & self1 & w1 & Hrun & Hys & Hys_sp & _); [done|simpl; lia|].
  pose proof Hrun as Hsame.
  apply iterate_Returned_settings in Hsame as (_ & Hhps & Hsp & Hpath); [|done].
  cbn [_hps _single_pass _data_path set_batches] in Hhps, Hsp, Hpath.
  destruct (iterate_train_articles fs (_hps self) Hbs Hdec Haligned Hmode Hshuffle
              fuel (set_batches self1 [])
              {| fdx := x; fdy := y; warnings := warnings w1;
                 random_state := random_state w1 |})
    as (ys' & self2 & w2 & Hrun' & Hys' & Hys_sp' & _); [done|simpl; lia|].
  cbn [batches set_batches fdx fdy _single_pass] in Hys, Hys_sp, Hys', Hys_sp'.
  exists ys, self1, w1, ys', self2, w2.
  split; [by apply (pair_iter_Created_Returned fuel fs self w x y)|].
  split; [apply (pair_iter_Created_Returned fuel fs self1 w1 x y); [congruence..|done]|].
  split; [by rewrite Hys, Hys'|].
  intros Hsingle. rewrite Hys_sp, Hys_sp' by congruence. done.
Qed.

End PairIterMore.

Lemma pair_iter_returns_with_no_batches_witness :
  let self := Char.batcher "train" 2 false in
  let fs := Char.two_files Char.articles Char.abstracts in
  ∃ ys self' w',
    pair_iter 10 fs self Char.world = (ys, Returned, (self', w'))
    ∧ length ys = 2%nat
    ∧ batches self' = []
    ∧ _hps self' = _hps self.
Proof.
  intros self fs.
  destruct (pair_iter 10 fs self Char.world) as [[ys out] [self' w']] eqn:Hrun.
  assert (Hout : out = Returned) by (vm_compute in Hrun; by injection Hrun as _ <- _ _).
  subst out.
  destruct (pair_iter_returns_with_no_batches 10 fs self Char.world ys self' w' Hrun)
    as (Hnone & Hhps & _).
  exists ys, self', w'. split; [reflexivity|].
  split; [vm_compute in Hrun; by injection Hrun as <- _ _|].
  split; [exact Hnone|exact Hhps].
Defined.

Lemma pair_iter_can_be_repeated_witness :
  let self := Char.batcher "train" 2 true in
  let fs := Char.two_files Char.articles Char.abstracts in
  mode (_hps self) ≠ "decode"
  ∧ (String.length Char.articles < 10)%nat
  ∧ ∃ ys final ys' final',
      pair_iter 10 fs self Char.world = (ys, Returned, final)
      ∧ pair_iter 10 fs final.1 final.2 = (ys', Returned, final')
      ∧ batched_articles ys' = batched_articles ys.
Proof.
  intros self fs. split; [done|]. split; [vm_compute; lia|].
  destruct (pair_iter_can_be_repeated fs self Char.world Char.articles Char.abstracts
              eq_refl eq_refl ltac:(done) ltac:(done) ltac:(done)
              (λ _, char_article2ids_aligned) reversing_permutes 10%nat)
    as (ys & self1 & w1 & ys' & self2 & w2 & Hrun & Hrun' & _ & Hsame);
    [vm_compute; lia|].
  exists ys, (self1, w1), ys', (self2, w2).
  split; [exact Hrun|]. split; [exact Hrun'|]. by apply Hsame.
Defined.

(** ** gather_2d again *)



(** X20: the index vectors that [gather_2d] refuses.  Two vectors of
    different lengths, none of which has one element, cannot be added.
    For two int32 vectors of one length, a flat index, the int32 value
    of [indices1[k] * n + indices2[k]], that is negative or not below the
    number of cells makes [tf.gather] fail. *)
Theorem gather_2d_refuses {A : Type} (params : Tensor2 A) (indices1 indices2 : list Z) :
  (length indices1 ≠ length indices2 →
   length indices1 ≠ 1%nat →
   length indices2 ≠ 1%nat →
   gather_2d params indices1 indices2 = Raise InvalidArgumentError)
  ∧ (Tensor2_wf params →
     length indices1 = length indices2 →
     Forall is_int32 indices1 →
     Forall is_int32 indices2 →
     (∃ k i j, indices1 !! k = Some i ∧ indices2 !! k = Some j
               ∧ ¬ (0 <= wrap32 (i * shape1 params + j)
                    < shape0 params * shape1 params)) →
     gather_2d params indices1 indices2 = Raise InvalidArgumentError).
Proof.
  split.
  - intros Hlen H1 H2. unfold gather_2d, tf_shape, tf_add, tf_mul_scalar.
    rewrite decide_False by (by rewrite length_fmap).
    destruct indices1 as [|i1 [|i1' indices1]]; [|done|];
      by destruct indices2 as [|i2 [|i2' indices2]].
  - intros Hwf Hlen _ _ (k & i & j & Hi & Hj & Hout).
    unfold gather_2d, tf_shape. rewrite tf_mul_scalar_wrap.
    rewrite tf_add_same_length by (unfold tf_mul_scalar; by rewrite length_fmap).
    returned. unfold tf_gather. pose proof (len_flatten params Hwf) as Hcells.
    apply mapM_raise.
    + apply Forall_forall. intros f _.
      destruct (f <? 0); [by right|].
      destruct (tf_flatten params !! Z.to_nat f); [left; by eexists|by right].
    + apply Exists_exists. exists (wrap32 (i * shape1 params + j)). split.
      { eapply list_elem_of_lookup_2, flat_index_lookup. by exists i, j. }
      destruct (Z.ltb_spec (wrap32 (i * shape1 params + j)) 0) as [|Hnonneg]; [done|].
      rewrite lookup_ge_None_2; [done|]. unfold len in Hcells. lia.
Qed.

(** Index vectors of two and three elements; and the cell behind the
    last one.  The flat index of the row index [-1073741824] and the
    column index 1 is not refused in a matrix of one row and four
    columns: the product wraps around to 0. *)
Lemma gather_2d_refuses_witness :
  let params := mkTensor2 2 3 [[10; 11; 12]; [20; 21; 22]] in
  gather_2d params [0; 1] [0; 1; 2] = Raise InvalidArgumentError
  ∧ gather_2d params [1] [3] = Raise InvalidArgumentError
  ∧ gather_2d (mkTensor2 1 4 [[10; 11; 12; 13]]) [-1073741824] [1] = Ok [11].
Proof.
  intros params.
  assert (Hwf : Tensor2_wf params).
  { unfold Tensor2_wf. simpl. split; [lia|]. split; [done|]. by repeat constructor. }
  split; [|split].
  - apply (proj1 (gather_2d_refuses params [0; 1] [0; 1; 2])); simpl; lia.
  - apply (proj2 (gather_2d_refuses params [1] [3])); [exact Hwf|done| | |].
    + repeat constructor; unfold is_int32; lia.
    + repeat constructor; unfold is_int32; lia.
    + exists 0%nat, 1, 3. split; [done|]. split; [done|].
      vm_compute. intros [_ Hlt]. discriminate Hlt.
  - reflexivity.
Defined.

(** X21: an index vector of one element is broadcast: in a matrix of
    fewer than [2^31] cells, with one row index [i] and any number of
    column indices in range, [gather_2d] returns the entries of row [i]
    at these columns. *)
Theorem gather_2d_broadcasts_row {A : Type} (params : Tensor2 A) (i : Z)
    (indices2 : list Z) :
  Tensor2_wf params →
  shape0 params * shape1 params < 2 ^ 31 →
  0 <= i < shape0 params →
  Forall (λ j, 0 <= j < shape1 params) indices2 →
  ∃ out,
    gather_2d params [i] indices2 = Ok out
    ∧ length out = length indices2
    ∧ ∀ k j, indices2 !! k = Some j →
             ∃ x, out !! k = Some x ∧ entry params i j = Some x.
Proof.
  intros Hwf Hcells Hi Hcols. unfold gather_2d, tf_shape. rewrite tf_mul_scalar_wrap.
  assert (Hadd : tf_add (tf_mul_scalar [i] (shape1 params)) indices2
                 = Ok ((λ j, i * shape1 params + j) <$> indices2)).
  { assert (Hexact : Forall (λ j, add32 (mul32 i (shape1 params)) j
                                  = i * shape1 params + j) indices2).
    { eapply Forall_impl; [exact Hcols|]. intros j Hj. simpl in Hj.
      unfold add32, mul32. rewrite wrap32_add_l. apply wrap32_id.
      unfold is_int32. nia. }
    unfold tf_add, tf_mul_scalar. cbn [fmap list_fmap length].
    destruct (decide (1%nat = length indices2)) as [Hone|_].
    - destruct indices2 as [|j [|j' indices2]]; try done.
      apply Forall_cons_1 in Hexact as [Hexact _]. cbn. by rewrite Hexact.
    - f_equal. apply list_fmap_ext. intros k j Hj.
      by eapply Forall_lookup_1 in Hexact. }
  rewrite Hadd. returned.
  destruct (tf_gather_Forall2 (tf_flatten params)
              ((λ j, i * shape1 params + j) <$> indices2))
    as (out & Hrun & Hout).
  { rewrite len_flatten by done. apply Forall_fmap, Forall_forall. intros j Hj.
    apply (proj1 (Forall_forall _ _) Hcols) in Hj. simpl in *. nia. }
  exists out. split; [exact Hrun|].
  pose proof (Forall2_length _ _ _ Hout) as Hlen. rewrite length_fmap in Hlen.
  split; [lia|].
  intros k j Hj.
  destruct (Forall2_lookup_l _ _ _ k (i * shape1 params + j) Hout) as (x & Hx & Hflat).
  { by rewrite list_lookup_fmap, Hj. }
  exists x. split; [done|].
  eapply Forall_lookup_1 in Hcols; [|exact Hj]. simpl in Hcols.
  by rewrite entry_flatten by (done || lia).
Qed.

Lemma gather_2d_broadcasts_row_witness :
  let params := mkTensor2 2 3 [[10; 11; 12]; [20; 21; 22]] in
  Tensor2_wf params
  ∧ shape0 params * shape1 params < 2 ^ 31
  ∧ 0 <= 1 < shape0 params
  ∧ ∃ out, gather_2d params [1] [2; 0; 2] = Ok out ∧ out = [22; 20; 22].
Proof.
  intros params.
  assert (Hwf : Tensor2_wf params).
  { unfold Tensor2_wf. simpl. split; [lia|]. split; [done|]. by repeat constructor. }
  split; [exact Hwf|]. split; [simpl; lia|]. split; [simpl; lia|].
  destruct (gather_2d_broadcasts_row params 1 [2; 0; 2] Hwf) as (out & Hrun & _).
  - simpl. lia.
  - simpl. lia.
  - repeat constructor; simpl; lia.
  - exists out. split; [exact Hrun|]. vm_compute in Hrun. by injection Hrun as <-.
Defined.

(** ** _scatter_nd again *)

(** X22: scattering and gathering are inverse to each other on cells
    that are named once.  With [batch_size] and [extended_vsize] in the
    range of int32, in a matrix of fewer than [2^31] cells, when
    no two flat positions name the same cell, [gather_2d] on the result
    of [_scatter_nd], at the row and column indices that were scattered,
    returns the scattered weights. *)
Theorem scatter_then_gather {float32 : Type} (zero uninit : float32)
    (enc_batch batch_nums : Tensor2 Z) (copy_dist : Tensor2 float32)
    (batch_size extended_vsize : Z) :
  0 <= batch_size < 2 ^ 31 →
  0 <= extended_vsize < 2 ^ 31 →
  batch_size * extended_vsize < 2 ^ 31 →
  length (tf_flatten enc_batch) = length (tf_flatten batch_nums) →
  length (tf_flatten copy_dist) = length (tf_flatten batch_nums) →
  Forall (λ c, 0 <= c < extended_vsize) (tf_flatten enc_batch) →
  Forall (λ r, 0 <= r < batch_size) (tf_flatten batch_nums) →
  NoDup (zip (tf_flatten batch_nums) (tf_flatten enc_batch)) →
  ∃ out,
    _scatter_nd zero uninit enc_batch batch_size batch_nums extended_vsize copy_dist
    = Ok out
    ∧ gather_2d out (tf_flatten batch_nums) (tf_flatten enc_batch)
      = Ok (tf_flatten copy_dist).
Proof.
  intros [Hrows _] [Hcols _] Hcells Hlen Hlen' Hc Hr Hdistinct.
  rewrite scatter_nd_run by done.
  destruct (tf_reshape2_entry
              (apply_writes
                 (replicate (Z.to_nat batch_size * Z.to_nat extended_vsize) uninit)
                 (zip (tf_range (Z.of_nat (Z.to_nat batch_size * Z.to_nat extended_vsize)))
                      (replicate (Z.to_nat batch_size * Z.to_nat extended_vsize) zero)
                  ++ zip (zip_with add32
                            (tf_mul_scalar (tf_flatten batch_nums) extended_vsize)
                            (tf_flatten enc_batch))
                         (tf_flatten copy_dist)))
              batch_size extended_vsize Hrows Hcols)
    as (out & Hout & Hwf & Hs0 & Hs1 & Hentry).
  { unfold len. rewrite length_merged. nia. }
  exists out. split; [exact Hout|].
  assert (Hexact : ∀ k r c, tf_flatten batch_nums !! k = Some r →
            tf_flatten enc_batch !! k = Some c →
            0 <= r < batch_size ∧ 0 <= c < extended_vsize
            ∧ wrap32 (r * shape1 out + c) = r * extended_vsize + c).
  { intros k r c Hrow Hcol.
    eapply Forall_lookup_1 in Hr; [|exact Hrow].
    eapply Forall_lookup_1 in Hc; [|exact Hcol]. simpl in Hr, Hc.
    split; [done|]. split; [done|]. rewrite Hs1.
    apply wrap32_id. unfold is_int32. nia. }
  destruct (gather_2d_run out (tf_flatten batch_nums) (tf_flatten enc_batch) Hwf)
    as (got & -> & Hgot); [done| |].
  { apply Forall_lookup. intros k f Hf.
    apply flat_index_lookup in Hf as (r & c & Hrow & Hcol & ->).
    destruct (Hexact k r c Hrow Hcol) as (? & ? & ->). rewrite Hs0, Hs1. nia. }
  f_equal. pose proof (Forall2_length _ _ _ Hgot) as Hlen_got.
  unfold tf_mul_scalar in Hlen_got. rewrite length_zip_with, length_fmap in Hlen_got.
  apply list_eq. intros k.
  destruct (tf_flatten batch_nums !! k) as [r|] eqn:Hrow.
  - destruct (lookup_lt_is_Some_2 (tf_flatten enc_batch) k) as [c Hcol];
      [apply lookup_lt_Some in Hrow; lia|].
    destruct (lookup_lt_is_Some_2 (tf_flatten copy_dist) k) as [v Hv];
      [apply lookup_lt_Some in Hrow; lia|].
    destruct (Hexact k r c Hrow Hcol) as (Hr' & Hc' & Hwrap).
    destruct (Forall2_lookup_l _ _ _ k (r * extended_vsize + c) Hgot)
      as (x & Hx & Hflat).
    { apply flat_index_lookup. exists r, c. by rewrite Hwrap. }
    rewrite Hx, Hv. rewrite <- Hflat, <- Hs1, <- entry_flatten by (done || lia).
    rewrite Hentry by done.
    eapply merged_last_write; try done.
    intros k' Hlater [Hrow' Hcol'].
    assert (Hk : zip (tf_flatten batch_nums) (tf_flatten enc_batch) !! k = Some (r, c)).
    { apply lookup_zip_with_Some. by exists r, c. }
    assert (Hk' : zip (tf_flatten batch_nums) (tf_flatten enc_batch) !! k' = Some (r, c)).
    { apply lookup_zip_with_Some. by exists r, c. }
    pose proof (NoDup_lookup _ _ _ _ Hdistinct Hk Hk'). lia.
  - apply lookup_ge_None in Hrow.
    rewrite !lookup_ge_None_2; [done|lia..].
Qed.

Lemma scatter_then_gather_witness :
  let enc_batch := mkTensor2 2 2 [[1; 2]; [0; 2]] in
  let batch_nums := mkTensor2 2 2 [[0; 0]; [1; 1]] in
  let copy_dist := mkTensor2 2 2 [[30; 70]; [45; 55]] in
  NoDup (zip (tf_flatten batch_nums) (tf_flatten enc_batch))
  ∧ 2 * 3 < 2 ^ 31
  ∧ ∃ out,
      _scatter_nd 0 (-1) enc_batch 2 batch_nums 3 copy_dist = Ok out
      ∧ gather_2d out [0; 0; 1; 1] [1; 2; 0; 2] = Ok [30; 70; 45; 55].
Proof.
  intros enc_batch batch_nums copy_dist.
  assert (Hdistinct : NoDup (zip (tf_flatten batch_nums) (tf_flatten enc_batch))).
  { apply (bool_decide_unpack _). by vm_compute. }
  split; [exact Hdistinct|]. split; [lia|].
  apply (scatter_then_gather 0 (-1) enc_batch batch_nums copy_dist 2 3);
    [lia|lia|lia|done|done| | |exact Hdistinct].
  - repeat constructor; simpl; lia.
  - repeat constructor; simpl; lia.
Defined.

(** X23: [_scatter_nd] refuses a cell outside of the matrix.  For
    [batch_size] and [extended_vsize] in the range of int32, a matrix of
    fewer than [2^31] cells and int32 index tensors, when a
    flat index, the int32 value of
    [batch_nums[k] * extended_vsize + enc_batch[k]], is negative,
    [tf.dynamic_stitch] fails; when it is not below
    [batch_size * extended_vsize], the stitched vector is longer than the
    matrix and [tf.reshape] fails. *)
Theorem scatter_nd_out_of_range {float32 : Type} (zero uninit : float32)
    (enc_batch batch_nums : Tensor2 Z) (copy_dist : Tensor2 float32)
    (batch_size extended_vsize : Z) :
  0 <= batch_size < 2 ^ 31 →
  0 <= extended_vsize < 2 ^ 31 →
  batch_size * extended_vsize < 2 ^ 31 →
  length (tf_flatten enc_batch) = length (tf_flatten batch_nums) →
  length (tf_flatten copy_dist) = length (tf_flatten batch_nums) →
  Forall is_int32 (tf_flatten enc_batch) →
  Forall is_int32 (tf_flatten batch_nums) →
  (∃ k r c, tf_flatten batch_nums !! k = Some r
            ∧ tf_flatten enc_batch !! k = Some c
            ∧ ¬ (0 <= wrap32 (r * extended_vsize + c) < batch_size * extended_vsize)) →
  _scatter_nd zero uninit enc_batch batch_size batch_nums extended_vsize copy_dist
  = Raise InvalidArgumentError.
Proof.
  intros [Hrows _] [Hcols _] Hcells Hlen Hlen' _ _ (k & r & c & Hrow & Hcol & Hout).
  destruct (lookup_lt_is_Some_2 (tf_flatten copy_dist) k) as [v Hv];
    [apply lookup_lt_Some in Hrow; lia|].
  unfold _scatter_nd, tf_zeros.
  destruct (Z.ltb_spec batch_size 0); [lia|].
  destruct (Z.ltb_spec extended_vsize 0); [lia|]. simpl orb. cbv iota. returned.
  unfold tf_flatten at 1 2. simpl rows. rewrite concat_replicate_replicate.
  rewrite tf_add_same_length
    by (unfold tf_mul_scalar; by rewrite length_fmap).
  returned. unfold tf_size. rewrite len_replicate.
  rewrite (wrap32_id (Z.of_nat _)) by (unfold is_int32; nia).
  unfold tf_dynamic_stitch.
  rewrite decide_True.
  2:{ simpl. unfold tf_range, tf_mul_scalar.
      rewrite length_seqZ, !length_replicate, length_zip_with, length_fmap.
      f_equal; [lia|]. f_equal. lia. }
  cbv zeta. simpl concat. rewrite app_nil_r.
  match goal with
  | |- context [forallb ?P ?writes] =>
      assert (Hin : (wrap32 (r * extended_vsize + c), v) ∈ writes);
      [|destruct (forallb P writes) eqn:Hnonneg; [|done];
        pose proof (stitch_size_ge writes _ Hin) as Hsize;
        pose proof (proj1 (List.forallb_forall P writes) Hnonneg _
                      (proj1 (list_elem_of_In _ _) Hin)) as Hpos]
  end.
  { apply elem_of_app. right. eapply list_elem_of_lookup_2.
    apply lookup_zip_with_Some. exists (wrap32 (r * extended_vsize + c)), v.
    split; [done|]. split; [|done]. apply flat_index_lookup. by exists r, c. }
  returned. unfold tf_reshape2.
  destruct (Z.ltb_spec batch_size 0); [lia|].
  destruct (Z.ltb_spec extended_vsize 0); [lia|]. simpl orb.
  apply Z.leb_le in Hpos. simpl in Hpos, Hsize.
  unfold len in *. rewrite length_apply_writes, length_replicate.
  match goal with
  | |- context [Z.eqb ?a ?b] => destruct (Z.eqb_spec a b) as [Heq|_]; [|done]
  end.
  lia.
Qed.

(** The column 3 of the last row of a matrix of three columns is
    refused.  The row index [-1073741824] with four columns is not: its
    flat index wraps around to 1. *)
Lemma scatter_nd_out_of_range_witness :
  let enc_batch := mkTensor2 1 2 [[1; 3]] in
  let batch_nums := mkTensor2 1 2 [[0; 1]] in
  let copy_dist := mkTensor2 1 2 [[30; 70]] in
  _scatter_nd 0 (-1) enc_batch 2 batch_nums 3 copy_dist = Raise InvalidArgumentError
  ∧ _scatter_nd 0 (-1) (mkTensor2 1 1 [[1]]) 1 (mkTensor2 1 1 [[-1073741824]]) 4
      (mkTensor2 1 1 [[30]])
    = Ok (mkTensor2 1 4 [[0; 30; 0; 0]]).
Proof.
  intros enc_batch batch_nums copy_dist. split; [|reflexivity].
  apply (scatter_nd_out_of_range 0 (-1) enc_batch batch_nums copy_dist 2 3);
    [lia|lia|lia|done|done| | |].
  - repeat constructor; unfold is_int32; lia.
  - repeat constructor; unfold is_int32; lia.
  - exists 1%nat, 1, 3. split; [done|]. split; [done|].
    vm_compute. intros [_ Hlt]. discriminate Hlt.
Defined.

(** ** The batches that an iteration yields *)

Section Yielded.
Context {word : Type} `{Vocabulary word}.
Context {RandomState : Type} `{NumpyRandom RandomState}.
Variables (fs : string → option string) (hps0 : HParams).
Hypothesis batch_pos : 1 <= batch_size hps0.
Hypothesis dec_steps : 0 <= max_dec_steps hps0.
Hypothesis aligned : pointer_gen hps0 = true → article2ids_aligned.
Hypothesis permutes :
  ∀ (g : RandomState) (l : list (Batch word)), (np_random_shuffle g l).1 ≡ₚ l.
Implicit Types (self : Batcher word) (w : World RandomState).

(** The Batch of a group of examples that fits in it. *)
Lemma stacked_batch_full (g : list (Example word)) :
  g ≠ [] →
  len g <= batch_size hps0 →
  Forall (Example_fresh hps0) g →
  full_batch hps0 (stacked_batch hps0 g).
Proof.
  intros Hne Hfits Hfresh.
  pose proof (max_enc_len_nonneg hps0 g Hfresh) as HM.
  assert (Hpadded : Forall (λ ex,
            len (enc_input ex) = max_enc_len g
            ∧ len (dec_input ex) = max_dec_steps hps0
            ∧ len (target ex) = max_dec_steps hps0
            ∧ len (mask_row (max_dec_steps hps0) ex) = max_dec_steps hps0)
          (padded (max_enc_len g) (max_dec_steps hps0) (word2id _PAD) <$> g)).
  { apply Forall_fmap, Forall_forall. intros ex Hex.
    destruct (padded_lengths hps0 ex (max_enc_len g) (word2id _PAD))
      as (? & ? & ? & ? & _); [|by apply max_enc_len_ge|done..].
    by eapply Forall_forall in Hfresh. }
  assert (Hrect : ∀ (f : Example word → list Z) (width : Z),
            0 <= width →
            Forall (λ ex, len (f ex) = width)
              (padded (max_enc_len g) (max_dec_steps hps0) (word2id _PAD) <$> g) →
            rectangular (batch_size hps0) width
              (stacked (batch_size hps0) width
                 (f <$> (padded (max_enc_len g) (max_dec_steps hps0) (word2id _PAD)
                         <$> g)))).
  { intros f width Hwidth Hrows.
    apply stacked_rectangular; [done| |by apply Forall_fmap].
    unfold len in *. rewrite !length_fmap. lia. }
  unfold full_batch. cbn [enc_batch enc_lens dec_batch target_batch padding_mask
                          original_articles stacked_batch].
  split.
  { exists (max_enc_len g). apply Hrect; [done|].
    eapply Forall_impl; [exact Hpadded|].
    intros ex (? & _); by rewrite ?len_astype_int32. }
  split.
  { unfold len in *. rewrite length_app, length_replicate, length_fmap. lia. }
  split.
  { apply Hrect; [done|]. eapply Forall_impl; [exact Hpadded|].
    intros ex (_ & ? & _); by rewrite ?len_astype_int32. }
  split.
  { apply Hrect; [done|]. eapply Forall_impl; [exact Hpadded|].
    intros ex (_ & _ & ? & _); by rewrite ?len_astype_int32. }
  split.
  { apply Hrect; [done|]. eapply Forall_impl; [exact Hpadded|].
    intros ex (_ & _ & _ & ?); by rewrite ?len_astype_int32. }
  unfold len in *. rewrite length_fmap. destruct g; [done|]. cbn [length] in *. lia.
Qed.

(** [refill] adds such batches only. *)
Lemma refill_full self w self' w' :
  _hps self = hps0 →
  Forall (full_batch hps0) (batches self) →
  refill self w = Ok (self', w') →
  Forall (full_batch hps0) (batches self').
Proof.
  intros Hhps Hfull.
  assert (Hbs : 1 <= batch_size (_hps self)) by (by rewrite Hhps).
  assert (Hdec : 0 <= max_dec_steps (_hps self)) by (by rewrite Hhps).
  assert (Haligned : pointer_gen (_hps self) = true → article2ids_aligned)
    by (by rewrite Hhps).
  destruct (decide (mode (_hps self) = "decode")) as [Hdecode|Htrain].
  - destruct (truthy (readline (fdx w)).1 && truthy (readline (fdy w)).1) eqn:Hlines.
    + destruct (refill_decode_pair self w Hdecode Hbs Hdec Haligned Hlines)
        as (ex & _ & Hfresh & _ & _ & ->).
      intros [= <- _]. cbn [batches set_batches]. rewrite Hhps in *.
      apply Forall_app. split; [done|]. apply Forall_singleton.
      apply stacked_batch_full.
      * intros Hnil. apply (f_equal length) in Hnil.
        rewrite length_replicate in Hnil. cbn in Hnil. lia.
      * unfold len. rewrite length_replicate. lia.
      * by apply Forall_replicate.
    + by rewrite (refill_decode_eof self w Hdecode Hlines).
  - destruct (refill_train self w Hbs Hdec Haligned Htrain)
      as (s & n & _ & _ & _ & Hfresh & ->).
    cbv zeta. intros [= <- _]. cbn [batches set_batches].
    assert (Hnew : ∀ l : list (Example word),
              Forall (Example_fresh hps0) l →
              Forall (full_batch hps0)
                (batches self
                 ++ (stacked_batch (_hps self) <$> groups_of (batch_size (_hps self)) l))).
    { intros l Hl. apply Forall_app. split; [done|].
      apply Forall_fmap.
      eapply Forall_impl.
      - apply (groups_of_fresh self); [done..|]. by rewrite Hhps.
      - intros g (Hne & Hfits & Hg). cbn. rewrite Hhps in Hfits, Hg |- *.
        by apply stacked_batch_full. }
    rewrite Hhps in Hfresh.
    destruct (_single_pass self); cbn [fst].
    + by apply Hnew.
    + rewrite permutes. apply Hnew. by rewrite sorted_Permutation.
Qed.

Lemma pair_iter_round_full self w b self' w' :
  _hps self = hps0 →
  Forall (full_batch hps0) (batches self) →
  pair_iter_round self w = Ok (b, self', w') →
  _hps self' = hps0
  ∧ Forall (full_batch hps0) (batches self')
  ∧ ∀ batch, b = Some batch → full_batch hps0 batch.
Proof.
  intros Hhps Hfull. unfold pair_iter_round.
  assert (Hpop : ∀ self1 w1,
            _hps self1 = hps0 →
            Forall (full_batch hps0) (batches self1) →
            match batches self1 with
            | [] => Ok (None, self1, w1)
            | batch :: rest => Ok (Some batch, set_batches self1 rest, w1)
            end = Ok (b, self', w') →
            _hps self' = hps0
            ∧ Forall (full_batch hps0) (batches self')
            ∧ ∀ batch, b = Some batch → full_batch hps0 batch).
  { intros self1 w1 Hhps1 Hfull1.
    destruct (batches self1) as [|batch rest] eqn:Hb; intros [= <- <- _].
    - by rewrite Hb.
    - apply Forall_cons in Hfull1 as [Hbatch Hrest]. cbn.
      split; [done|]. split; [done|]. by intros ? [= <-]. }
  destruct (len (batches self) =? 0).
  - destruct (refill self w) as [[self1 w1]| |] eqn:Hrefill; try done. returned.
    apply Hpop.
    + apply refill_hps in Hrefill as (? & _). congruence.
    + by eapply refill_full.
  - returned. by apply Hpop.
Qed.

Lemma iterate_full (fuel : nat) g self w :
  _hps self = hps0 →
  (g = Suspended → Forall (full_batch hps0) (batches self)) →
  Forall (full_batch hps0) (iterate fuel fs g self w).1.1.
Proof.
  revert g self w. induction fuel as [|fuel IH]; intros g self w Hhps Hfull; [done|].
  cbn [iterate].
  destruct (pair_iter_next fs g self w) as [[[[[b|] g'] self1] w1]| |] eqn:Hnext;
    try done.
  assert (Hround : _hps self1 = hps0
                   ∧ Forall (full_batch hps0) (batches self1)
                   ∧ full_batch hps0 b).
  { unfold pair_iter_next in Hnext. destruct g.
    - destruct (open fs (_data_path self +:+ ".x.txt")) as [x| |]; try done.
      rewrite bind_Ok in Hnext.
      destruct (open fs (_data_path self +:+ ".y.txt")) as [y| |]; try done.
      rewrite bind_Ok in Hnext. cbv zeta in Hnext.
      destruct (pair_iter_round _ _) as [[[b' self2] w2]| |] eqn:Hround; try done.
      rewrite bind_Ok in Hnext. injection Hnext as -> _ <- <-.
      apply pair_iter_round_full in Hround as (? & ? & Hb); [|done..].
      by specialize (Hb b eq_refl).
    - destruct (pair_iter_round _ _) as [[[b' self2] w2]| |] eqn:Hround; try done.
      rewrite bind_Ok in Hnext. injection Hnext as -> _ <- <-.
      apply pair_iter_round_full in Hround as (? & ? & Hb); [|by auto..].
      by specialize (Hb b eq_refl).
    - done. }
  destruct Hround as (Hhps1 & Hfull1 & Hb).
  specialize (IH g' self1 w1 Hhps1 (λ _, Hfull1)).
  destruct (iterate fuel fs g' self1 w1) as [[ys out] final].
  by constructor.
Qed.

End Yielded.

(** X24: in every mode, every batch that an iteration over [pair_iter]
    yields has arrays of exactly [batch_size] rows, the decoder arrays
    with [max_dec_steps] columns, and holds at least one example and at
    most [batch_size] examples; this is so for the last batch of a file
    too, which [refill] fills up with rows of zeros. *)
Theorem pair_iter_yields_full_batches {word : Type} `{Vocabulary word}
    {RandomState : Type} `{NumpyRandom RandomState}
    (fs : string → option string) (self : Batcher word) (w : World RandomState)
    (fuel : nat) :
  1 <= batch_size (_hps self) →
  0 <= max_dec_steps (_hps self) →
  (pointer_gen (_hps self) = true → article2ids_aligned) →
  (∀ (g : RandomState) (l : list (Batch word)), (np_random_shuffle g l).1 ≡ₚ l) →
  Forall (full_batch (_hps self)) (pair_iter fuel fs self w).1.1.
Proof.
  intros Hbs Hdec Haligned Hperm. unfold pair_iter.
  by apply iterate_full.
Qed.

(** The three pairs of lines make two batches of size 2. *)
Lemma pair_iter_yields_full_batches_witness :
  let self := Char.batcher "train" 2 true in
  let fs := Char.two_files Char.articles Char.abstracts in
  1 <= batch_size (_hps self)
  ∧ 0 <= max_dec_steps (_hps self)
  ∧ length (pair_iter 10 fs self Char.world).1.1 = 2%nat
  ∧ Forall (full_batch (_hps self)) (pair_iter 10 fs self Char.world).1.1.
Proof.
  intros self fs. split; [done|]. split; [vm_compute; discriminate|].
  split; [reflexivity|].
  apply (pair_iter_yields_full_batches fs self Char.world 10).
  - done.
  - vm_compute. discriminate.
  - intros _. exact char_article2ids_aligned.
  - exact reversing_permutes.
Defined.
